(** * opencode-orca: autonomy gating, validation and retry pipeline

    A shallow embedding of the plugin's dispatch pipeline
    (src/plugin/autonomy.ts, gates.ts, retry.ts, dispatch.ts and the
    envelope schemas) together with the properties stated about it, and of
    the merging of agent configurations (src/plugin/agents.ts).

    JavaScript strings are sequences of UTF-16 code units; they are modelled
    as lists of [N].  Values the TypeScript types describe as string unions
    (autonomy level, classification, gate decision, error code) stay strings
    here, because the code itself has [default:] branches for values outside
    the union. *)

From Stdlib Require Import List String Ascii Bool NArith ZArith Lia.
From Stdlib Require Import DecimalString.
Import ListNotations.

Set Implicit Arguments.
Set Warnings "-register-all".
Set Default Proof Using "Type".
Local Open Scope N_scope.

(* ================================================================== *)
(** * Part I.  The embedding *)
(* ================================================================== *)

(** ** JavaScript strings *)

Module Js.

Definition jsstring := list N.

(** An ASCII literal of the source, as code units. *)
Fixpoint lit (s : string) : jsstring :=
  match s with
  | EmptyString => []
  | String a rest => N_of_ascii a :: lit rest
  end.

(** [===] on strings. *)
Fixpoint eqb (a b : jsstring) : bool :=
  match a, b with
  | [], [] => true
  | x :: a', y :: b' => N.eqb x y && eqb a' b'
  | _, _ => false
  end.

(** [Array.prototype.join]. *)
Fixpoint join (sep : jsstring) (parts : list jsstring) : jsstring :=
  match parts with
  | [] => []
  | [p] => p
  | p :: rest => p ++ sep ++ join sep rest
  end.

(** [Set.prototype.has] for a set of strings given by its elements. *)
Definition has (set : list jsstring) (x : jsstring) : bool :=
  existsb (eqb x) set.

(** [String(n)] for an integer (below 10^21 in absolute value, where
    JavaScript prints all the digits). *)
Definition ofZ (z : Z) : jsstring :=
  lit (NilZero.string_of_int (Z.to_int z)).

(** The double-quote character (U+0022) inside a template literal. *)
Definition dquote : jsstring := [34].
(** A line break inside a template literal. *)
Definition nl : jsstring := [10].

(** [haystack.includes(needle)], as a proposition. *)
Definition includes (haystack needle : jsstring) : Prop :=
  exists before after, haystack = before ++ needle ++ after.

End Js.

Import Js.

(** ** Regular expressions of autonomy.ts

    The patterns of the module use only literal characters, [\b] and [\s+],
    all under the [i] flag and without the [g], [y] or [u] flags, so
    [RegExp.prototype.test] keeps no state between calls and searches the
    whole string for a match. *)

Module RegExp.

Inductive Atom :=
| Char (c : N)        (* a literal character *)
| WordBoundary        (* \b *)
| Whitespaces.        (* \s+ *)

Definition t := list Atom.

(** [\w] without the [u] flag: [A-Za-z0-9_]. *)
Definition isWordChar (c : N) : bool :=
  ((65 <=? c) && (c <=? 90)) || ((97 <=? c) && (c <=? 122))
  || ((48 <=? c) && (c <=? 57)) || (c =? 95).

(** [\s]: WhiteSpace and LineTerminator code points. *)
Definition isWhiteSpace (c : N) : bool :=
  ((9 <=? c) && (c <=? 13)) || (c =? 32) || (c =? 160) || (c =? 5760)
  || ((8192 <=? c) && (c <=? 8202)) || (c =? 8232) || (c =? 8233)
  || (c =? 8239) || (c =? 8287) || (c =? 12288) || (c =? 65279).

(** Canonicalize of the [i] flag.  Without [u] a code unit of 128 or more
    never canonicalizes to an ASCII one, and below 128 only [a-z] change, so
    against the ASCII literals of the patterns this is the whole function. *)
Definition canonicalize (c : N) : N :=
  if (97 <=? c) && (c <=? 122) then c - 32 else c.

Definition charMatches (pat c : N) : bool :=
  canonicalize pat =? canonicalize c.

Definition wordBefore (prev : option N) : bool :=
  match prev with Some c => isWordChar c | None => false end.

Definition wordAfter (s : jsstring) : bool :=
  match s with c :: _ => isWordChar c | [] => false end.

(** Match the atoms at the current position; [prev] is the code unit just
    before it.  [\s+] is greedy and backtracks. *)
Fixpoint matchHere (re : t) (prev : option N) (s : jsstring) : bool :=
  match re with
  | [] => true
  | Char p :: re' =>
      match s with
      | c :: s' => charMatches p c && matchHere re' (Some c) s'
      | [] => false
      end
  | WordBoundary :: re' =>
      negb (Bool.eqb (wordBefore prev) (wordAfter s)) && matchHere re' prev s
  | Whitespaces :: re' =>
      (fix spaces (s : jsstring) : bool :=
         match s with
         | c :: s' =>
             isWhiteSpace c && (spaces s' || matchHere re' (Some c) s')
         | [] => false
         end) s
  end.

Fixpoint search (re : t) (prev : option N) (s : jsstring) : bool :=
  matchHere re prev s
  || match s with
     | c :: s' => search re (Some c) s'
     | [] => false
     end.

(** [pattern.test(s)]. *)
Definition test (re : t) (s : jsstring) : bool := search re None s.

Definition chars (s : string) : t := map Char (lit s).

End RegExp.

(** ** Message envelopes (schemas/messages, schemas/common) *)

Inductive Json :=
| JNull
| JBool (b : bool)
| JNum (n : Z)
| JStr (s : jsstring)
| JArr (items : list Json)
| JObj (fields : list (jsstring * Json)).

Record TaskPayload := {
  agent_id : jsstring;
  prompt : jsstring;
  context : option Json;
  parent_session_id : option jsstring
}.

(** A validated request envelope of type ['task']. *)
Record TaskMessage := {
  task_session_id : jsstring;
  task_timestamp : jsstring;
  task_payload : TaskPayload
}.

Record EscalationOption := {
  label : jsstring;
  value : jsstring
}.

Inductive Payload :=
| FailurePayload (agent : option jsstring) (code message : jsstring)
                 (cause : option jsstring)
| EscalationPayload (agent decision_id decision : jsstring)
                    (options : list EscalationOption) (context : jsstring)
| ResultPayload (agent content : jsstring)
| OtherPayload (body : Json).

(** An envelope object.  [msg_session_id] is [None] when the object has no
    [session_id] property. *)
Record MessageEnvelope := {
  msg_type : jsstring;
  msg_session_id : option jsstring;
  msg_timestamp : jsstring;
  msg_payload : Payload
}.

(** [Object.keys] of an envelope literal, in the order the literals of the
    source list them. *)
Definition envelopeKeys (m : MessageEnvelope) : list jsstring :=
  [lit "type"]
  ++ match msg_session_id m with Some _ => [lit "session_id"] | None => [] end
  ++ [lit "timestamp"; lit "payload"].

(** [m.payload.code]; [None] is [undefined]. *)
Definition payloadCode (m : MessageEnvelope) : option jsstring :=
  match msg_payload m with
  | FailurePayload _ code _ _ => Some code
  | _ => None
  end.

(** schemas/common.ts: [ResponseEnvelopeSchema = z.strictObject({ timestamp })],
    the fields shared by answer, plan, question, escalation, failure and
    checkpoint; every message schema adds [type] and [payload]. *)
Definition ResponseEnvelopeSchema : list jsstring := [lit "timestamp"].

(** schemas/common.ts: [BaseEnvelopeSchema], for task, user_input and
    interrupt. *)
Definition BaseEnvelopeSchema : list jsstring :=
  [lit "session_id"; lit "timestamp"].

(** Strictness of [z.strictObject]: a key outside the schema is rejected. *)
Definition strictKeysOk (common : list jsstring) (m : MessageEnvelope) : bool :=
  forallb (has ([lit "type"; lit "payload"] ++ common)) (envelopeKeys m).

(** schemas/errors.ts *)
Module ErrorCode.
Definition VALIDATION_ERROR := lit "VALIDATION_ERROR".
Definition UNKNOWN_AGENT := lit "UNKNOWN_AGENT".
Definition SESSION_NOT_FOUND := lit "SESSION_NOT_FOUND".
Definition AGENT_ERROR := lit "AGENT_ERROR".
Definition TIMEOUT := lit "TIMEOUT".
Definition AUTONOMY_BLOCKED := lit "AUTONOMY_BLOCKED".
Definition APPROVAL_REQUIRED := lit "APPROVAL_REQUIRED".
End ErrorCode.

(** ** plugin/autonomy.ts *)

Module Autonomy.

Import RegExp.

Definition ROUTINE_AGENTS : list jsstring := [lit "researcher"; lit "reviewer"].
Definition SIGNIFICANT_AGENTS : list jsstring :=
  [lit "coder"; lit "tester"; lit "document-writer"; lit "strategist"].
Definition DANGEROUS_AGENTS : list jsstring := [].

Definition DANGEROUS_PATTERNS : list RegExp.t := [
  WordBoundary :: chars "delete" ++ [WordBoundary];
  WordBoundary :: chars "drop" ++ [WordBoundary];
  WordBoundary :: chars "remove" ++ Whitespaces :: chars "all" ++ [WordBoundary];
  WordBoundary :: chars "truncate" ++ [WordBoundary];
  WordBoundary :: chars "wipe" ++ [WordBoundary];
  WordBoundary :: chars "destroy" ++ [WordBoundary];
  WordBoundary :: chars "rm" ++ Whitespaces :: chars "-rf" ++ [WordBoundary];
  WordBoundary :: chars "force" ++ Whitespaces :: chars "push" ++ [WordBoundary];
  chars "--force" ++ [WordBoundary];
  WordBoundary :: chars "reset" ++ Whitespaces :: chars "--hard" ++ [WordBoundary]
].

Definition SIGNIFICANT_PATTERNS : list RegExp.t := [
  WordBoundary :: chars "modify" ++ [WordBoundary];
  WordBoundary :: chars "update" ++ [WordBoundary];
  WordBoundary :: chars "change" ++ [WordBoundary];
  WordBoundary :: chars "create" ++ [WordBoundary];
  WordBoundary :: chars "write" ++ [WordBoundary];
  WordBoundary :: chars "implement" ++ [WordBoundary];
  WordBoundary :: chars "refactor" ++ [WordBoundary];
  WordBoundary :: chars "fix" ++ [WordBoundary];
  WordBoundary :: chars "add" ++ [WordBoundary];
  WordBoundary :: chars "migrat";
  WordBoundary :: chars "deploy";
  WordBoundary :: chars "install" ++ [WordBoundary]
].

Definition DEFAULT_AUTONOMY_LEVEL : jsstring := lit "supervised".

(** [for (const pattern of patterns) if (pattern.test(prompt)) return ...] *)
Definition anyPatternMatches (patterns : list RegExp.t) (s : jsstring) : bool :=
  existsb (fun pattern => test pattern s) patterns.

Section ClassifyAction.
Variable AgentConfig : Type.

(** The registry is a [Record<string, AgentConfig>]: its own keys in
    [Object.keys] order. *)
Definition Registry := list (jsstring * AgentConfig).

Definition classifyAction (task : TaskMessage) (_agents : Registry) : jsstring :=
  let targetAgentId := agent_id (task_payload task) in
  let prompt := prompt (task_payload task) in
  if anyPatternMatches DANGEROUS_PATTERNS prompt then lit "dangerous"
  else if has DANGEROUS_AGENTS targetAgentId then lit "dangerous"
  else if has SIGNIFICANT_AGENTS targetAgentId then lit "significant"
  else if anyPatternMatches SIGNIFICANT_PATTERNS prompt then lit "significant"
  else if has ROUTINE_AGENTS targetAgentId then lit "routine"
  else lit "routine".

End ClassifyAction.

Definition determineGate (level classification : jsstring) : jsstring :=
  if eqb level (lit "supervised") then
    if eqb classification (lit "dangerous") then lit "block"
    else lit "require_approval"
  else if eqb level (lit "assisted") then
    if eqb classification (lit "dangerous") then lit "block"
    else if eqb classification (lit "significant") then lit "require_approval"
    else lit "proceed"
  else if eqb level (lit "autonomous") then
    if eqb classification (lit "dangerous") then lit "require_approval"
    else lit "proceed"
  else lit "require_approval".

(** [maxRetries] is an integer; the loops compare it with their counters,
    so a negative budget behaves as zero. *)
Record AutonomyConfig := {
  level : jsstring;
  maxRetries : Z
}.

Definition DEFAULT_AUTONOMY_CONFIG : AutonomyConfig :=
  {| level := DEFAULT_AUTONOMY_LEVEL; maxRetries := 2 |}.

End Autonomy.

(** ** Effects

    The asynchronous code is sequential: every [await] is followed to its
    result before the next statement runs.  It is modelled by state passing
    over the state of the outside world, with exceptions.  Calls to the
    callbacks the caller supplies (retry executor, correction sender, SDK
    client) are recorded in a call log, as a test mock records them. *)

(** What a [throw] carries, as far as the code looks at it: an [Error] with
    its [message]; another value with its [String(value)]; or a value that
    [String] cannot convert (an object without [toString] and [valueOf],
    such as [Object.create(null)], or one whose [toString] throws), with
    the exception the conversion throws. *)
Inductive Thrown :=
| ErrorObject (message : jsstring)
| ThrownValue (asString : jsstring)
| Unconvertible (raised : Thrown).

Inductive Outcome (A : Type) :=
| Returned (a : A)
| Threw (e : Thrown).

Arguments Returned {A} a.
Arguments Threw {A} e.

Inductive Call :=
| CallExecutor
| CallCorrection (correctionPrompt : jsstring)
| CallSessionCreate
| CallSessionPrompt (sessionId agent text : jsstring).

(** The host environment: what the code takes from the JavaScript runtime
    and from zod rather than from this repository, and two texts of
    validation.ts that neither the sources nor the specification give. *)
Class Host := {
  World : Type;
  (** [randomUUID()] of node:crypto *)
  host_randomUUID : World -> jsstring * World;
  (** [new Date().toISOString()] *)
  host_now : World -> jsstring;
  (** [JSON.stringify] on an envelope *)
  JSON_stringify : MessageEnvelope -> jsstring;
  (** [JSON.parse]; [None] when it throws a SyntaxError *)
  JSON_parse : jsstring -> option Json;
  (** [TaskMessageSchema.safeParse]; [None] when [success] is false *)
  TaskMessageSchema_safeParse : Json -> option TaskMessage;
  (** [MessageEnvelopeSchema.safeParse]: the envelope, or the issues as
      (field, reason) pairs *)
  MessageEnvelopeSchema_safeParse :
    Json -> MessageEnvelope + list (jsstring * jsstring);
  (** validation.ts, text of the prompt that asks the agent to correct a
      response, from the validation error *)
  correctionPromptFor : jsstring -> jsstring;
  (** validation.ts, text of the failure message summarising the
      validation error *)
  validationFailureText : jsstring -> jsstring
}.

Section Effects.
Context `{Host}.

Record Cell := {
  world : World;
  calls : list Call
}.

Definition M (A : Type) : Type := Cell -> Outcome A * Cell.

(** A function of the outside world: a callback or an SDK method. *)
Definition External (A : Type) : Type := World -> Outcome A * World.

Definition ret {A} (a : A) : M A := fun c => (Returned a, c).

Definition bind {A B} (m : M A) (k : A -> M B) : M B :=
  fun c =>
    match m c with
    | (Returned a, c') => k a c'
    | (Threw e, c') => (Threw e, c')
    end.

Definition throw {A} (e : Thrown) : M A := fun c => (Threw e, c).

(** [try { body } catch (err) { handler }] *)
Definition tryCatch {A} (body : M A) (handler : Thrown -> M A) : M A :=
  fun c =>
    match body c with
    | (Returned a, c') => (Returned a, c')
    | (Threw e, c') => handler e c'
    end.

(** [await f(...)] for an external function, recorded in the call log. *)
Definition invoke {A} (tag : Call) (f : External A) : M A :=
  fun c =>
    let (r, w') := f (world c) in
    (r, {| world := w'; calls := calls c ++ [tag] |}).

Definition randomUUID : M jsstring :=
  fun c =>
    let (id, w') := host_randomUUID (world c) in
    (Returned id, {| world := w'; calls := calls c |}).

Definition nowTimestamp : M jsstring :=
  fun c => (Returned (host_now (world c)), c).

(** Read a flag the outside world owns. *)
Definition observe {A} (f : World -> A) : M A :=
  fun c => (Returned (f (world c)), c).

(** How often the log records a call for which [p] holds. *)
Definition countCalls (p : Call -> bool) (c : Cell) : nat :=
  List.length (filter p (calls c)).

Definition isExecutorCall (k : Call) : bool :=
  match k with CallExecutor => true | _ => false end.

Definition isCorrectionCall (k : Call) : bool :=
  match k with CallCorrection _ => true | _ => false end.

End Effects.

Declare Scope eff_scope.
Delimit Scope eff_scope with eff.
Notation "x <- m ;; k" := (bind m (fun x => k))
  (at level 61, m at next level, right associativity) : eff_scope.
Local Open Scope eff_scope.

(** ** plugin/gates.ts *)

Module Gates.

Section WithHost.
Context `{Host}.

Record GateContext := {
  task : TaskMessage;
  autonomyLevel : jsstring;
  classification : jsstring;
  decision : jsstring
}.

Inductive PreDispatchResult :=
| Allowed                                  (* { allowed: true } *)
| Denied (response : MessageEnvelope).     (* { allowed: false, response } *)

Definition allowed (r : PreDispatchResult) : bool :=
  match r with Allowed => true | Denied _ => false end.

Definition createBlockedFailure (ctx : GateContext) : M MessageEnvelope :=
  uuid <- randomUUID ;;
  now <- nowTimestamp ;;
  ret {|
    msg_type := lit "failure";
    msg_session_id := Some uuid;
    msg_timestamp := now;
    msg_payload :=
      FailurePayload
        (Some (agent_id (task_payload (task ctx))))
        ErrorCode.AUTONOMY_BLOCKED
        (lit "Operation blocked: " ++ classification ctx
         ++ lit " action not permitted in " ++ autonomyLevel ctx ++ lit " mode")
        (Some
           (lit "The operation targeting agent " ++ dquote
            ++ agent_id (task_payload (task ctx)) ++ dquote
            ++ lit " was classified as " ++ dquote ++ classification ctx
            ++ dquote
            ++ lit " and is blocked under the current autonomy level "
            ++ dquote ++ autonomyLevel ctx ++ dquote ++ lit "."))
  |}.

Definition approvalOptions : list EscalationOption := [
  {| label := lit "Approve"; value := lit "approve" |};
  {| label := lit "Reject"; value := lit "reject" |};
  {| label := lit "Approve All (switch to autonomous)";
     value := lit "approve_all" |}
].

Definition approvalContext (ctx : GateContext) : jsstring :=
  lit "**Target Agent**: " ++ agent_id (task_payload (task ctx)) ++ nl
  ++ lit "**Action Type**: " ++ classification ctx ++ nl
  ++ lit "**Autonomy Level**: " ++ autonomyLevel ctx ++ nl
  ++ nl
  ++ lit "**Task Prompt**:" ++ nl
  ++ prompt (task_payload (task ctx)) ++ nl
  ++ nl
  ++ lit "This action requires user approval under the current autonomy settings.".

Definition createApprovalEscalation (ctx : GateContext) : M MessageEnvelope :=
  now <- nowTimestamp ;;
  ret {|
    msg_type := lit "escalation";
    msg_session_id := Some (task_session_id (task ctx));
    msg_timestamp := now;
    msg_payload :=
      EscalationPayload
        (lit "orca")
        (lit "approval-" ++ task_session_id (task ctx))
        (lit "Approve " ++ classification ctx ++ lit " action to "
         ++ agent_id (task_payload (task ctx)) ++ lit "?")
        approvalOptions
        (approvalContext ctx)
  |}.

Definition enforcePreDispatchGate (ctx : GateContext) : M PreDispatchResult :=
  if eqb (decision ctx) (lit "proceed") then
    ret Allowed
  else if eqb (decision ctx) (lit "require_approval") then
    response <- createApprovalEscalation ctx ;;
    ret (Denied response)
  else if eqb (decision ctx) (lit "block") then
    response <- createBlockedFailure ctx ;;
    ret (Denied response)
  else
    response <- createApprovalEscalation ctx ;;
    ret (Denied response).

Definition transformResponse (response : MessageEnvelope)
    (_level _classification : jsstring) : MessageEnvelope :=
  response.

End WithHost.

End Gates.

(** ** plugin/retry.ts *)

Module Retry.

Definition RETRYABLE_ERROR_CODES : list jsstring :=
  [ErrorCode.AGENT_ERROR; ErrorCode.TIMEOUT; ErrorCode.VALIDATION_ERROR].

Definition NON_RETRYABLE_ERROR_CODES : list jsstring :=
  [ErrorCode.UNKNOWN_AGENT; ErrorCode.SESSION_NOT_FOUND;
   ErrorCode.AUTONOMY_BLOCKED; ErrorCode.APPROVAL_REQUIRED].

Record RetryContext := {
  failure : MessageEnvelope;
  autonomyLevel : jsstring;
  attempts : Z;
  maxRetries : Z
}.

Record RetryDecision := {
  shouldRetry : bool;
  reason : jsstring
}.

(** [set.has(code)] where [code] may be [undefined]. *)
Definition hasCode (set : list jsstring) (code : option jsstring) : bool :=
  match code with Some c => has set c | None => false end.

(** A code interpolated into a template literal. *)
Definition showCode (code : option jsstring) : jsstring :=
  match code with Some c => c | None => lit "undefined" end.

Definition shouldAutoRetry (ctx : RetryContext) : RetryDecision :=
  let errorCode := payloadCode (failure ctx) in
  if (attempts ctx >=? maxRetries ctx)%Z then
    {| shouldRetry := false;
       reason := lit "Maximum retry attempts (" ++ ofZ (maxRetries ctx)
                 ++ lit ") exceeded" |}
  else if hasCode NON_RETRYABLE_ERROR_CODES errorCode then
    {| shouldRetry := false;
       reason := lit "Error code " ++ showCode errorCode
                 ++ lit " is not retryable" |}
  else
    let isRetryable := hasCode RETRYABLE_ERROR_CODES errorCode in
    if eqb (autonomyLevel ctx) (lit "supervised") then
      {| shouldRetry := false;
         reason :=
           lit "Supervised mode requires user confirmation for all failures" |}
    else if eqb (autonomyLevel ctx) (lit "assisted") then
      if isRetryable then
        {| shouldRetry := true;
           reason := lit "Auto-retrying " ++ showCode errorCode
                     ++ lit " in assisted mode (attempt "
                     ++ ofZ (attempts ctx + 1) ++ lit "/"
                     ++ ofZ (maxRetries ctx) ++ lit ")" |}
      else
        {| shouldRetry := false;
           reason := lit "Error code " ++ showCode errorCode
                     ++ lit " requires user attention in assisted mode" |}
    else if eqb (autonomyLevel ctx) (lit "autonomous") then
      if isRetryable then
        {| shouldRetry := true;
           reason := lit "Auto-retrying " ++ showCode errorCode
                     ++ lit " in autonomous mode (attempt "
                     ++ ofZ (attempts ctx + 1) ++ lit "/"
                     ++ ofZ (maxRetries ctx) ++ lit ")" |}
      else
        {| shouldRetry := false;
           reason := lit "Error code " ++ showCode errorCode
                     ++ lit " is a permanent failure" |}
    else
      {| shouldRetry := false;
         reason := lit "Unknown autonomy level: " ++ autonomyLevel ctx |}.

Section WithHost.
Context `{Host}.

(** The [while (attempts < maxRetries)] loop.  [fuel] bounds the number of
    iterations; [executeWithRetry] supplies more than the loop can use
    (see [retryLoop_fuel]). *)
Fixpoint retryLoop (fuel : nat) (autonomyLevel : jsstring) (maxRetries : Z)
    (executor : M MessageEnvelope)
    (currentFailure : MessageEnvelope) (attempts : Z) : M MessageEnvelope :=
  match fuel with
  | O => ret currentFailure
  | S fuel' =>
      if (attempts <? maxRetries)%Z then
        let decision :=
          shouldAutoRetry {| failure := currentFailure;
                             autonomyLevel := autonomyLevel;
                             attempts := attempts;
                             maxRetries := maxRetries |} in
        if negb (shouldRetry decision) then
          ret currentFailure
        else
          let attempts := (attempts + 1)%Z in
          result <- executor ;;
          if negb (eqb (msg_type result) (lit "failure")) then
            ret result
          else
            retryLoop fuel' autonomyLevel maxRetries executor result attempts
      else
        ret currentFailure
  end.

Definition executeWithRetry (failure : MessageEnvelope)
    (autonomyLevel : jsstring) (maxRetries : Z)
    (executor : M MessageEnvelope) : M MessageEnvelope :=
  retryLoop (S (Z.to_nat maxRetries)) autonomyLevel maxRetries executor
            failure 0%Z.

End WithHost.

End Retry.

(** ** plugin/validation.ts

    Only the callers of this module (dispatch.ts) and its tests
    (validation.test.ts) are available, not the module itself.  Its
    functions are written from sections 4.1 and 4.2 of the specification. *)

Module Validation.

Inductive ValidationResult :=
| Valid (message : MessageEnvelope)
| Invalid (error : jsstring) (retryable : bool).

Record ValidationConfig := {
  maxRetries : Z;
  wrapPlainText : bool
}.

(** Modelled from the spec: [formatZodErrors] of validation.ts is missing.
    Section 4.1: a stable header, then one line per offending field,
    [field: reason]. *)
Definition formatZodErrors (issues : list (jsstring * jsstring)) : jsstring :=
  lit "Message validation failed"
  ++ List.concat (map (fun issue => nl ++ fst issue ++ lit ": " ++ snd issue) issues).

Section WithHost.
Context `{Host}.

(** Modelled from the spec: [validateMessage] of validation.ts is missing.
    Section 4.1: parse as JSON, failing with [retryable = true] and an error
    noting that the input is not valid JSON; then validate against the
    envelope schema, failing with [retryable = true] and the formatted
    issues. *)
Definition validateMessage (raw : jsstring) : ValidationResult :=
  match JSON_parse raw with
  | None => Invalid (lit "not valid JSON") true
  | Some parsed =>
      match MessageEnvelopeSchema_safeParse parsed with
      | inl message => Valid message
      | inr issues => Invalid (formatZodErrors issues) true
      end
  end.

(** Modelled from the spec: the test of section 4.2, step 3, for an input
    that failed because it was not JSON at all. *)
Definition isPlainText (raw : jsstring) : bool :=
  match JSON_parse raw with None => true | Some _ => false end.

(** Modelled from the spec: [wrapAsResultMessage] of validation.ts is
    missing.  Section 4.1: a result envelope with a freshly generated
    session id, the current timestamp, the agent id and the text. *)
Definition wrapAsResultMessage (text agentId : jsstring) : M MessageEnvelope :=
  uuid <- randomUUID ;;
  now <- nowTimestamp ;;
  ret {| msg_type := lit "result";
         msg_session_id := Some uuid;
         msg_timestamp := now;
         msg_payload := ResultPayload agentId text |}.

(** Modelled from the spec: [createFailureMessage] of validation.ts is
    missing.  Section 4.1: a failure envelope with a freshly generated
    session id and the current timestamp, [cause] omitted when not
    supplied. *)
Definition createFailureMessage (code message : jsstring)
    (cause : option jsstring) : M MessageEnvelope :=
  uuid <- randomUUID ;;
  now <- nowTimestamp ;;
  ret {| msg_type := lit "failure";
         msg_session_id := Some uuid;
         msg_timestamp := now;
         msg_payload := FailurePayload None code message cause |}.

(** Modelled from the spec: the failure of section 4.2, steps 4 and 5: code
    VALIDATION_ERROR, a message summarising the validation error, the agent
    id attached. *)
Definition validationFailure (agentId error : jsstring) : M MessageEnvelope :=
  uuid <- randomUUID ;;
  now <- nowTimestamp ;;
  ret {| msg_type := lit "failure";
         msg_session_id := Some uuid;
         msg_timestamp := now;
         msg_payload :=
           FailurePayload (Some agentId) ErrorCode.VALIDATION_ERROR
                          (validationFailureText error) None |}.

(** Modelled from the spec: the loop of section 4.2, step 5.  Up to
    [remaining] times: ask the sender for a corrected response, validate it
    again, stop at the first success. *)
Fixpoint correctionLoop (correctionSender : jsstring -> M jsstring)
    (agentId : jsstring) (remaining : nat) (error : jsstring)
    : M MessageEnvelope :=
  match remaining with
  | O => validationFailure agentId error
  | S remaining' =>
      corrected <- correctionSender (correctionPromptFor error) ;;
      match validateMessage corrected with
      | Valid message => ret message
      | Invalid error' _ =>
          correctionLoop correctionSender agentId remaining' error'
      end
  end.

(** Modelled from the spec: [validateWithRetry] of validation.ts is missing.
    Section 4.2, steps 1 to 5. *)
Definition validateWithRetry (raw agentId : jsstring)
    (config : ValidationConfig)
    (correctionSender : option (jsstring -> M jsstring)) : M MessageEnvelope :=
  match validateMessage raw with
  | Valid message => ret message
  | Invalid error _ =>
      if wrapPlainText config && isPlainText raw then
        wrapAsResultMessage raw agentId
      else
        match correctionSender with
        | None => validationFailure agentId error
        | Some sender =>
            if (maxRetries config <=? 0)%Z then
              validationFailure agentId error
            else
              correctionLoop sender agentId (Z.to_nat (maxRetries config))
                             error
        end
  end.

End WithHost.

End Validation.

(** ** plugin/dispatch.ts *)

Module Dispatch.

Import Autonomy Gates Validation.

(** Own properties of [Object.prototype]: an object literal used as a
    registry answers a lookup of these names with an inherited value. *)
Definition objectPrototypeKeys : list jsstring := [
  lit "constructor"; lit "hasOwnProperty"; lit "isPrototypeOf";
  lit "propertyIsEnumerable"; lit "toLocaleString"; lit "toString";
  lit "valueOf"; lit "__proto__"; lit "__defineGetter__";
  lit "__defineSetter__"; lit "__lookupGetter__"; lit "__lookupSetter__"
].

(** A response part of the SDK; [part_text] is [None] when the part has no
    [text] property. *)
Record Part := {
  part_type : jsstring;
  part_text : option jsstring
}.

Definition isTextPart (part : Part) : bool :=
  eqb (part_type part) (lit "text")
  && match part_text part with Some _ => true | None => false end.

Definition extractTextFromParts (parts : list Part) : jsstring :=
  join nl
    (map (fun part => match part_text part with Some t => t | None => [] end)
       (filter isTextPart parts)).

(** A string used as a condition: [undefined] and the empty string are
    falsy. *)
Definition truthy (s : option jsstring) : option jsstring :=
  match s with
  | Some (c :: rest) => Some (c :: rest)
  | _ => None
  end.

(** [err instanceof Error ? err.message : String(err)]: the text, or the
    exception of the conversion. *)
Definition errorText (err : Thrown) : Outcome jsstring :=
  match err with
  | ErrorObject message => Returned message
  | ThrownValue asString => Returned asString
  | Unconvertible raised => Threw raised
  end.

Section WithHost.
Context `{Host}.
Variable AgentConfig : Type.

(** The two methods of the SDK client the code calls.  [session_create]
    yields [createResult.data?.id], [session_prompt] yields
    [promptResult.data?.parts]; either may throw. *)
Record OpencodeClient := {
  session_create : External (option jsstring);
  session_prompt :
    jsstring -> jsstring -> jsstring -> External (option (list Part))
}.

Record DispatchContext := {
  client : OpencodeClient;
  agents : Registry AgentConfig;
  validationConfig : ValidationConfig;
  autonomyConfig : option AutonomyConfig;
  (** [abort?.aborted], a flag of the outside world *)
  abort : option (World -> bool)
}.

Definition parseTaskMessage (messageJson : jsstring) : option TaskMessage :=
  match JSON_parse messageJson with
  | Some parsed => TaskMessageSchema_safeParse parsed
  | None => None
  end.

(** [ctx.agents[id]] as a condition. *)
Definition registryHas (agents : Registry AgentConfig) (id : jsstring) : bool :=
  existsb (fun entry => eqb (fst entry) id) agents
  || has objectPrototypeKeys id.

(** [session.prompt] on a session, then the text of the returned parts. *)
Definition promptSession (ctx : DispatchContext)
    (sessionId agent text : jsstring) : M jsstring :=
  result <- invoke (CallSessionPrompt sessionId agent text)
                   (session_prompt (client ctx) sessionId agent text) ;;
  ret (extractTextFromParts (match result with Some ps => ps | None => [] end)).

(** [executeDispatch] once the session id is known. *)
Definition dispatchInSession (task : TaskMessage) (ctx : DispatchContext)
    (sessionId : jsstring) : M MessageEnvelope :=
  let targetAgentId := agent_id (task_payload task) in
  responseText <- promptSession ctx sessionId targetAgentId
                                (prompt (task_payload task)) ;;
  match responseText with
  | [] =>
      createFailureMessage ErrorCode.AGENT_ERROR
        (lit "Agent returned empty response")
        (Some (lit "Agent " ++ targetAgentId ++ lit " produced no text output"))
  | _ =>
      validateWithRetry responseText targetAgentId (validationConfig ctx)
        (Some (fun correctionPrompt =>
                 promptSession ctx sessionId targetAgentId correctionPrompt))
  end.

Definition executeDispatch (task : TaskMessage) (ctx : DispatchContext)
    : M MessageEnvelope :=
  match truthy (parent_session_id (task_payload task)) with
  | Some sessionId => dispatchInSession task ctx sessionId
  | None =>
      createResult <- invoke CallSessionCreate (session_create (client ctx)) ;;
      match truthy createResult with
      | None =>
          createFailureMessage ErrorCode.SESSION_NOT_FOUND
            (lit "Failed to create session")
            (Some (lit "Session creation returned no ID"))
      | Some sessionId => dispatchInSession task ctx sessionId
      end
  end.

(** The body of the [try] block of [dispatchToAgent]. *)
Definition executionPhase (task : TaskMessage) (ctx : DispatchContext)
    (autonomyConfig : AutonomyConfig) (classification : jsstring)
    : M jsstring :=
  result <- executeDispatch task ctx ;;
  result <-
    (if eqb (msg_type result) (lit "failure") then
       Retry.executeWithRetry result (level autonomyConfig)
         (Autonomy.maxRetries autonomyConfig) (executeDispatch task ctx)
     else ret result) ;;
  ret (JSON_stringify
         (transformResponse result (level autonomyConfig) classification)).

(** The [catch] block of [dispatchToAgent].  The arguments of
    [createFailureMessage] are evaluated before the call, and nothing
    guards the conversion of [err]: when it throws, the exception leaves
    [dispatchToAgent]. *)
Definition executionFailed (ctx : DispatchContext) (err : Thrown)
    : M jsstring :=
  aborted <- observe (fun w => match abort ctx with
                               | Some signal => signal w
                               | None => false
                               end) ;;
  if aborted then
    failure <- createFailureMessage ErrorCode.TIMEOUT
                 (lit "Request timed out or was cancelled") None ;;
    ret (JSON_stringify failure)
  else
    match errorText err with
    | Returned cause =>
        failure <- createFailureMessage ErrorCode.AGENT_ERROR
                     (lit "Agent execution failed") (Some cause) ;;
        ret (JSON_stringify failure)
    | Threw raised => throw raised
    end.

Definition dispatchToAgent (messageJson : jsstring) (ctx : DispatchContext)
    : M jsstring :=
  let autonomyConfig :=
    match autonomyConfig ctx with
    | Some config => config
    | None => DEFAULT_AUTONOMY_CONFIG
    end in
  match parseTaskMessage messageJson with
  | None =>
      failure <- createFailureMessage ErrorCode.VALIDATION_ERROR
                   (lit "Invalid task message format")
                   (Some (lit "Message must be a valid TaskMessage JSON envelope")) ;;
      ret (JSON_stringify failure)
  | Some task =>
      let targetAgentId := agent_id (task_payload task) in
      if negb (registryHas (agents ctx) targetAgentId) then
        failure <- createFailureMessage ErrorCode.UNKNOWN_AGENT
                     (lit "Unknown agent: " ++ targetAgentId)
                     (Some (lit "Available agents: "
                            ++ join (lit ", ") (map fst (agents ctx)))) ;;
        ret (JSON_stringify failure)
      else
        let classification := classifyAction task (agents ctx) in
        let decision := determineGate (level autonomyConfig) classification in
        gateResult <- enforcePreDispatchGate
                        {| task := task;
                           autonomyLevel := level autonomyConfig;
                           classification := classification;
                           decision := decision |} ;;
        match gateResult with
        | Denied response => ret (JSON_stringify response)
        | Allowed =>
            tryCatch (executionPhase task ctx autonomyConfig classification)
                     (executionFailed ctx)
        end
  end.

End WithHost.

End Dispatch.

(** ** Test doubles

    The helpers of the repository's tests (retry.test.ts, gates.test.ts,
    dispatch.test.ts): fixed envelopes, scripted executors and a mock
    client, over a small concrete world. *)

Module Fixtures.

Record TestWorld := {
  callCount : nat;        (* the [callCount] variable of the scripted mocks *)
  uuidCounter : nat;
  abortedFlag : bool
}.

Definition freshWorld : TestWorld :=
  {| callCount := 0; uuidCounter := 0; abortedFlag := false |}.

Definition testSessionId : jsstring :=
  lit "550e8400-e29b-41d4-a716-446655440000".
Definition testTimestamp : jsstring := lit "2024-01-01T00:00:00.000Z".

(** retry.test.ts, [createFailure] *)
Definition createFailure (code message : jsstring) : MessageEnvelope :=
  {| msg_type := lit "failure";
     msg_session_id := Some testSessionId;
     msg_timestamp := testTimestamp;
     msg_payload := FailurePayload None code message None |}.

(** retry.test.ts, [createResult] *)
Definition createResult (content : jsstring) : MessageEnvelope :=
  {| msg_type := lit "result";
     msg_session_id := Some testSessionId;
     msg_timestamp := testTimestamp;
     msg_payload := ResultPayload (lit "coder") content |}.

(** gates.test.ts, [createTaskMessage] *)
Definition createTaskMessage (agentId prompt : jsstring) : TaskMessage :=
  {| task_session_id := testSessionId;
     task_timestamp := testTimestamp;
     task_payload := {| agent_id := agentId; prompt := prompt;
                        context := None; parent_session_id := None |} |}.

(** A stand-in for the runtime: three documents parse as JSON, one of them
    is a valid task and one a valid result envelope. *)
Definition testHost : Host := {|
  World := TestWorld;
  host_randomUUID := fun w =>
    (lit "uuid-" ++ ofZ (Z.of_nat (uuidCounter w)),
     {| callCount := callCount w; uuidCounter := S (uuidCounter w);
        abortedFlag := abortedFlag w |});
  host_now := fun _ => testTimestamp;
  JSON_stringify := fun m =>
    lit "{type:" ++ msg_type m ++ lit ",code:"
    ++ match payloadCode m with Some c => c | None => lit "-" end ++ lit "}";
  JSON_parse := fun raw =>
    if Js.eqb raw (lit "{task}") then Some (JStr (lit "task"))
    else if Js.eqb raw (lit "{result}") then Some (JStr (lit "result"))
    else if Js.eqb raw (lit "{}") then Some (JObj [])
    else None;
  TaskMessageSchema_safeParse := fun parsed =>
    match parsed with
    | JStr s =>
        if Js.eqb s (lit "task")
        then Some (createTaskMessage (lit "coder") (lit "Write a function"))
        else None
    | _ => None
    end;
  MessageEnvelopeSchema_safeParse := fun parsed =>
    match parsed with
    | JStr s =>
        if Js.eqb s (lit "result") then inl (createResult (lit "Done"))
        else inr [(lit "type", lit "Invalid input")]
    | _ => inr [(lit "type", lit "Required")]
    end;
  correctionPromptFor := fun error => lit "Correct your response: " ++ error;
  validationFailureText := fun error => error
|}.

Definition freshCell : Cell (H := testHost) :=
  Build_Cell (H := testHost) freshWorld [].

(** retry.test.ts: an executor that fails with AGENT_ERROR until its call
    number [successAt], and succeeds from then on. *)
Definition scriptedExecutor (successAt : nat)
    : External (H := testHost) MessageEnvelope :=
  fun w =>
    let callCount := S (callCount w) in
    (Returned
       (if Nat.ltb callCount successAt
        then createFailure ErrorCode.AGENT_ERROR (lit "Attempt failed")
        else createResult (lit "Final success")),
     {| callCount := callCount; uuidCounter := uuidCounter w;
        abortedFlag := abortedFlag w |}).

(** validation.test.ts: a sender that keeps returning invalid JSON. *)
Definition stillInvalidSender (_correction : jsstring)
    : External (H := testHost) jsstring :=
  fun w =>
    (Returned (lit "{ still invalid"),
     {| callCount := S (callCount w); uuidCounter := uuidCounter w;
        abortedFlag := abortedFlag w |}).

(** dispatch.test.ts, [createMockClient] with [promptError]. *)
Definition crashingClient : Dispatch.OpencodeClient (H := testHost) :=
  {| Dispatch.session_create := fun w => (Returned (Some (lit "test-session-id")), w);
     Dispatch.session_prompt := fun _ _ _ w =>
       (Threw (ErrorObject (lit "Agent crashed")), w) |}.

Definition testAgents : Autonomy.Registry unit :=
  [(lit "coder", tt); (lit "researcher", tt)].

Definition crashingContext : Dispatch.DispatchContext (H := testHost) unit :=
  {| Dispatch.client := crashingClient;
     Dispatch.agents := testAgents;
     Dispatch.validationConfig :=
       {| Validation.maxRetries := 2; Validation.wrapPlainText := false |};
     Dispatch.autonomyConfig :=
       Some {| Autonomy.level := lit "autonomous"; Autonomy.maxRetries := 2 |};
     Dispatch.abort := Some abortedFlag |}.

End Fixtures.

(* ================================================================== *)
(** * Part II.  Properties *)
(* ================================================================== *)

Unset Implicit Arguments.

(** ** Strings *)

Lemma eqb_eq (a b : jsstring) : Js.eqb a b = true <-> a = b.
Proof.
  revert b; induction a as [|x a IH]; intros [|y b]; simpl;
    try (split; [discriminate | discriminate]); try tauto.
  rewrite andb_true_iff, N.eqb_eq, IH.
  split; [intros [-> ->]; reflexivity | intros E; injection E; auto].
Qed.

Lemma eqb_refl (a : jsstring) : Js.eqb a a = true.
Proof. apply eqb_eq; reflexivity. Qed.

Lemma eqb_neq (a b : jsstring) : Js.eqb a b = false <-> a <> b.
Proof.
  rewrite <- eqb_eq. destruct (Js.eqb a b); split; congruence.
Qed.

Lemma has_In (set : list jsstring) (x : jsstring) :
  has set x = true <-> In x set.
Proof.
  unfold has. rewrite existsb_exists. split.
  - intros (y & Hy & E). apply eqb_eq in E. subst; assumption.
  - intros Hx. exists x. split; [assumption | apply eqb_refl].
Qed.

Lemma includes_here (before needle after : jsstring) :
  includes (before ++ needle ++ after) needle.
Proof. exists before, after; reflexivity. Qed.

Lemma includes_later (before haystack needle : jsstring) :
  includes haystack needle -> includes (before ++ haystack) needle.
Proof.
  intros (b & a & ->). exists (before ++ b), a. now rewrite app_assoc.
Qed.

Create HintDb includes_db.
#[local] Hint Resolve includes_here includes_later : includes_db.

(** ** Gate policy *)

Module AutonomyFacts.
Import Autonomy.

(** The order of the autonomy levels, supervised < assisted < autonomous;
    a level outside the three has no rank. *)
Definition levelRank (level : jsstring) : option nat :=
  if Js.eqb level (lit "supervised") then Some 0%nat
  else if Js.eqb level (lit "assisted") then Some 1%nat
  else if Js.eqb level (lit "autonomous") then Some 2%nat
  else None.

(** The order of the gate decisions, block < require_approval < proceed. *)
Definition decisionRank (decision : jsstring) : option nat :=
  if Js.eqb decision (lit "block") then Some 0%nat
  else if Js.eqb decision (lit "require_approval") then Some 1%nat
  else if Js.eqb decision (lit "proceed") then Some 2%nat
  else None.

Definition rankLe (a b : option nat) : Prop :=
  match a, b with
  | Some x, Some y => (x <= y)%nat
  | _, _ => False
  end.

Ltac case_eqb s t :=
  let E := fresh "E" in
  destruct (Js.eqb s t) eqn:E;
  [apply eqb_eq in E; try subst s | apply eqb_neq in E].

(** C1.  determineGate agrees with the decision table on every recognized
    level and classification, and answers require_approval for every
    classification when the level is not one of the three. *)
Theorem determineGate_table :
  determineGate (lit "supervised") (lit "routine") = lit "require_approval"
  /\ determineGate (lit "supervised") (lit "significant") = lit "require_approval"
  /\ determineGate (lit "supervised") (lit "dangerous") = lit "block"
  /\ determineGate (lit "assisted") (lit "routine") = lit "proceed"
  /\ determineGate (lit "assisted") (lit "significant") = lit "require_approval"
  /\ determineGate (lit "assisted") (lit "dangerous") = lit "block"
  /\ determineGate (lit "autonomous") (lit "routine") = lit "proceed"
  /\ determineGate (lit "autonomous") (lit "significant") = lit "proceed"
  /\ determineGate (lit "autonomous") (lit "dangerous") = lit "require_approval"
  /\ (forall level classification,
        level <> lit "supervised" ->
        level <> lit "assisted" ->
        level <> lit "autonomous" ->
        determineGate level classification = lit "require_approval").
Proof.
  repeat (split; [reflexivity |]).
  intros level classification Hs Ha Hn.
  unfold determineGate.
  apply eqb_neq in Hs, Ha, Hn.
  now rewrite Hs, Ha, Hn.
Qed.

Lemma determineGate_table_witness :
  determineGate (lit "manual") (lit "dangerous") = lit "require_approval".
Proof.
  apply determineGate_table; discriminate.
Defined.

(** C8.  For a fixed classification the decision never decreases when the
    level increases, and a dangerous action never proceeds, whatever the
    level. *)
Theorem determineGate_monotone :
  (forall level1 level2 classification,
      rankLe (levelRank level1) (levelRank level2) ->
      rankLe (decisionRank (determineGate level1 classification))
             (decisionRank (determineGate level2 classification)))
  /\ (forall level,
        determineGate level (lit "dangerous") <> lit "proceed").
Proof.
  split.
  - intros level1 level2 classification.
    unfold levelRank, determineGate.
    case_eqb level1 (lit "supervised");
      [| case_eqb level1 (lit "assisted");
         [| case_eqb level1 (lit "autonomous"); [| intros []]]];
    (case_eqb level2 (lit "supervised");
      [| case_eqb level2 (lit "assisted");
         [| case_eqb level2 (lit "autonomous");
            [| simpl; intros []]]]);
    cbn [rankLe]; intros Hle; try lia;
    destruct (Js.eqb classification (lit "dangerous"));
    try destruct (Js.eqb classification (lit "significant"));
    vm_compute; lia.
  - intros level. unfold determineGate.
    rewrite (eqb_refl (lit "dangerous")).
    destruct (Js.eqb level (lit "supervised")); [discriminate |].
    destruct (Js.eqb level (lit "assisted")); [discriminate |].
    destruct (Js.eqb level (lit "autonomous")); discriminate.
Qed.

Lemma determineGate_monotone_witness :
  rankLe (decisionRank (determineGate (lit "supervised") (lit "routine")))
         (decisionRank (determineGate (lit "autonomous") (lit "routine"))).
Proof.
  apply (proj1 determineGate_monotone (lit "supervised") (lit "autonomous")).
  simpl. lia.
Defined.

(** *** Case-insensitive matching *)

Import RegExp.

(** Two strings that differ only in the case of ASCII letters. *)
Definition sameUpToCase (s s' : jsstring) : Prop :=
  map canonicalize s = map canonicalize s'.

Ltac split_cmp :=
  repeat match goal with
         | |- context [N.leb ?a ?b] => destruct (N.leb_spec a b)
         | |- context [N.eqb ?a ?b] => destruct (N.eqb_spec a b)
         end.

Lemma canonicalize_cases (c c' : N) :
  canonicalize c = canonicalize c' ->
  c = c' \/ (97 <= c <= 122 /\ c' + 32 = c) \/ (97 <= c' <= 122 /\ c + 32 = c').
Proof.
  unfold canonicalize. split_cmp; simpl; lia.
Qed.

(** Settle every comparison of the goal whose outcome the context fixes. *)
Ltac decide_cmp :=
  repeat match goal with
         | |- context [N.leb ?a ?b] =>
             first [ replace (N.leb a b) with true
                       by (symmetry; apply N.leb_le; lia)
                   | replace (N.leb a b) with false
                       by (symmetry; apply N.leb_gt; lia) ]
         | |- context [N.eqb ?a ?b] =>
             replace (N.eqb a b) with false
               by (symmetry; apply N.eqb_neq; lia)
         end.

Lemma letter_isWordChar (c : N) :
  65 <= c <= 90 \/ 97 <= c <= 122 -> isWordChar c = true.
Proof.
  intros [Hc | Hc]; unfold isWordChar; decide_cmp; reflexivity.
Qed.

Lemma letter_not_isWhiteSpace (c : N) :
  65 <= c <= 122 -> isWhiteSpace c = false.
Proof.
  intros Hc; unfold isWhiteSpace; decide_cmp; reflexivity.
Qed.

Lemma isWordChar_canon (c c' : N) :
  canonicalize c = canonicalize c' -> isWordChar c = isWordChar c'.
Proof.
  intros E. destruct (canonicalize_cases _ _ E) as [-> | [[Hc E'] | [Hc E']]];
    [reflexivity | |]; rewrite !letter_isWordChar; auto; lia.
Qed.

Lemma isWhiteSpace_canon (c c' : N) :
  canonicalize c = canonicalize c' -> isWhiteSpace c = isWhiteSpace c'.
Proof.
  intros E. destruct (canonicalize_cases _ _ E) as [-> | [[Hc E'] | [Hc E']]];
    [reflexivity | |]; rewrite !letter_not_isWhiteSpace; auto; lia.
Qed.

Lemma wordAfter_canon (s s' : jsstring) :
  sameUpToCase s s' -> wordAfter s = wordAfter s'.
Proof.
  unfold sameUpToCase.
  destruct s, s'; simpl; try discriminate; [reflexivity |].
  intros E; injection E as E _. now apply isWordChar_canon.
Qed.

Lemma wordBefore_canon (prev prev' : option N) :
  option_map canonicalize prev = option_map canonicalize prev' ->
  wordBefore prev = wordBefore prev'.
Proof.
  destruct prev, prev'; simpl; try discriminate; [| reflexivity].
  intros E; injection E as E. now apply isWordChar_canon.
Qed.

Lemma matchHere_canon (re : RegExp.t) :
  forall prev prev' s s',
    option_map canonicalize prev = option_map canonicalize prev' ->
    sameUpToCase s s' ->
    matchHere re prev s = matchHere re prev' s'.
Proof.
  induction re as [|[p | |] re IH]; intros prev prev' s s' Hp Hs.
  - reflexivity.
  - destruct s as [|c s], s' as [|c' s']; try discriminate Hs;
      [reflexivity |].
    injection Hs as Hc Hs. simpl.
    unfold charMatches. rewrite Hc.
    f_equal. apply IH; [simpl; now rewrite Hc | exact Hs].
  - simpl. rewrite (wordBefore_canon _ _ Hp), (wordAfter_canon _ _ Hs).
    f_equal. now apply IH.
  - simpl. clear Hp. revert s' Hs.
    induction s as [|c s IHs]; intros [|c' s'] Hs; try discriminate Hs;
      [reflexivity |].
    injection Hs as Hc Hs.
    rewrite (isWhiteSpace_canon _ _ Hc). f_equal. f_equal.
    + now apply IHs.
    + apply IH; [simpl; now rewrite Hc | exact Hs].
Qed.

Lemma search_canon (re : RegExp.t) :
  forall s s' prev prev',
    option_map canonicalize prev = option_map canonicalize prev' ->
    sameUpToCase s s' ->
    search re prev s = search re prev' s'.
Proof.
  induction s as [|c s IH]; intros [|c' s'] prev prev' Hp Hs;
    try discriminate Hs; simpl.
  - f_equal. now apply matchHere_canon.
  - injection Hs as Hc Hs. f_equal.
    + apply matchHere_canon; [exact Hp |].
      unfold sameUpToCase; simpl; now rewrite Hc, Hs.
    + apply IH; [simpl; now rewrite Hc | exact Hs].
Qed.

Lemma anyPatternMatches_canon (patterns : list RegExp.t) (s s' : jsstring) :
  sameUpToCase s s' ->
  anyPatternMatches patterns s = anyPatternMatches patterns s'.
Proof.
  intros Hs. unfold anyPatternMatches, test.
  induction patterns as [|re patterns IH]; simpl; [reflexivity |].
  rewrite IH. f_equal. now apply search_canon.
Qed.

(** *** A match anywhere in the prompt is found *)

(** The code unit before the position that follows [before]. *)
Fixpoint lastCode (prev : option N) (before : jsstring) : option N :=
  match before with
  | [] => prev
  | c :: rest => lastCode (Some c) rest
  end.

Lemma search_found (re : RegExp.t) (before s : jsstring) :
  forall prev,
    matchHere re (lastCode prev before) s = true ->
    search re prev (before ++ s) = true.
Proof.
  induction before as [|c before IH]; intros prev Hm; simpl in *.
  - destruct s; simpl; rewrite Hm; reflexivity.
  - rewrite (IH _ Hm). apply orb_true_r.
Qed.

Lemma anyPatternMatches_found (patterns : list RegExp.t) (re : RegExp.t)
    (before s : jsstring) :
  In re patterns ->
  matchHere re (lastCode None before) s = true ->
  anyPatternMatches patterns (before ++ s) = true.
Proof.
  intros Hin Hm. unfold anyPatternMatches. apply existsb_exists.
  exists re. split; [exact Hin |]. now apply search_found.
Qed.

Lemma lastCode_app (prev : option N) (a b : jsstring) :
  lastCode prev (a ++ b) = lastCode (lastCode prev a) b.
Proof. revert prev; induction a; intros; simpl; auto. Qed.

Section Classify.
Variable AgentConfig : Type.
Implicit Types (task : TaskMessage) (agents : Registry AgentConfig).

(** C10.  The classification does not depend on the agent registry: it is a
    function of the target agent id and of the prompt alone. *)
Theorem classifyAction_ignores_registry :
  (forall task (R1 R2 : Registry AgentConfig),
      classifyAction task R1 = classifyAction task R2)
  /\ (forall task task' (R1 R2 : Registry AgentConfig),
        agent_id (task_payload task) = agent_id (task_payload task') ->
        prompt (task_payload task) = prompt (task_payload task') ->
        classifyAction task R1 = classifyAction task' R2).
Proof.
  split.
  - reflexivity.
  - intros task task' R1 R2 Hid Hp. unfold classifyAction.
    now rewrite Hid, Hp.
Qed.

End Classify.

(** The cases of the repository's tests of classifyAction
    (target agent, prompt, expected classification). *)
Example classifyAction_tests :
  forallb
    (fun '(agent, text, expected) =>
       Js.eqb (classifyAction
                 (Fixtures.createTaskMessage (lit agent) (lit text))
                 Fixtures.testAgents)
              (lit expected))
    [ ("researcher", "Find information about X", "routine");
      ("reviewer", "Review this code", "routine");
      ("coder", "Do something", "significant");
      ("tester", "Run tests", "significant");
      ("document-writer", "Write docs", "significant");
      ("strategist", "Plan something", "significant");
      ("custom-agent", "Do something generic", "routine");
      ("researcher", "Delete all the old files", "dangerous");
      ("coder", "Drop the database table", "dangerous");
      ("coder", "Remove all test data", "dangerous");
      ("coder", "Truncate the logs table", "dangerous");
      ("coder", "Wipe the cache", "dangerous");
      ("coder", "Destroy the old resources", "dangerous");
      ("coder", "Run rm -rf on temp folder", "dangerous");
      ("coder", "Force push to main branch", "dangerous");
      ("coder", "Run git push --force", "dangerous");
      ("coder", "Do git reset --hard HEAD~5", "dangerous");
      ("researcher", "Modify the configuration", "significant");
      ("reviewer", "Update the documentation", "significant");
      ("researcher", "Create a new file", "significant");
      ("reviewer", "Implement the feature", "significant");
      ("researcher", "Refactor the module", "significant");
      ("researcher", "Deploy to production", "significant");
      ("researcher", "Install new dependencies", "significant");
      ("researcher", "Run database migrations", "significant");
      ("researcher", "Delete all files", "dangerous");
      ("coder", "Delete and update the files", "dangerous") ]%string
  = true.
Proof. vm_compute. reflexivity. Qed.

Lemma classifyAction_ignores_registry_witness :
  classifyAction
    (Fixtures.createTaskMessage (lit "coder") (lit "Do something"))
    Fixtures.testAgents
  = classifyAction
      (Fixtures.createTaskMessage (lit "coder") (lit "Do something"))
      (@nil (jsstring * unit)).
Proof.
  apply (proj2 (classifyAction_ignores_registry unit)); reflexivity.
Defined.

End AutonomyFacts.

(** ** Effects *)

Section EffectFacts.
Context `{Host}.

Lemma bind_returned {A B} (m : M A) (k : A -> M B) (c c' : Cell) (a : A) :
  m c = (Returned a, c') -> bind m k c = k a c'.
Proof. unfold bind. now intros ->. Qed.

Lemma bind_threw {A B} (m : M A) (k : A -> M B) (c c' : Cell) (e : Thrown) :
  m c = (Threw e, c') -> bind m k c = (Threw e, c').
Proof. unfold bind. now intros ->. Qed.

Lemma countCalls_app (p : Call -> bool) (w w' : World) (log more : list Call) :
  countCalls p {| world := w'; calls := log ++ more |}
  = (countCalls p {| world := w; calls := log |} + List.length (filter p more))%nat.
Proof.
  unfold countCalls; simpl. now rewrite filter_app, length_app.
Qed.

End EffectFacts.

(** ** Pre-dispatch gate *)

Module GateFacts.
Import Gates.

Section WithHost.
Context `{Host}.

Lemma createApprovalEscalation_run (ctx : GateContext) (c : Cell) :
  createApprovalEscalation ctx c
  = (Returned
       {| msg_type := lit "escalation";
          msg_session_id := Some (task_session_id (task ctx));
          msg_timestamp := host_now (world c);
          msg_payload :=
            EscalationPayload
              (lit "orca")
              (lit "approval-" ++ task_session_id (task ctx))
              (lit "Approve " ++ classification ctx ++ lit " action to "
               ++ agent_id (task_payload (task ctx)) ++ lit "?")
              approvalOptions
              (approvalContext ctx) |}, c).
Proof. reflexivity. Qed.

Lemma approvalContext_embeds (ctx : GateContext) :
  includes (approvalContext ctx) (agent_id (task_payload (task ctx)))
  /\ includes (approvalContext ctx) (classification ctx)
  /\ includes (approvalContext ctx) (autonomyLevel ctx)
  /\ includes (approvalContext ctx) (prompt (task_payload (task ctx))).
Proof.
  unfold approvalContext.
  repeat split;
    repeat first [ apply includes_here | apply includes_later ].
Qed.

(** The gate always returns: it allows the dispatch when the decision is
    proceed, and otherwise denies it with a response that has a
    [session_id]. *)
Lemma enforcePreDispatchGate_run (ctx : GateContext) (c : Cell) :
  (decision ctx = lit "proceed"
   /\ enforcePreDispatchGate ctx c = (Returned Allowed, c))
  \/ (decision ctx <> lit "proceed"
      /\ exists response c',
           enforcePreDispatchGate ctx c = (Returned (Denied response), c')
           /\ msg_session_id response <> None
           /\ envelopeKeys response
              = [lit "type"; lit "session_id"; lit "timestamp"; lit "payload"]).
Proof.
  unfold enforcePreDispatchGate.
  destruct (Js.eqb (decision ctx) (lit "proceed")) eqn:Hp;
    [left; split; [now apply eqb_eq in Hp | reflexivity] |].
  right. split; [now apply eqb_neq in Hp |].
  destruct (Js.eqb (decision ctx) (lit "require_approval"));
    [| destruct (Js.eqb (decision ctx) (lit "block"))];
    cbv [bind createApprovalEscalation createBlockedFailure
           randomUUID nowTimestamp ret];
    try destruct (host_randomUUID (world c));
    eexists _, _; (split; [reflexivity | split; [discriminate | reflexivity]]).
Qed.

(** C7.  When the decision is neither proceed nor block (require_approval,
    or a value outside the three) the gate denies the dispatch with an
    escalation: decision id "approval-" followed by the task's session id,
    the options Approve, Reject, Approve All in this order, and a context
    that embeds target agent, classification, autonomy level and prompt.
    The gate allows a dispatch only when the decision is proceed. *)
Theorem enforcePreDispatchGate_escalates :
  (forall (ctx : GateContext) (c : Cell),
      decision ctx <> lit "proceed" ->
      decision ctx <> lit "block" ->
      exists response agent decisionText context,
        enforcePreDispatchGate ctx c = (Returned (Denied response), c)
        /\ msg_type response = lit "escalation"
        /\ msg_payload response
           = EscalationPayload agent
               (lit "approval-" ++ task_session_id (task ctx))
               decisionText
               [ {| label := lit "Approve"; value := lit "approve" |};
                 {| label := lit "Reject"; value := lit "reject" |};
                 {| label := lit "Approve All (switch to autonomous)";
                    value := lit "approve_all" |} ]
               context
        /\ includes context (agent_id (task_payload (task ctx)))
        /\ includes context (classification ctx)
        /\ includes context (autonomyLevel ctx)
        /\ includes context (prompt (task_payload (task ctx))))
  /\ (forall (ctx : GateContext) (c c' : Cell) (result : PreDispatchResult),
        enforcePreDispatchGate ctx c = (Returned result, c') ->
        allowed result = true ->
        decision ctx = lit "proceed").
Proof.
  split.
  - intros ctx c Hp Hb.
    apply eqb_neq in Hp, Hb.
    destruct (approvalContext_embeds ctx) as (Ha & Hc & Hl & Ht).
    eexists _, _, _, _.
    split.
    + unfold enforcePreDispatchGate. rewrite Hp, Hb.
      destruct (Js.eqb (decision ctx) (lit "require_approval"));
        unfold bind; rewrite createApprovalEscalation_run; reflexivity.
    + simpl. repeat split; assumption.
  - intros ctx c c' result Hrun Hallowed.
    unfold enforcePreDispatchGate in Hrun.
    destruct (Js.eqb (decision ctx) (lit "proceed")) eqn:Hp;
      [now apply eqb_eq in Hp |].
    destruct (Js.eqb (decision ctx) (lit "require_approval"));
      [| destruct (Js.eqb (decision ctx) (lit "block"))];
      cbv [bind createApprovalEscalation createBlockedFailure
             randomUUID nowTimestamp ret] in Hrun;
      try destruct (host_randomUUID (world c));
      injection Hrun as <- _; discriminate Hallowed.
Qed.

(** C6, as the code has it.  Every response the gate builds has the keys
    [type], [session_id], [timestamp] and [payload], in this order.  The
    failure built for the decision block carries the fresh UUID the gate
    draws; the escalation built for every other decision but proceed
    carries the session id of the task.  With this key the responses fit
    the strict object of [BaseEnvelopeSchema], not the one of
    [ResponseEnvelopeSchema]. *)
Theorem gate_responses_carry_session_id (ctx : GateContext) (c : Cell) :
  match enforcePreDispatchGate ctx c with
  | (Returned (Denied response), _) =>
      envelopeKeys response
      = [lit "type"; lit "session_id"; lit "timestamp"; lit "payload"]
      /\ msg_type response
         = (if Js.eqb (decision ctx) (lit "block")
            then lit "failure" else lit "escalation")
      /\ msg_session_id response
         = Some (if Js.eqb (decision ctx) (lit "block")
                 then fst (host_randomUUID (world c))
                 else task_session_id (task ctx))
      /\ strictKeysOk ResponseEnvelopeSchema response = false
      /\ strictKeysOk BaseEnvelopeSchema response = true
  | (Returned Allowed, _) => decision ctx = lit "proceed"
  | (Threw _, _) => False
  end.
Proof.
  unfold enforcePreDispatchGate.
  destruct (Js.eqb (decision ctx) (lit "proceed")) eqn:Hp;
    [now apply eqb_eq in Hp |].
  destruct (Js.eqb (decision ctx) (lit "require_approval")) eqn:Ha.
  - apply eqb_eq in Ha. rewrite Ha. unfold bind.
    rewrite createApprovalEscalation_run. repeat split.
  - destruct (Js.eqb (decision ctx) (lit "block")) eqn:Hb.
    + cbv [bind createBlockedFailure randomUUID nowTimestamp ret].
      destruct (host_randomUUID (world c)). repeat split.
    + unfold bind. rewrite createApprovalEscalation_run. repeat split.
Qed.

End WithHost.

Lemma enforcePreDispatchGate_escalates_witness :
  exists response,
    enforcePreDispatchGate (H := Fixtures.testHost)
      {| task := Fixtures.createTaskMessage (lit "coder") (lit "Write some code");
         autonomyLevel := lit "supervised";
         classification := lit "significant";
         decision := lit "require_approval" |}
      Fixtures.freshCell
    = (Returned (Denied response), Fixtures.freshCell)
    /\ msg_type response = lit "escalation".
Proof.
  destruct (proj1 (enforcePreDispatchGate_escalates (H := Fixtures.testHost))
              {| task := Fixtures.createTaskMessage (lit "coder")
                           (lit "Write some code");
                 autonomyLevel := lit "supervised";
                 classification := lit "significant";
                 decision := lit "require_approval" |}
              Fixtures.freshCell)
    as (response & _ & _ & _ & Hrun & Htype & _).
  - discriminate.
  - discriminate.
  - exists response. split; assumption.
Defined.

(** C6 as stated fails.  On the blocked request and on the request for
    approval of gates.test.ts the gate answers with envelopes that have a
    [session_id]: a fresh UUID on the failure, the session id of the task
    on the escalation. *)
Lemma gate_envelopes_have_session_id :
  exists failure escalation,
    fst (enforcePreDispatchGate (H := Fixtures.testHost)
           {| task := Fixtures.createTaskMessage (lit "coder")
                        (lit "Do something");
              autonomyLevel := lit "supervised";
              classification := lit "dangerous";
              decision := lit "block" |}
           Fixtures.freshCell)
    = Returned (Denied failure)
    /\ msg_type failure = lit "failure"
    /\ msg_session_id failure = Some (lit "uuid-0")
    /\ fst (enforcePreDispatchGate (H := Fixtures.testHost)
              {| task := Fixtures.createTaskMessage (lit "coder")
                           (lit "Write some code");
                 autonomyLevel := lit "supervised";
                 classification := lit "significant";
                 decision := lit "require_approval" |}
              Fixtures.freshCell)
       = Returned (Denied escalation)
    /\ msg_type escalation = lit "escalation"
    /\ msg_session_id escalation
       = Some (lit "550e8400-e29b-41d4-a716-446655440000")
    /\ envelopeKeys failure
       = [lit "type"; lit "session_id"; lit "timestamp"; lit "payload"]
    /\ envelopeKeys escalation
       = [lit "type"; lit "session_id"; lit "timestamp"; lit "payload"].
Proof. eexists _, _. vm_compute. repeat split. Qed.

End GateFacts.

(** ** Retry on failure *)

Module RetryFacts.
Import Retry.

(** A failure whose code is in the non-retryable set. *)
Definition nonRetryable (m : MessageEnvelope) : Prop :=
  exists code,
    payloadCode m = Some code
    /\ In code [ErrorCode.UNKNOWN_AGENT; ErrorCode.SESSION_NOT_FOUND;
                ErrorCode.AUTONOMY_BLOCKED; ErrorCode.APPROVAL_REQUIRED].

(** A failure envelope whose code is in the retryable set. *)
Definition retryableFailure (m : MessageEnvelope) : Prop :=
  msg_type m = lit "failure"
  /\ exists code,
       payloadCode m = Some code
       /\ In code [ErrorCode.AGENT_ERROR; ErrorCode.TIMEOUT;
                   ErrorCode.VALIDATION_ERROR].

Lemma shouldAutoRetry_stops (ctx : RetryContext) :
  nonRetryable (failure ctx) \/ autonomyLevel ctx = lit "supervised" ->
  shouldRetry (shouldAutoRetry ctx) = false.
Proof.
  intros Hstop. unfold shouldAutoRetry.
  destruct (attempts ctx >=? maxRetries ctx)%Z; [reflexivity |].
  destruct (hasCode NON_RETRYABLE_ERROR_CODES _) eqn:Hnon; [reflexivity |].
  destruct Hstop as [(code & Hcode & Hin) | ->]; [| reflexivity].
  rewrite Hcode in Hnon. cbn [hasCode] in Hnon.
  apply (has_In NON_RETRYABLE_ERROR_CODES) in Hin. congruence.
Qed.

Lemma shouldAutoRetry_assisted (ctx : RetryContext) :
  retryableFailure (failure ctx) ->
  autonomyLevel ctx = lit "assisted" ->
  (attempts ctx < maxRetries ctx)%Z ->
  shouldRetry (shouldAutoRetry ctx) = true.
Proof.
  intros (_ & code & Hcode & Hin) Hlevel Hlt. unfold shouldAutoRetry.
  replace (attempts ctx >=? maxRetries ctx)%Z with false
    by (symmetry; rewrite Z.geb_leb; apply Z.leb_gt; exact Hlt).
  rewrite Hcode, Hlevel.
  destruct Hin as [<- | [<- | [<- | []]]]; reflexivity.
Qed.

Section WithHost.
Context `{Host}.

(** The fuel [executeWithRetry] supplies is never used up: any two amounts
    above the number of attempts left give the same run. *)
Lemma retryLoop_fuel (level : jsstring) (maxRetries : Z)
    (executor : M MessageEnvelope) :
  forall fuel1 fuel2 current attempts c,
    (Z.to_nat (maxRetries - attempts) < fuel1)%nat ->
    (Z.to_nat (maxRetries - attempts) < fuel2)%nat ->
    retryLoop fuel1 level maxRetries executor current attempts c
    = retryLoop fuel2 level maxRetries executor current attempts c.
Proof.
  induction fuel1 as [|fuel1 IH]; intros [|fuel2] current attempts c H1 H2;
    try lia.
  simpl. destruct (attempts <? maxRetries)%Z eqn:Hlt; [| reflexivity].
  apply Z.ltb_lt in Hlt.
  destruct (negb _); [reflexivity |].
  unfold bind. destruct (executor c) as [[result | e] c']; [| reflexivity].
  destruct (negb _); [reflexivity |].
  apply IH; lia.
Qed.

Lemma retryLoop_retry (fuel : nat) (level : jsstring) (maxRetries : Z)
    (executor : M MessageEnvelope) (current result : MessageEnvelope)
    (attempts : Z) (c c' : Cell) :
  (attempts < maxRetries)%Z ->
  shouldRetry (shouldAutoRetry {| failure := current;
                                  autonomyLevel := level;
                                  attempts := attempts;
                                  maxRetries := maxRetries |}) = true ->
  executor c = (Returned result, c') ->
  retryLoop (S fuel) level maxRetries executor current attempts c
  = if negb (Js.eqb (msg_type result) (lit "failure"))
    then (Returned result, c')
    else retryLoop fuel level maxRetries executor result (attempts + 1) c'.
Proof.
  intros Hlt Hretry Hrun. cbn [retryLoop].
  apply Z.ltb_lt in Hlt. rewrite Hlt, Hretry. cbn [negb].
  unfold bind. rewrite Hrun. now destruct (negb _).
Qed.

Lemma invoke_returned {A} (tag : Call) (f : External A) (a : A)
    (w w' : World) (log : list Call) :
  f w = (Returned a, w') ->
  invoke tag f {| world := w; calls := log |}
  = (Returned a, {| world := w'; calls := log ++ [tag] |}).
Proof. unfold invoke; simpl. now intros ->. Qed.

(** C4.  A failure with a non-retryable code, or any failure under
    supervised autonomy, is returned as it is and the executor is not run:
    the world and the call log are as before, for every budget and every
    executor. *)
Theorem executeWithRetry_never_retries (failure : MessageEnvelope)
    (level : jsstring) (maxRetries : Z) (executor : M MessageEnvelope)
    (c : Cell) :
  nonRetryable failure \/ level = lit "supervised" ->
  executeWithRetry failure level maxRetries executor c = (Returned failure, c)
  /\ countCalls isExecutorCall
       (snd (executeWithRetry failure level maxRetries executor c))
     = countCalls isExecutorCall c.
Proof.
  intros Hstop.
  assert (Hrun : executeWithRetry failure level maxRetries executor c
                 = (Returned failure, c)).
  { unfold executeWithRetry. simpl.
    destruct (0 <? maxRetries)%Z; [| reflexivity].
    rewrite shouldAutoRetry_stops by exact Hstop. reflexivity. }
  rewrite Hrun. split; reflexivity.
Qed.

(** C5, amended.  Under assisted autonomy with a budget of 3, an executor
    whose first two results are retryable failures and whose third result is
    not a failure is run exactly three times, and its third result is
    returned. *)
Theorem executeWithRetry_third_attempt (f : External MessageEnvelope)
    (failure failure1 failure2 success : MessageEnvelope)
    (w0 w1 w2 w3 : World) (log : list Call) :
  retryableFailure failure ->
  f w0 = (Returned failure1, w1) -> retryableFailure failure1 ->
  f w1 = (Returned failure2, w2) -> retryableFailure failure2 ->
  f w2 = (Returned success, w3) -> msg_type success <> lit "failure" ->
  executeWithRetry failure (lit "assisted") 3 (invoke CallExecutor f)
                   {| world := w0; calls := log |}
  = (Returned success,
     {| world := w3;
        calls := log ++ [CallExecutor; CallExecutor; CallExecutor] |})
  /\ countCalls isExecutorCall
       {| world := w3;
          calls := log ++ [CallExecutor; CallExecutor; CallExecutor] |}
     = (countCalls isExecutorCall {| world := w0; calls := log |} + 3)%nat.
Proof.
  intros H0 E1 H1 E2 H2 E3 Hok.
  split; [| apply countCalls_app].
  unfold executeWithRetry.
  change (S (Z.to_nat 3)) with 4%nat.
  set (executor := invoke CallExecutor f).
  assert (Hstep : forall fuel current result attempts w w' log',
             retryableFailure current ->
             (attempts < 3)%Z ->
             f w = (Returned result, w') ->
             retryLoop (S fuel) (lit "assisted") 3 executor current attempts
                       {| world := w; calls := log' |}
             = if negb (Js.eqb (msg_type result) (lit "failure"))
               then (Returned result,
                     {| world := w'; calls := log' ++ [CallExecutor] |})
               else retryLoop fuel (lit "assisted") 3 executor result
                              (attempts + 1)
                              {| world := w'; calls := log' ++ [CallExecutor] |}).
  { intros fuel current result attempts w w' log' Hcur Hlt Hrun.
    apply retryLoop_retry.
    - exact Hlt.
    - apply shouldAutoRetry_assisted; [exact Hcur | reflexivity | exact Hlt].
    - apply invoke_returned. exact Hrun. }
  rewrite (Hstep _ _ _ 0%Z _ _ _ H0 ltac:(lia) E1).
  rewrite (proj1 H1), eqb_refl. cbn [negb].
  rewrite (Hstep _ _ _ (0 + 1)%Z _ _ _ H1 ltac:(lia) E2).
  rewrite (proj1 H2), eqb_refl. cbn [negb].
  rewrite (Hstep _ _ _ (0 + 1 + 1)%Z _ _ _ H2 ltac:(lia) E3).
  apply eqb_neq in Hok. rewrite Hok. cbn [negb].
  now rewrite <- !app_assoc.
Qed.

(** The budget is also the bound of the loop: [executeWithRetry] behaves as
    the loop run with any larger amount of fuel. *)
Lemma executeWithRetry_fuel_enough (failure : MessageEnvelope)
    (level : jsstring) (maxRetries : Z) (executor : M MessageEnvelope)
    (fuel : nat) (c : Cell) :
  (Z.to_nat maxRetries < fuel)%nat ->
  executeWithRetry failure level maxRetries executor c
  = retryLoop fuel level maxRetries executor failure 0 c.
Proof.
  intros Hfuel. unfold executeWithRetry.
  apply retryLoop_fuel; rewrite Z.sub_0_r; lia.
Qed.

End WithHost.

Import Fixtures.

Lemma executeWithRetry_never_retries_witness :
  executeWithRetry (H := testHost)
    (createFailure ErrorCode.UNKNOWN_AGENT (lit "Test failure"))
    (lit "assisted") 2 (invoke CallExecutor (scriptedExecutor 1)) freshCell
  = (Returned (createFailure ErrorCode.UNKNOWN_AGENT (lit "Test failure")),
     freshCell).
Proof.
  apply (executeWithRetry_never_retries (H := testHost)).
  left. exists ErrorCode.UNKNOWN_AGENT. split; [reflexivity | simpl; auto].
Defined.

(** C5 as stated fails.  The executor of retry.test.ts set to fail twice
    and then succeed is run three times before its success is returned, not
    two. *)
Lemma fails_twice_then_succeeds_runs_thrice :
  (exists w1 w2 w3,
      scriptedExecutor 3 freshWorld
      = (Returned (createFailure ErrorCode.AGENT_ERROR (lit "Attempt failed")), w1)
      /\ scriptedExecutor 3 w1
         = (Returned (createFailure ErrorCode.AGENT_ERROR (lit "Attempt failed")), w2)
      /\ scriptedExecutor 3 w2
         = (Returned (createResult (lit "Final success")), w3))
  /\ fst (executeWithRetry (H := testHost)
            (createFailure ErrorCode.AGENT_ERROR (lit "Test failure"))
            (lit "assisted") 3 (invoke CallExecutor (scriptedExecutor 3))
            freshCell)
     = Returned (createResult (lit "Final success"))
  /\ countCalls isExecutorCall
       (snd (executeWithRetry (H := testHost)
               (createFailure ErrorCode.AGENT_ERROR (lit "Test failure"))
               (lit "assisted") 3 (invoke CallExecutor (scriptedExecutor 3))
               freshCell))
     <> 2%nat.
Proof.
  split; [| vm_compute; split; [reflexivity | discriminate]].
  eexists _, _, _. repeat split.
Qed.

(** retry.test.ts, "retries multiple times before success": the executor
    fails on its first call only, and is run twice. *)
Example fails_once_then_succeeds_runs_twice :
  executeWithRetry (H := testHost)
    (createFailure ErrorCode.AGENT_ERROR (lit "Test failure"))
    (lit "assisted") 3 (invoke CallExecutor (scriptedExecutor 2)) freshCell
  = (Returned (createResult (lit "Final success")),
     Build_Cell (H := testHost)
       {| callCount := 2; uuidCounter := 0; abortedFlag := false |}
       [CallExecutor; CallExecutor]).
Proof. vm_compute. reflexivity. Qed.

Lemma executeWithRetry_third_attempt_witness :
  fst (executeWithRetry (H := testHost)
         (createFailure ErrorCode.AGENT_ERROR (lit "Test failure"))
         (lit "assisted") 3 (invoke CallExecutor (scriptedExecutor 3))
         freshCell)
  = Returned (createResult (lit "Final success")).
Proof.
  unfold freshCell.
  assert (Hf : forall message,
             retryableFailure (createFailure ErrorCode.AGENT_ERROR message)).
  { intros message. split; [reflexivity |].
    exists ErrorCode.AGENT_ERROR. split; [reflexivity | simpl; auto]. }
  rewrite (proj1 (executeWithRetry_third_attempt (H := testHost)
             (scriptedExecutor 3) _ _ _ _
             freshWorld _ _ _ []
             (Hf _) eq_refl (Hf _) eq_refl (Hf _) eq_refl
             ltac:(discriminate))).
  reflexivity.
Defined.

End RetryFacts.

(** ** Validation with retry *)

Module ValidationFacts.
Import Validation.

Section WithHost.
Context `{Host}.

Definition invalid (raw : jsstring) : Prop :=
  exists error retryable, validateMessage raw = Invalid error retryable.

(** The cell after one [randomUUID()]. *)
Definition afterUUID (c : Cell) : Cell :=
  {| world := snd (host_randomUUID (world c)); calls := calls c |}.

Lemma validationFailure_run (agentId error : jsstring) (c : Cell) :
  exists m,
    validationFailure agentId error c = (Returned m, afterUUID c)
    /\ msg_type m = lit "failure"
    /\ msg_payload m
       = FailurePayload (Some agentId) ErrorCode.VALIDATION_ERROR
                        (validationFailureText error) None.
Proof.
  unfold validationFailure, bind, randomUUID, nowTimestamp, ret, afterUUID.
  destruct (host_randomUUID (world c)) as [uuid w']. simpl.
  eexists. repeat split.
Qed.

Lemma countCalls_afterUUID (p : Call -> bool) (c : Cell) :
  countCalls p (afterUUID c) = countCalls p c.
Proof. reflexivity. Qed.

(** A sender as a test mock: an external function whose calls are logged. *)
Definition mockSender (f : jsstring -> External jsstring)
    : jsstring -> M jsstring :=
  fun correction => invoke (CallCorrection correction) (f correction).

(** The sender returns, and what it returns never validates. *)
Definition alwaysInvalid (f : jsstring -> External jsstring) : Prop :=
  forall correction w,
  exists corrected w', f correction w = (Returned corrected, w')
                       /\ invalid corrected.

Lemma correctionLoop_exhausts (f : jsstring -> External jsstring)
    (agentId : jsstring) :
  alwaysInvalid f ->
  forall remaining error c,
  exists m c',
    correctionLoop (mockSender f) agentId remaining error c = (Returned m, c')
    /\ msg_type m = lit "failure"
    /\ payloadCode m = Some ErrorCode.VALIDATION_ERROR
    /\ countCalls isCorrectionCall c'
       = (countCalls isCorrectionCall c + remaining)%nat.
Proof.
  intros Hf. induction remaining as [|remaining IH]; intros error c.
  - destruct (validationFailure_run agentId error c) as (m & Hrun & Ht & Hp).
    exists m, (afterUUID c). cbn [correctionLoop].
    repeat split; try assumption.
    + unfold payloadCode. now rewrite Hp.
    + rewrite countCalls_afterUUID. lia.
  - destruct c as [w log].
    destruct (Hf (correctionPromptFor error) w)
      as (corrected & w' & Hsend & error' & retryable & Hinv).
    destruct (IH error' {| world := w'; calls := log ++ [CallCorrection (correctionPromptFor error)] |})
      as (m & c' & Hrun & Ht & Hp & Hcount).
    exists m, c'. cbn [correctionLoop]. unfold bind, mockSender.
    rewrite (RetryFacts.invoke_returned _ _ _ _ _ _ Hsend), Hinv.
    repeat split; try assumption.
    rewrite Hcount, (countCalls_app _ w). simpl. lia.
Qed.

(** C3.  The budget of validateWithRetry counts correction attempts only.
    An input that validates at once is returned without any call of the
    sender, whatever the budget.  When the input is invalid, is not wrapped
    as plain text, and the sender keeps returning invalid output, the sender
    is called exactly maxRetries times and the result is a failure with code
    VALIDATION_ERROR. *)
Theorem validateWithRetry_budget :
  (forall raw agentId config sender message c,
      validateMessage raw = Valid message ->
      validateWithRetry raw agentId config sender c = (Returned message, c))
  /\ (forall raw agentId config f c,
        invalid raw ->
        wrapPlainText config && isPlainText raw = false ->
        (0 <= maxRetries config)%Z ->
        alwaysInvalid f ->
        exists m c',
          validateWithRetry raw agentId config (Some (mockSender f)) c
          = (Returned m, c')
          /\ msg_type m = lit "failure"
          /\ payloadCode m = Some ErrorCode.VALIDATION_ERROR
          /\ Z.of_nat (countCalls isCorrectionCall c')
             = (Z.of_nat (countCalls isCorrectionCall c) + maxRetries config)%Z).
Proof.
  split.
  - intros raw agentId config sender message c Hvalid.
    unfold validateWithRetry. now rewrite Hvalid.
  - intros raw agentId config f c (error & retryable & Hinv) Hwrap Hbudget Hf.
    unfold validateWithRetry. rewrite Hinv, Hwrap.
    destruct (maxRetries config <=? 0)%Z eqn:Hzero.
    + apply Z.leb_le in Hzero.
      destruct (validationFailure_run agentId error c) as (m & Hrun & Ht & Hp).
      exists m, (afterUUID c). repeat split; try assumption.
      * unfold payloadCode. now rewrite Hp.
      * rewrite countCalls_afterUUID. lia.
    + apply Z.leb_gt in Hzero.
      destruct (correctionLoop_exhausts f agentId Hf
                  (Z.to_nat (maxRetries config)) error c)
        as (m & c' & Hrun & Ht & Hp & Hcount).
      exists m, c'. repeat split; try assumption.
      rewrite Hcount. lia.
Qed.

End WithHost.

Import Fixtures.

Lemma validateWithRetry_budget_witness :
  exists m c',
    validateWithRetry (H := testHost) (lit "{ invalid json") (lit "coder")
      {| maxRetries := 2; wrapPlainText := false |}
      (Some (mockSender stillInvalidSender)) freshCell
    = (Returned m, c')
    /\ payloadCode m = Some ErrorCode.VALIDATION_ERROR
    /\ countCalls isCorrectionCall c' = 2%nat.
Proof.
  destruct (proj2 (validateWithRetry_budget (H := testHost))
              (lit "{ invalid json") (lit "coder")
              {| maxRetries := 2; wrapPlainText := false |}
              stillInvalidSender freshCell)
    as (m & c' & Hrun & _ & Hcode & Hcount).
  - eexists _, _. reflexivity.
  - reflexivity.
  - simpl. lia.
  - intros correction w. eexists _, _. split; [reflexivity |].
    eexists _, _. reflexivity.
  - exists m, c'. repeat split; try assumption.
    change (countCalls isCorrectionCall freshCell) with 0%nat in Hcount.
    simpl in Hcount. lia.
Defined.

End ValidationFacts.

(** ** Dispatch *)

Module DispatchFacts.
Import Autonomy Gates Validation Dispatch.
Import ValidationFacts.

Section WithHost.
Context `{Host}.
Variable AgentConfig : Type.
Implicit Types (ctx : DispatchContext AgentConfig) (c : Cell).

(** The envelope is a failure with the given code and cause. *)
Definition failureWith (code : jsstring) (cause : option jsstring)
    (m : MessageEnvelope) : Prop :=
  msg_type m = lit "failure"
  /\ exists agent message, msg_payload m = FailurePayload agent code message cause.

(** [ctx.abort?.aborted] in a given state of the world. *)
Definition abortedAt ctx c : bool :=
  match abort ctx with
  | Some signal => signal (world c)
  | None => false
  end.

(** The autonomy configuration in force: [ctx.autonomyConfig ?? DEFAULT]. *)
Definition configOf ctx : AutonomyConfig :=
  match autonomyConfig ctx with
  | Some config => config
  | None => DEFAULT_AUTONOMY_CONFIG
  end.

Lemma createFailureMessage_run (code message : jsstring)
    (cause : option jsstring) c :
  exists m,
    createFailureMessage code message cause c = (Returned m, afterUUID c)
    /\ failureWith code cause m.
Proof.
  unfold createFailureMessage, bind, randomUUID, nowTimestamp, ret, afterUUID.
  destruct (host_randomUUID (world c)) as [uuid w']. simpl.
  eexists. split; [reflexivity |]. split; [reflexivity |].
  eexists _, _. reflexivity.
Qed.

Lemma serialized_failure (code message : jsstring) (cause : option jsstring) c :
  exists m c',
    bind (createFailureMessage code message cause)
         (fun failure => ret (JSON_stringify failure)) c
    = (Returned (JSON_stringify m), c')
    /\ failureWith code cause m.
Proof.
  destruct (createFailureMessage_run code message cause c) as (m & Hrun & Hm).
  exists m, (afterUUID c). split; [| exact Hm].
  unfold bind. now rewrite Hrun.
Qed.

Lemma executionFailed_run ctx (err : Thrown) c :
  if abortedAt ctx c
  then exists m c',
         executionFailed ctx err c = (Returned (JSON_stringify m), c')
         /\ failureWith ErrorCode.TIMEOUT None m
  else match errorText err with
       | Returned cause =>
           exists m c',
             executionFailed ctx err c = (Returned (JSON_stringify m), c')
             /\ failureWith ErrorCode.AGENT_ERROR (Some cause) m
       | Threw raised => executionFailed ctx err c = (Threw raised, c)
       end.
Proof.
  assert (Hcatch :
    executionFailed ctx err c
    = (if abortedAt ctx c
       then failure <- createFailureMessage ErrorCode.TIMEOUT
                         (lit "Request timed out or was cancelled") None ;;
            ret (JSON_stringify failure)
       else match errorText err with
            | Returned cause =>
                failure <- createFailureMessage ErrorCode.AGENT_ERROR
                             (lit "Agent execution failed") (Some cause) ;;
                ret (JSON_stringify failure)
            | Threw raised => throw raised
            end) c) by reflexivity.
  rewrite Hcatch. clear Hcatch.
  destruct (abortedAt ctx c); [apply serialized_failure |].
  destruct (errorText err) as [cause | raised];
    [apply serialized_failure | reflexivity].
Qed.

Lemma executionPhase_serialized (task : TaskMessage) ctx
    (config : AutonomyConfig) (classification s : jsstring) c c' :
  executionPhase task ctx config classification c = (Returned s, c') ->
  exists m, s = JSON_stringify m.
Proof.
  unfold executionPhase, bind.
  destruct (executeDispatch task ctx c) as [[result | e] c1]; [| discriminate].
  destruct (Js.eqb (msg_type result) (lit "failure")).
  - destruct (Retry.executeWithRetry _ _ _ _ c1) as [[result' | e] c2];
      [| discriminate].
    unfold ret. intros [= <- _]. eexists; reflexivity.
  - unfold ret. intros [= <- _]. eexists; reflexivity.
Qed.

Lemma gate_never_throws (gate : GateContext) c :
  exists result c', enforcePreDispatchGate gate c = (Returned result, c').
Proof.
  destruct (GateFacts.enforcePreDispatchGate_run gate c)
    as [[_ ->] | (_ & response & c' & -> & _)];
    eexists _, _; reflexivity.
Qed.

Lemma gate_proceeds (gate : GateContext) c :
  decision gate = lit "proceed" ->
  enforcePreDispatchGate gate c = (Returned Allowed, c).
Proof.
  intros Hd. unfold enforcePreDispatchGate. now rewrite Hd.
Qed.

Lemma gate_denies_run (gate : GateContext) c :
  decision gate <> lit "proceed" ->
  exists response c',
    enforcePreDispatchGate gate c = (Returned (Denied response), c').
Proof.
  intros Hd.
  destruct (GateFacts.enforcePreDispatchGate_run gate c)
    as [[Hp _] | (_ & response & c' & Hrun & _)]; [contradiction |].
  now exists response, c'.
Qed.

(** C9, as the code has it.  dispatchToAgent returns a serialized envelope
    on every path but one.  A message that is not a valid task gives a
    VALIDATION_ERROR failure, an unregistered agent an UNKNOWN_AGENT
    failure, a gate decision other than proceed the response of the gate,
    and an execution phase that returns its serialized result.  When the
    execution phase throws, the result is a TIMEOUT failure if the abort
    signal is set at that moment; otherwise it is an AGENT_ERROR failure
    whose cause is the message of the exception, if the thrown value is an
    Error or converts to a string.  When it is neither, the conversion in
    the catch block throws and dispatchToAgent throws to its caller; this
    is the only way it does. *)
Theorem dispatchToAgent_outcomes (messageJson : jsstring) ctx c :
  (parseTaskMessage messageJson = None ->
   exists m c',
     dispatchToAgent messageJson ctx c = (Returned (JSON_stringify m), c')
     /\ failureWith ErrorCode.VALIDATION_ERROR
          (Some (lit "Message must be a valid TaskMessage JSON envelope")) m)
  /\ (forall task,
        parseTaskMessage messageJson = Some task ->
        registryHas (agents ctx) (agent_id (task_payload task)) = false ->
        exists m c',
          dispatchToAgent messageJson ctx c = (Returned (JSON_stringify m), c')
          /\ failureWith ErrorCode.UNKNOWN_AGENT
               (Some (lit "Available agents: "
                      ++ join (lit ", ") (map fst (agents ctx)))) m)
  /\ (forall task,
        parseTaskMessage messageJson = Some task ->
        registryHas (agents ctx) (agent_id (task_payload task)) = true ->
        determineGate (level (configOf ctx)) (classifyAction task (agents ctx))
        <> lit "proceed" ->
        exists m c',
          dispatchToAgent messageJson ctx c = (Returned (JSON_stringify m), c'))
  /\ (forall task s c1,
        parseTaskMessage messageJson = Some task ->
        registryHas (agents ctx) (agent_id (task_payload task)) = true ->
        determineGate (level (configOf ctx)) (classifyAction task (agents ctx))
        = lit "proceed" ->
        executionPhase task ctx (configOf ctx)
                       (classifyAction task (agents ctx)) c
        = (Returned s, c1) ->
        exists m,
          dispatchToAgent messageJson ctx c = (Returned (JSON_stringify m), c1))
  /\ (forall task err c1,
        parseTaskMessage messageJson = Some task ->
        registryHas (agents ctx) (agent_id (task_payload task)) = true ->
        determineGate (level (configOf ctx)) (classifyAction task (agents ctx))
        = lit "proceed" ->
        executionPhase task ctx (configOf ctx)
                       (classifyAction task (agents ctx)) c
        = (Threw err, c1) ->
        if abortedAt ctx c1
        then exists m c',
               dispatchToAgent messageJson ctx c
               = (Returned (JSON_stringify m), c')
               /\ failureWith ErrorCode.TIMEOUT None m
        else match errorText err with
             | Returned cause =>
                 exists m c',
                   dispatchToAgent messageJson ctx c
                   = (Returned (JSON_stringify m), c')
                   /\ failureWith ErrorCode.AGENT_ERROR (Some cause) m
             | Threw raised =>
                 dispatchToAgent messageJson ctx c = (Threw raised, c1)
             end)
  /\ (forall raised c1,
        dispatchToAgent messageJson ctx c = (Threw raised, c1) ->
        exists task err,
          parseTaskMessage messageJson = Some task
          /\ executionPhase task ctx (configOf ctx)
                            (classifyAction task (agents ctx)) c
             = (Threw err, c1)
          /\ abortedAt ctx c1 = false
          /\ errorText err = Threw raised).
Proof.
  destruct (parseTaskMessage messageJson) as [task |] eqn:Hparse.
  - destruct (registryHas (agents ctx) (agent_id (task_payload task))) eqn:Hreg.
    + set (gate := {| task := task;
                      autonomyLevel := level (configOf ctx);
                      classification := classifyAction task (agents ctx);
                      decision := determineGate (level (configOf ctx))
                                    (classifyAction task (agents ctx)) |}).
      assert (Hdenied : forall response c',
                enforcePreDispatchGate gate c = (Returned (Denied response), c') ->
                dispatchToAgent messageJson ctx c
                = (Returned (JSON_stringify response), c')).
      { intros response c' Hrun. unfold dispatchToAgent.
        rewrite Hparse, Hreg. cbn [negb]. fold (configOf ctx). fold gate.
        unfold bind at 1. now rewrite Hrun. }
      assert (Hallowed : decision gate = lit "proceed" ->
                dispatchToAgent messageJson ctx c
                = tryCatch (executionPhase task ctx (configOf ctx)
                              (classifyAction task (agents ctx)))
                           (executionFailed ctx) c).
      { intros Hd. unfold dispatchToAgent.
        rewrite Hparse, Hreg. cbn [negb]. fold (configOf ctx). fold gate.
        unfold bind at 1. now rewrite (gate_proceeds gate c Hd). }
      split; [discriminate |].
      split; [intros task' [= <-]; congruence |].
      split; [| split; [| split]].
      * intros task' [= <-] _ Hgate.
        destruct (gate_denies_run gate c Hgate) as (response & c' & Hrun).
        rewrite (Hdenied _ _ Hrun). eexists _, _; reflexivity.
      * intros task' s c1 [= <-] _ Hgate Hphase.
        rewrite (Hallowed Hgate). unfold tryCatch. rewrite Hphase.
        destruct (executionPhase_serialized _ _ _ _ _ _ _ Hphase) as (m & ->).
        eexists; reflexivity.
      * intros task' err c1 [= <-] _ Hgate Hphase.
        rewrite (Hallowed Hgate). unfold tryCatch. rewrite Hphase.
        apply executionFailed_run.
      * intros raised c1.
        destruct (Js.eqb (decision gate) (lit "proceed")) eqn:Hd;
          [apply eqb_eq in Hd | apply eqb_neq in Hd].
        -- rewrite (Hallowed Hd). unfold tryCatch.
           destruct (executionPhase task ctx (configOf ctx) _ c)
             as [[s | err] c2] eqn:Hphase; [discriminate |].
           pose proof (executionFailed_run ctx err c2) as Hcatch.
           destruct (abortedAt ctx c2) eqn:Habort.
           ++ destruct Hcatch as (m & c' & -> & _). discriminate.
           ++ destruct (errorText err) as [cause | raised'] eqn:Htext.
              ** destruct Hcatch as (m & c' & -> & _). discriminate.
              ** rewrite Hcatch. intros [= <- <-].
                 exists task, err. now rewrite Habort.
        -- destruct (gate_denies_run gate c Hd) as (response & c' & Hrun).
           rewrite (Hdenied _ _ Hrun). discriminate.
    + assert (Hunknown :
        dispatchToAgent messageJson ctx c
        = (failure <- createFailureMessage ErrorCode.UNKNOWN_AGENT
                        (lit "Unknown agent: " ++ agent_id (task_payload task))
                        (Some (lit "Available agents: "
                               ++ join (lit ", ") (map fst (agents ctx)))) ;;
           ret (JSON_stringify failure)) c).
      { unfold dispatchToAgent. now rewrite Hparse, Hreg. }
      rewrite Hunknown.
      split; [discriminate |].
      split; [intros task' [= <-] _; apply serialized_failure |].
      split; [intros task' [= <-]; congruence |].
      split; [intros task' s c1 [= <-]; congruence |].
      split; [intros task' err c1 [= <-]; congruence |].
      intros raised c1.
      destruct (serialized_failure ErrorCode.UNKNOWN_AGENT
                  (lit "Unknown agent: " ++ agent_id (task_payload task))
                  (Some (lit "Available agents: "
                         ++ join (lit ", ") (map fst (agents ctx)))) c)
        as (m & c' & -> & _).
      discriminate.
  - assert (Hinvalid :
      dispatchToAgent messageJson ctx c
      = (failure <- createFailureMessage ErrorCode.VALIDATION_ERROR
                      (lit "Invalid task message format")
                      (Some (lit "Message must be a valid TaskMessage JSON envelope")) ;;
         ret (JSON_stringify failure)) c).
    { unfold dispatchToAgent. now rewrite Hparse. }
    rewrite Hinvalid.
    split; [intros _; apply serialized_failure |].
    split; [discriminate |]. split; [discriminate |].
    split; [discriminate |]. split; [discriminate |].
    intros raised c1.
    destruct (serialized_failure ErrorCode.VALIDATION_ERROR
                (lit "Invalid task message format")
                (Some (lit "Message must be a valid TaskMessage JSON envelope")) c)
      as (m & c' & -> & _).
    discriminate.
Qed.

End WithHost.

Import Fixtures.

(** dispatch.test.ts, 'returns failure when agent throws error': the client throws
    an Error and the answer is an AGENT_ERROR failure with its message. *)
Lemma dispatchToAgent_outcomes_witness :
  exists m c',
    dispatchToAgent (H := testHost) (lit "{task}") crashingContext freshCell
    = (Returned (JSON_stringify (Host := testHost) m), c')
    /\ failureWith ErrorCode.AGENT_ERROR (Some (lit "Agent crashed")) m.
Proof.
  destruct (dispatchToAgent_outcomes (H := testHost) unit
              (lit "{task}") crashingContext freshCell)
    as (_ & _ & _ & _ & Hthrows & _).
  apply (Hthrows (createTaskMessage (lit "coder") (lit "Write a function"))
           (ErrorObject (lit "Agent crashed"))
           (snd (executionPhase (H := testHost)
                   (createTaskMessage (lit "coder") (lit "Write a function"))
                   crashingContext
                   {| level := lit "autonomous"; Autonomy.maxRetries := 2 |}
                   (lit "significant") freshCell))).
  - reflexivity.
  - reflexivity.
  - reflexivity.
  - vm_compute. reflexivity.
Defined.

(** A client whose [session.create] throws [Object.create(null)]: the
    conversion [String(err)] throws a TypeError. *)
Definition throwingUnconvertible : OpencodeClient (H := testHost) :=
  {| session_create := fun w =>
       (Threw (Unconvertible
                 (ErrorObject (lit "Cannot convert object to primitive value"))),
        w);
     session_prompt := session_prompt crashingClient |}.

Definition unconvertibleContext : DispatchContext (H := testHost) unit :=
  {| client := throwingUnconvertible;
     agents := agents crashingContext;
     validationConfig := validationConfig crashingContext;
     autonomyConfig := autonomyConfig crashingContext;
     abort := abort crashingContext |}.

(** On that client dispatchToAgent throws to its caller. *)
Lemma dispatchToAgent_throws_unconvertible :
  fst (dispatchToAgent (H := testHost) (lit "{task}") unconvertibleContext
         freshCell)
  = Threw (ErrorObject (lit "Cannot convert object to primitive value")).
Proof. vm_compute. reflexivity. Qed.

End DispatchFacts.

(* ================================================================== *)
(** * Part III.  Further properties *)
(* ================================================================== *)

(** ** schemas/errors.ts and plugin/retry.ts *)

(** schemas/errors.ts: the members of [ErrorCodeSchema = z.enum([...])]. *)
Definition ErrorCodeSchema : list jsstring := [
  ErrorCode.VALIDATION_ERROR; ErrorCode.UNKNOWN_AGENT;
  ErrorCode.SESSION_NOT_FOUND; ErrorCode.AGENT_ERROR; ErrorCode.TIMEOUT;
  ErrorCode.AUTONOMY_BLOCKED; ErrorCode.APPROVAL_REQUIRED
].

Module RetryMore.
Import Retry RetryFacts.

(** The two autonomy levels under which [shouldAutoRetry] may answer yes. *)
Definition retryingLevel (level : jsstring) : Prop :=
  level = lit "assisted" \/ level = lit "autonomous".

Lemma retryable_not_non_retryable (code : option jsstring) :
  hasCode RETRYABLE_ERROR_CODES code = true ->
  hasCode NON_RETRYABLE_ERROR_CODES code = false.
Proof.
  destruct code as [code |]; [| discriminate]. cbn [hasCode].
  intros Hin. apply has_In in Hin.
  destruct Hin as [<- | [<- | [<- | []]]]; reflexivity.
Qed.

Lemma shouldAutoRetry_true_inv (ctx : RetryContext) :
  shouldRetry (shouldAutoRetry ctx) = true ->
  (attempts ctx < maxRetries ctx)%Z
  /\ hasCode RETRYABLE_ERROR_CODES (payloadCode (failure ctx)) = true
  /\ retryingLevel (autonomyLevel ctx).
Proof.
  unfold shouldAutoRetry, retryingLevel.
  destruct (attempts ctx >=? maxRetries ctx)%Z eqn:Hge; [discriminate |].
  rewrite Z.geb_leb in Hge. apply Z.leb_gt in Hge.
  destruct (hasCode NON_RETRYABLE_ERROR_CODES _); [discriminate |].
  destruct (Js.eqb (autonomyLevel ctx) (lit "supervised")); [discriminate |].
  destruct (Js.eqb (autonomyLevel ctx) (lit "assisted")) eqn:Ha.
  - apply eqb_eq in Ha.
    destruct (hasCode RETRYABLE_ERROR_CODES _); [auto | discriminate].
  - destruct (Js.eqb (autonomyLevel ctx) (lit "autonomous")) eqn:Hn;
      [| discriminate].
    apply eqb_eq in Hn.
    destruct (hasCode RETRYABLE_ERROR_CODES _); [auto | discriminate].
Qed.

Lemma shouldAutoRetry_true_intro (ctx : RetryContext) :
  (attempts ctx < maxRetries ctx)%Z ->
  hasCode RETRYABLE_ERROR_CODES (payloadCode (failure ctx)) = true ->
  retryingLevel (autonomyLevel ctx) ->
  shouldRetry (shouldAutoRetry ctx) = true.
Proof.
  intros Hlt Hcode Hlevel. unfold shouldAutoRetry.
  replace (attempts ctx >=? maxRetries ctx)%Z with false
    by (symmetry; rewrite Z.geb_leb; apply Z.leb_gt; exact Hlt).
  rewrite (retryable_not_non_retryable _ Hcode), Hcode.
  destruct Hlevel as [-> | ->]; reflexivity.
Qed.

Lemma retryableFailure_hasCode (m : MessageEnvelope) :
  retryableFailure m ->
  hasCode RETRYABLE_ERROR_CODES (payloadCode m) = true.
Proof.
  intros (_ & code & -> & Hin). cbn [hasCode].
  now apply (has_In RETRYABLE_ERROR_CODES).
Qed.

(** X1.  shouldAutoRetry answers yes exactly when the budget is not used up,
    the failure's code is in the retryable set and the level is assisted or
    autonomous. *)
Theorem shouldAutoRetry_iff (ctx : RetryContext) :
  shouldRetry (shouldAutoRetry ctx) = true
  <-> (attempts ctx < maxRetries ctx)%Z
      /\ hasCode RETRYABLE_ERROR_CODES (payloadCode (failure ctx)) = true
      /\ retryingLevel (autonomyLevel ctx).
Proof.
  split.
  - apply shouldAutoRetry_true_inv.
  - intros (Hlt & Hcode & Hlevel). now apply shouldAutoRetry_true_intro.
Qed.

(** X2.  The retryability tables cover the error codes of the schema and
    nothing else, and no code is in both tables. *)
Theorem error_codes_partitioned :
  (forall code,
      In code ErrorCodeSchema
      <-> In code RETRYABLE_ERROR_CODES \/ In code NON_RETRYABLE_ERROR_CODES)
  /\ (forall code,
        In code RETRYABLE_ERROR_CODES ->
        In code NON_RETRYABLE_ERROR_CODES -> False).
Proof.
  split.
  - intros code. unfold ErrorCodeSchema, RETRYABLE_ERROR_CODES,
      NON_RETRYABLE_ERROR_CODES. simpl. tauto.
  - intros code Hr Hn.
    apply (has_In RETRYABLE_ERROR_CODES) in Hr.
    apply (has_In NON_RETRYABLE_ERROR_CODES) in Hn.
    pose proof (retryable_not_non_retryable (Some code) Hr) as Hno.
    cbn [hasCode] in Hno. congruence.
Qed.

Section WithHost.
Context `{Host}.

(** Successive calls of [f] from the world [w] return the retryable
    failures [ms], one after the other, and leave the world [w']. *)
Inductive FailsRepeatedly (f : External MessageEnvelope)
    : World -> list MessageEnvelope -> World -> Prop :=
| FailsNoMore (w : World) : FailsRepeatedly f w [] w
| FailsAgain (w w1 w' : World) (m : MessageEnvelope)
             (ms : list MessageEnvelope) :
    f w = (Returned m, w1) ->
    retryableFailure m ->
    FailsRepeatedly f w1 ms w' ->
    FailsRepeatedly f w (m :: ms) w'.

Lemma retryLoop_stops (fuel : nat) (level : jsstring) (maxRetries : Z)
    (executor : M MessageEnvelope) (current : MessageEnvelope)
    (attempts : Z) (c : Cell) :
  shouldRetry (shouldAutoRetry {| failure := current;
                                  autonomyLevel := level;
                                  attempts := attempts;
                                  maxRetries := maxRetries |}) = false ->
  retryLoop fuel level maxRetries executor current attempts c
  = (Returned current, c).
Proof.
  intros Hstop. destruct fuel; [reflexivity |]. cbn [retryLoop].
  destruct (attempts <? maxRetries)%Z; [| reflexivity].
  now rewrite Hstop.
Qed.

Lemma retryLoop_throws (fuel : nat) (level : jsstring) (maxRetries : Z)
    (executor : M MessageEnvelope) (current : MessageEnvelope)
    (attempts : Z) (c c' : Cell) (e : Thrown) :
  (attempts < maxRetries)%Z ->
  shouldRetry (shouldAutoRetry {| failure := current;
                                  autonomyLevel := level;
                                  attempts := attempts;
                                  maxRetries := maxRetries |}) = true ->
  executor c = (Threw e, c') ->
  retryLoop (S fuel) level maxRetries executor current attempts c
  = (Threw e, c').
Proof.
  intros Hlt Hretry Hrun. cbn [retryLoop].
  apply Z.ltb_lt in Hlt. rewrite Hlt, Hretry. cbn [negb].
  unfold bind. now rewrite Hrun.
Qed.

Lemma invoke_threw {A} (tag : Call) (f : External A) (e : Thrown)
    (w w' : World) (log : list Call) :
  f w = (Threw e, w') ->
  invoke tag f {| world := w; calls := log |}
  = (Threw e, {| world := w'; calls := log ++ [tag] |}).
Proof. unfold invoke; simpl. now intros ->. Qed.

Lemma repeat_snoc {A} (x : A) (n : nat) :
  repeat x n ++ [x] = x :: repeat x n.
Proof. induction n; simpl; [reflexivity | now rewrite IHn]. Qed.

Lemma last_nonempty {A} (x : A) (l : list A) (d d' : A) :
  last (x :: l) d = last (x :: l) d'.
Proof.
  revert x; induction l as [| y l IH]; intros x; [reflexivity |].
  change (last (y :: l) d = last (y :: l) d'). apply IH.
Qed.

Lemma last_retryable (f : External MessageEnvelope) (w w' : World)
    (ms : list MessageEnvelope) :
  FailsRepeatedly f w ms w' ->
  forall current, retryableFailure current -> retryableFailure (last ms current).
Proof.
  induction 1 as [w | w w1 w' m ms Hcall Hm Hruns IH]; intros current Hcur.
  - exact Hcur.
  - destruct ms as [| m' ms]; [exact Hm |].
    change (retryableFailure (last (m' :: ms) current)). now apply IH.
Qed.

(** The loop through a run of retryable failures. *)
Lemma retryLoop_through_failures (f : External MessageEnvelope)
    (level : jsstring) (maxRetries : Z) (fuel : nat) :
  retryingLevel level ->
  forall ms w w' current attempts log,
    FailsRepeatedly f w ms w' ->
    retryableFailure current ->
    (attempts + Z.of_nat (List.length ms) <= maxRetries)%Z ->
    retryLoop (List.length ms + fuel) level maxRetries
              (invoke CallExecutor f) current attempts
              {| world := w; calls := log |}
    = retryLoop fuel level maxRetries (invoke CallExecutor f)
                (last ms current) (attempts + Z.of_nat (List.length ms))
                {| world := w';
                   calls := log ++ repeat CallExecutor (List.length ms) |}.
Proof.
  intros Hlevel ms w w' current attempts log Hruns.
  revert current attempts log.
  induction Hruns as [w | w w1 w' m ms Hcall Hm Hruns IH];
    intros current attempts log Hcur Hbudget.
  - simpl. now rewrite Z.add_0_r, app_nil_r.
  - cbn [List.length Nat.add] in *.
    rewrite (retryLoop_retry _ _ _ _ _ m _ _
               {| world := w1; calls := log ++ [CallExecutor] |});
      [ | lia
        | apply shouldAutoRetry_true_intro;
          [cbn; lia | now apply retryableFailure_hasCode | exact Hlevel]
        | now apply invoke_returned ].
    rewrite (proj1 Hm), eqb_refl. cbn [negb].
    rewrite IH; [| exact Hm | lia].
    f_equal.
    + destruct ms as [| m' ms]; [reflexivity |].
      change (last (m :: m' :: ms) current) with (last (m' :: ms) current).
      apply last_nonempty.
    + lia.
    + f_equal. now rewrite <- app_assoc.
Qed.

(** X3.  executeWithRetry returns the initial failure unchanged and never
    runs the executor when the budget is not positive, when the failure's
    code is not in the retryable set (an unknown or missing code included),
    or when the level is neither assisted nor autonomous. *)
Theorem executeWithRetry_needs_permission (failure : MessageEnvelope)
    (level : jsstring) (maxRetries : Z) (executor : M MessageEnvelope)
    (c : Cell) :
  (maxRetries <= 0)%Z
  \/ hasCode RETRYABLE_ERROR_CODES (payloadCode failure) = false
  \/ ~ retryingLevel level ->
  executeWithRetry failure level maxRetries executor c = (Returned failure, c).
Proof.
  intros Hno. unfold executeWithRetry. apply retryLoop_stops.
  destruct (shouldRetry _) eqn:Hretry; [| reflexivity].
  apply shouldAutoRetry_true_inv in Hretry. cbn in Hretry.
  destruct Hretry as (Hlt & Hcode & Hlevel).
  destruct Hno as [Hno | [Hno | Hno]]; [lia | congruence | contradiction].
Qed.

(** X4.  Whatever the executor does, executeWithRetry runs it at most
    maxRetries times, and adds nothing else to the call log. *)
Theorem executeWithRetry_bounded (f : External MessageEnvelope)
    (failure : MessageEnvelope) (level : jsstring) (maxRetries : Z)
    (c : Cell) :
  exists n,
    (n <= Z.to_nat maxRetries)%nat
    /\ calls (snd (executeWithRetry failure level maxRetries
                     (invoke CallExecutor f) c))
       = calls c ++ repeat CallExecutor n.
Proof.
  unfold executeWithRetry.
  assert (Hloop : forall fuel current attempts c0,
             exists n,
               (n <= Z.to_nat (maxRetries - attempts))%nat
               /\ calls (snd (retryLoop fuel level maxRetries
                                (invoke CallExecutor f) current attempts c0))
                  = calls c0 ++ repeat CallExecutor n).
  { induction fuel as [| fuel IH]; intros current attempts c0.
    - exists 0%nat. simpl. split; [lia | now rewrite app_nil_r].
    - cbn [retryLoop].
      destruct (attempts <? maxRetries)%Z eqn:Hlt;
        [| exists 0%nat; simpl; split; [lia | now rewrite app_nil_r]].
      apply Z.ltb_lt in Hlt.
      destruct (negb _);
        [exists 0%nat; simpl; split; [lia | now rewrite app_nil_r] |].
      unfold bind, invoke at 1.
      destruct (f (world c0)) as [[result | e] w'].
      + destruct (negb _).
        * exists 1%nat. simpl. split; [lia | reflexivity].
        * destruct (IH result (attempts + 1)%Z
                      {| world := w'; calls := calls c0 ++ [CallExecutor] |})
            as (n & Hn & Hcalls).
          exists (S n). split; [lia |].
          rewrite Hcalls. simpl. now rewrite <- app_assoc.
      + exists 1%nat. simpl. split; [lia | reflexivity]. }
  destruct (Hloop (S (Z.to_nat maxRetries)) failure 0%Z c) as (n & Hn & Hcalls).
  exists n. split; [rewrite Z.sub_0_r in Hn; exact Hn | exact Hcalls].
Qed.

(** X5.  Under assisted or autonomous autonomy, when the executor returns
    retryable failures on its first k calls and something that is not a
    failure on the next one, with k below the budget, executeWithRetry
    returns that result after exactly k + 1 calls. *)
Theorem executeWithRetry_first_success (f : External MessageEnvelope)
    (failure success : MessageEnvelope) (failures : list MessageEnvelope)
    (level : jsstring) (maxRetries : Z) (w0 w1 w2 : World)
    (log : list Call) :
  retryingLevel level ->
  retryableFailure failure ->
  FailsRepeatedly f w0 failures w1 ->
  f w1 = (Returned success, w2) ->
  msg_type success <> lit "failure" ->
  (Z.of_nat (List.length failures) < maxRetries)%Z ->
  executeWithRetry failure level maxRetries (invoke CallExecutor f)
                   {| world := w0; calls := log |}
  = (Returned success,
     {| world := w2;
        calls := log ++ repeat CallExecutor (S (List.length failures)) |}).
Proof.
  intros Hlevel Hfail Hruns Hcall Hok Hbudget.
  rewrite (executeWithRetry_fuel_enough _ _ _ _
             (List.length failures + S (Z.to_nat maxRetries))) by lia.
  rewrite (retryLoop_through_failures f level maxRetries _ Hlevel
             _ _ _ _ _ _ Hruns Hfail) by lia.
  rewrite (retryLoop_retry _ _ _ _ _ success _ _
             {| world := w2;
                calls := (log ++ repeat CallExecutor (List.length failures))
                         ++ [CallExecutor] |});
    [ | lia
      | apply shouldAutoRetry_true_intro;
        [ cbn; lia
        | cbn [Retry.failure]; apply retryableFailure_hasCode;
          now apply (last_retryable f w0 w1)
        | exact Hlevel ]
      | now apply invoke_returned ].
  apply eqb_neq in Hok. rewrite Hok. cbn [negb].
  now rewrite <- app_assoc, repeat_snoc.
Qed.

(** X6.  Under assisted or autonomous autonomy, when the executor returns
    a retryable failure on each of its first maxRetries calls,
    executeWithRetry returns the last of these failures after exactly
    maxRetries calls. *)
Theorem executeWithRetry_exhausted (f : External MessageEnvelope)
    (failure : MessageEnvelope) (failures : list MessageEnvelope)
    (level : jsstring) (maxRetries : Z) (w0 w1 : World) (log : list Call) :
  retryingLevel level ->
  retryableFailure failure ->
  FailsRepeatedly f w0 failures w1 ->
  Z.of_nat (List.length failures) = maxRetries ->
  executeWithRetry failure level maxRetries (invoke CallExecutor f)
                   {| world := w0; calls := log |}
  = (Returned (last failures failure),
     {| world := w1;
        calls := log ++ repeat CallExecutor (List.length failures) |}).
Proof.
  intros Hlevel Hfail Hruns Hbudget.
  rewrite (executeWithRetry_fuel_enough _ _ _ _
             (List.length failures + S (Z.to_nat maxRetries))) by lia.
  rewrite (retryLoop_through_failures f level maxRetries _ Hlevel
             _ _ _ _ _ _ Hruns Hfail) by lia.
  cbn [retryLoop].
  replace (0 + Z.of_nat (List.length failures) <? maxRetries)%Z with false
    by (symmetry; apply Z.ltb_ge; lia).
  reflexivity.
Qed.

(** X7.  executeWithRetry does not catch what the executor throws: after k
    retryable failures, with k below the budget, an exception of the next
    call ends the loop and reaches the caller. *)
Theorem executeWithRetry_propagates (f : External MessageEnvelope)
    (failure : MessageEnvelope) (failures : list MessageEnvelope)
    (e : Thrown) (level : jsstring) (maxRetries : Z) (w0 w1 w2 : World)
    (log : list Call) :
  retryingLevel level ->
  retryableFailure failure ->
  FailsRepeatedly f w0 failures w1 ->
  f w1 = (Threw e, w2) ->
  (Z.of_nat (List.length failures) < maxRetries)%Z ->
  executeWithRetry failure level maxRetries (invoke CallExecutor f)
                   {| world := w0; calls := log |}
  = (Threw e,
     {| world := w2;
        calls := log ++ repeat CallExecutor (S (List.length failures)) |}).
Proof.
  intros Hlevel Hfail Hruns Hcall Hbudget.
  rewrite (executeWithRetry_fuel_enough _ _ _ _
             (List.length failures + S (Z.to_nat maxRetries))) by lia.
  rewrite (retryLoop_through_failures f level maxRetries _ Hlevel
             _ _ _ _ _ _ Hruns Hfail) by lia.
  rewrite (retryLoop_throws _ _ _ _ _ _ _
             {| world := w2;
                calls := (log ++ repeat CallExecutor (List.length failures))
                         ++ [CallExecutor] |} e);
    [ | lia
      | apply shouldAutoRetry_true_intro;
        [ cbn; lia
        | cbn [Retry.failure]; apply retryableFailure_hasCode;
          now apply (last_retryable f w0 w1)
        | exact Hlevel ]
      | now apply invoke_threw ].
  now rewrite <- app_assoc, repeat_snoc.
Qed.

End WithHost.

Import Fixtures.

(** An executor that fails with AGENT_ERROR until its call number
    [crashAt], which throws. *)
Definition crashingExecutor (crashAt : nat)
    : External (H := testHost) MessageEnvelope :=
  fun w =>
    let callCount := S (callCount w) in
    (if Nat.ltb callCount crashAt
     then Returned (createFailure ErrorCode.AGENT_ERROR (lit "Attempt failed"))
     else Threw (ErrorObject (lit "Executor crashed")),
     {| callCount := callCount; uuidCounter := uuidCounter w;
        abortedFlag := abortedFlag w |}).

Lemma testFailure_retryable (message : jsstring) :
  retryableFailure (createFailure ErrorCode.AGENT_ERROR message).
Proof.
  split; [reflexivity |].
  exists ErrorCode.AGENT_ERROR. split; [reflexivity | simpl; auto].
Qed.

Lemma executeWithRetry_needs_permission_witness :
  executeWithRetry (H := testHost)
    (createFailure ErrorCode.AGENT_ERROR (lit "Test failure"))
    (lit "manual") 2 (invoke CallExecutor (scriptedExecutor 1)) freshCell
  = (Returned (createFailure ErrorCode.AGENT_ERROR (lit "Test failure")),
     freshCell).
Proof.
  apply (executeWithRetry_needs_permission (H := testHost)).
  right; right. intros [Hl | Hl]; discriminate Hl.
Defined.

Lemma executeWithRetry_first_success_witness :
  fst (executeWithRetry (H := testHost)
         (createFailure ErrorCode.TIMEOUT (lit "Test failure"))
         (lit "autonomous") 5 (invoke CallExecutor (scriptedExecutor 3))
         freshCell)
  = Returned (createResult (lit "Final success")).
Proof.
  unfold freshCell.
  rewrite (executeWithRetry_first_success (H := testHost)
             (scriptedExecutor 3)
             (createFailure ErrorCode.TIMEOUT (lit "Test failure"))
             (createResult (lit "Final success"))
             [createFailure ErrorCode.AGENT_ERROR (lit "Attempt failed");
              createFailure ErrorCode.AGENT_ERROR (lit "Attempt failed")]
             (lit "autonomous") 5 freshWorld
             {| callCount := 2; uuidCounter := 0; abortedFlag := false |}
             {| callCount := 3; uuidCounter := 0; abortedFlag := false |}
             []).
  - reflexivity.
  - right; reflexivity.
  - split; [reflexivity |].
    exists ErrorCode.TIMEOUT. split; [reflexivity | simpl; auto].
  - eapply FailsAgain; [reflexivity | apply testFailure_retryable |].
    eapply FailsAgain; [reflexivity | apply testFailure_retryable |].
    apply FailsNoMore.
  - reflexivity.
  - discriminate.
  - simpl; lia.
Defined.

Lemma executeWithRetry_exhausted_witness :
  executeWithRetry (H := testHost)
    (createFailure ErrorCode.AGENT_ERROR (lit "Test failure"))
    (lit "assisted") 2 (invoke CallExecutor (scriptedExecutor 9)) freshCell
  = (Returned (createFailure ErrorCode.AGENT_ERROR (lit "Attempt failed")),
     Build_Cell (H := testHost)
       {| callCount := 2; uuidCounter := 0; abortedFlag := false |}
       [CallExecutor; CallExecutor]).
Proof.
  apply (executeWithRetry_exhausted (H := testHost)
           (scriptedExecutor 9)
           (createFailure ErrorCode.AGENT_ERROR (lit "Test failure"))
           [createFailure ErrorCode.AGENT_ERROR (lit "Attempt failed");
            createFailure ErrorCode.AGENT_ERROR (lit "Attempt failed")]
           (lit "assisted") 2 freshWorld
           {| callCount := 2; uuidCounter := 0; abortedFlag := false |} []).
  - left; reflexivity.
  - apply testFailure_retryable.
  - eapply FailsAgain; [reflexivity | apply testFailure_retryable |].
    eapply FailsAgain; [reflexivity | apply testFailure_retryable |].
    apply FailsNoMore.
  - reflexivity.
Defined.

Lemma executeWithRetry_propagates_witness :
  executeWithRetry (H := testHost)
    (createFailure ErrorCode.AGENT_ERROR (lit "Test failure"))
    (lit "assisted") 3 (invoke CallExecutor (crashingExecutor 2)) freshCell
  = (Threw (ErrorObject (lit "Executor crashed")),
     Build_Cell (H := testHost)
       {| callCount := 2; uuidCounter := 0; abortedFlag := false |}
       [CallExecutor; CallExecutor]).
Proof.
  apply (executeWithRetry_propagates (H := testHost)
           (crashingExecutor 2)
           (createFailure ErrorCode.AGENT_ERROR (lit "Test failure"))
           [createFailure ErrorCode.AGENT_ERROR (lit "Attempt failed")]
           (ErrorObject (lit "Executor crashed"))
           (lit "assisted") 3 freshWorld
           {| callCount := 1; uuidCounter := 0; abortedFlag := false |}
           {| callCount := 2; uuidCounter := 0; abortedFlag := false |} []).
  - left; reflexivity.
  - apply testFailure_retryable.
  - eapply FailsAgain; [reflexivity | apply testFailure_retryable |].
    apply FailsNoMore.
  - reflexivity.
  - simpl; lia.
Defined.

End RetryMore.

(** ** plugin/gates.ts *)

Module GateMore.
Import Autonomy Gates.

(** The context [dispatchToAgent] hands to the gate: the decision is the one
    [determineGate] takes for the level and the classification. *)
Definition policyContext (task : TaskMessage) (level classification : jsstring)
    : GateContext :=
  {| task := task;
     autonomyLevel := level;
     classification := classification;
     decision := determineGate level classification |}.

Section WithHost.
Context `{Host}.

Lemma enforce_block_run (ctx : GateContext) (c : Cell) :
  decision ctx = lit "block" ->
  enforcePreDispatchGate ctx c
  = (Returned
       (Denied
          {| msg_type := lit "failure";
             msg_session_id := Some (fst (host_randomUUID (world c)));
             msg_timestamp := host_now (snd (host_randomUUID (world c)));
             msg_payload :=
               FailurePayload
                 (Some (agent_id (task_payload (task ctx))))
                 ErrorCode.AUTONOMY_BLOCKED
                 (lit "Operation blocked: " ++ classification ctx
                  ++ lit " action not permitted in " ++ autonomyLevel ctx
                  ++ lit " mode")
                 (Some
                    (lit "The operation targeting agent " ++ dquote
                     ++ agent_id (task_payload (task ctx)) ++ dquote
                     ++ lit " was classified as " ++ dquote
                     ++ classification ctx ++ dquote
                     ++ lit " and is blocked under the current autonomy level "
                     ++ dquote ++ autonomyLevel ctx ++ dquote ++ lit ".")) |}),
     ValidationFacts.afterUUID c).
Proof.
  intros Hd. unfold enforcePreDispatchGate. rewrite Hd.
  change (Js.eqb (lit "block") (lit "proceed")) with false.
  change (Js.eqb (lit "block") (lit "require_approval")) with false.
  change (Js.eqb (lit "block") (lit "block")) with true.
  cbv iota.
  unfold bind at 1.
  unfold createBlockedFailure, bind, randomUUID, nowTimestamp, ret,
    ValidationFacts.afterUUID.
  destruct (host_randomUUID (world c)) as [uuid w']. reflexivity.
Qed.

Lemma enforce_escalate_run (ctx : GateContext) (c : Cell) :
  decision ctx <> lit "proceed" ->
  decision ctx <> lit "block" ->
  exists response,
    enforcePreDispatchGate ctx c = (Returned (Denied response), c)
    /\ msg_type response = lit "escalation".
Proof.
  intros Hp Hb. apply eqb_neq in Hp, Hb.
  unfold enforcePreDispatchGate. rewrite Hp, Hb.
  destruct (Js.eqb (decision ctx) (lit "require_approval"));
    unfold bind; rewrite GateFacts.createApprovalEscalation_run;
    eexists; split; reflexivity.
Qed.

(** X8.  A block decision denies the dispatch with a failure envelope of
    code AUTONOMY_BLOCKED for the target agent: its message names the
    classification and the autonomy level, its cause names the agent, and
    its session id is the one fresh UUID the gate draws. *)
Theorem enforcePreDispatchGate_blocks (ctx : GateContext) (c : Cell) :
  decision ctx = lit "block" ->
  exists response message cause,
    enforcePreDispatchGate ctx c
    = (Returned (Denied response), ValidationFacts.afterUUID c)
    /\ msg_type response = lit "failure"
    /\ msg_session_id response = Some (fst (host_randomUUID (world c)))
    /\ msg_payload response
       = FailurePayload (Some (agent_id (task_payload (task ctx))))
                        ErrorCode.AUTONOMY_BLOCKED message (Some cause)
    /\ includes message (classification ctx)
    /\ includes message (autonomyLevel ctx)
    /\ includes cause (agent_id (task_payload (task ctx)))
    /\ includes cause (classification ctx)
    /\ includes cause (autonomyLevel ctx).
Proof.
  intros Hd. eexists _, _, _.
  split; [apply enforce_block_run; exact Hd |].
  cbn [msg_type msg_session_id msg_payload].
  repeat (split; [reflexivity |]).
  repeat split;
    repeat first [ apply includes_here | apply includes_later ].
Qed.

(** When [determineGate] lets an action proceed. *)
Definition proceeds (level classification : jsstring) : Prop :=
  (level = lit "assisted"
   /\ classification <> lit "dangerous"
   /\ classification <> lit "significant")
  \/ (level = lit "autonomous" /\ classification <> lit "dangerous").

(** When [determineGate] blocks an action. *)
Definition blocked (level classification : jsstring) : Prop :=
  classification = lit "dangerous"
  /\ (level = lit "supervised" \/ level = lit "assisted").

Ltac literal_cases :=
  intuition (try discriminate; try congruence).

Lemma determineGate_cases (level classification : jsstring) :
  (determineGate level classification = lit "proceed"
   /\ proceeds level classification)
  \/ (determineGate level classification = lit "block"
      /\ blocked level classification)
  \/ (determineGate level classification = lit "require_approval"
      /\ ~ proceeds level classification
      /\ ~ blocked level classification).
Proof.
  unfold determineGate, proceeds, blocked.
  destruct (Js.eqb level (lit "supervised")) eqn:Hs;
    [apply eqb_eq in Hs; subst level | apply eqb_neq in Hs].
  - destruct (Js.eqb classification (lit "dangerous")) eqn:Hd;
      [apply eqb_eq in Hd | apply eqb_neq in Hd]; literal_cases.
  - destruct (Js.eqb level (lit "assisted")) eqn:Ha;
      [apply eqb_eq in Ha; subst level | apply eqb_neq in Ha].
    + destruct (Js.eqb classification (lit "dangerous")) eqn:Hd;
        [apply eqb_eq in Hd | apply eqb_neq in Hd]; [literal_cases |].
      destruct (Js.eqb classification (lit "significant")) eqn:Hg;
        [apply eqb_eq in Hg | apply eqb_neq in Hg]; literal_cases.
    + destruct (Js.eqb level (lit "autonomous")) eqn:Hn;
        [apply eqb_eq in Hn; subst level | apply eqb_neq in Hn];
        [| literal_cases].
      destruct (Js.eqb classification (lit "dangerous")) eqn:Hd;
        [apply eqb_eq in Hd | apply eqb_neq in Hd]; literal_cases.
Qed.

(** X9.  The gate applied to the decision of determineGate: a dispatch is
    allowed exactly for a non-dangerous, non-significant action under
    assisted autonomy and for a non-dangerous action under autonomous
    autonomy; it is refused with a failure exactly for a dangerous action
    under supervised or assisted autonomy; every other combination, an
    unrecognized level included, is answered by an escalation. *)
Theorem gate_policy (task : TaskMessage) (level classification : jsstring)
    (c : Cell) :
  (fst (enforcePreDispatchGate (policyContext task level classification) c)
   = Returned Allowed
   <-> proceeds level classification)
  /\ ((exists response,
          fst (enforcePreDispatchGate (policyContext task level classification) c)
          = Returned (Denied response)
          /\ msg_type response = lit "failure")
      <-> blocked level classification)
  /\ ((exists response,
          fst (enforcePreDispatchGate (policyContext task level classification) c)
          = Returned (Denied response)
          /\ msg_type response = lit "escalation")
      <-> ~ proceeds level classification /\ ~ blocked level classification).
Proof.
  assert (Hexcl : proceeds level classification ->
                  blocked level classification -> False)
    by (unfold proceeds, blocked; literal_cases).
  destruct (determineGate_cases level classification)
    as [[Hd Hwhen] | [[Hd Hwhen] | (Hd & Hnp & Hnb)]].
  - rewrite (DispatchFacts.gate_proceeds
               (policyContext task level classification) c Hd). cbn [fst].
    split; [tauto |].
    split; (split; [intros (response & E & _); discriminate E | tauto]).
  - rewrite (enforce_block_run (policyContext task level classification) c Hd).
    cbn [fst].
    split; [split; [discriminate | intros Hp; exfalso; now apply Hexcl] |].
    split; split.
    + intros _. exact Hwhen.
    + intros _. eexists. split; reflexivity.
    + intros (response & E & Ht). exfalso.
      injection E as <-. discriminate Ht.
    + tauto.
  - destruct (enforce_escalate_run (policyContext task level classification) c)
      as (response & Hrun & Htype);
      [cbn [decision policyContext]; rewrite Hd; discriminate
      | cbn [decision policyContext]; rewrite Hd; discriminate |].
    rewrite Hrun. cbn [fst].
    split; [split; [discriminate | tauto] |].
    split; split.
    + intros (response' & E & Ht). exfalso.
      injection E as <-. rewrite Htype in Ht. discriminate Ht.
    + tauto.
    + tauto.
    + intros _. exists response. split; [reflexivity | exact Htype].
Qed.

End WithHost.

Import Fixtures.

Lemma enforcePreDispatchGate_blocks_witness :
  exists response,
    enforcePreDispatchGate (H := testHost)
      {| task := createTaskMessage (lit "coder") (lit "Do something");
         autonomyLevel := lit "supervised";
         classification := lit "dangerous";
         decision := lit "block" |}
      freshCell
    = (Returned (Denied response), ValidationFacts.afterUUID freshCell)
    /\ msg_session_id response = Some (lit "uuid-0").
Proof.
  destruct (enforcePreDispatchGate_blocks (H := testHost)
              {| task := createTaskMessage (lit "coder") (lit "Do something");
                 autonomyLevel := lit "supervised";
                 classification := lit "dangerous";
                 decision := lit "block" |}
              freshCell eq_refl)
    as (response & message & cause & Hrun & _ & Hid & _).
  exists response. split; [exact Hrun | exact Hid].
Defined.

End GateMore.

(** ** plugin/autonomy.ts *)

Module AutonomyMore.
Import RegExp Autonomy AutonomyFacts.

Section Resolve.
(** [OrcaSettings] is declared in config.ts; the functions below read its
    optional [autonomy] field only. *)
Variable OrcaSettings : Type.
Variable autonomy : OrcaSettings -> option jsstring.

(** [settings?.autonomy ?? DEFAULT_AUTONOMY_LEVEL] *)
Definition resolveAutonomyLevel (settings : option OrcaSettings) : jsstring :=
  match settings with
  | Some s =>
      match autonomy s with
      | Some level => level
      | None => DEFAULT_AUTONOMY_LEVEL
      end
  | None => DEFAULT_AUTONOMY_LEVEL
  end.

Definition resolveAutonomyConfig (settings : option OrcaSettings)
    : AutonomyConfig :=
  {| level := resolveAutonomyLevel settings;
     maxRetries := maxRetries DEFAULT_AUTONOMY_CONFIG |}.

End Resolve.

Arguments resolveAutonomyLevel {OrcaSettings} autonomy settings.
Arguments resolveAutonomyConfig {OrcaSettings} autonomy settings.

(** The order of the classifications by severity. *)
Definition classRank (classification : jsstring) : nat :=
  if Js.eqb classification (lit "dangerous") then 2
  else if Js.eqb classification (lit "significant") then 1
  else 0.

(** *** Matching inside a longer text *)

Lemma matchHere_prev (re : RegExp.t) (prev prev' : option N) (s : jsstring) :
  wordBefore prev = wordBefore prev' ->
  matchHere re prev s = matchHere re prev' s.
Proof.
  intros Hw. revert s.
  induction re as [| [p | |] re IH]; intros s; simpl.
  - reflexivity.
  - reflexivity.
  - now rewrite Hw, IH.
  - reflexivity.
Qed.

Lemma matchHere_extend (re : RegExp.t) :
  forall prev s t,
    wordAfter t = false ->
    matchHere re prev s = true ->
    matchHere re prev (s ++ t) = true.
Proof.
  induction re as [| [p | |] re IH]; intros prev s t Ht Hm.
  - reflexivity.
  - destruct s as [| c s]; [discriminate Hm |].
    simpl in *. apply andb_true_iff in Hm as [Hc Hm].
    rewrite Hc. simpl. now apply IH.
  - simpl in *. apply andb_true_iff in Hm as [Hb Hm].
    rewrite (IH _ _ _ Ht Hm), andb_true_r.
    destruct s as [| c s]; simpl in *; [now rewrite Ht | exact Hb].
  - simpl in *. revert Hm.
    induction s as [| c s IHs]; [discriminate |].
    simpl. intros Hm. apply andb_true_iff in Hm as [Hc Hm].
    rewrite Hc. simpl.
    apply orb_true_iff in Hm as [Hm | Hm].
    + rewrite (IHs Hm). reflexivity.
    + rewrite (IH _ _ _ Ht Hm). apply orb_true_r.
Qed.

Lemma search_split (re : RegExp.t) :
  forall s prev,
    search re prev s = true ->
    exists s1 s2, s = s1 ++ s2 /\ matchHere re (lastCode prev s1) s2 = true.
Proof.
  induction s as [| c s IH]; intros prev Hs; simpl in Hs.
  - exists [], []. split; [reflexivity |].
    now rewrite orb_false_r in Hs.
  - apply orb_true_iff in Hs as [Hs | Hs].
    + exists [], (c :: s). split; [reflexivity | exact Hs].
    + destruct (IH _ Hs) as (s1 & s2 & -> & Hm).
      exists (c :: s1), s2. split; [reflexivity | exact Hm].
Qed.

Lemma lastCode_nonempty (prev prev' : option N) (c : N) (s : jsstring) :
  lastCode prev (c :: s) = lastCode prev' (c :: s).
Proof. reflexivity. Qed.

Lemma test_embedded (re : RegExp.t) (before text after : jsstring) :
  wordBefore (lastCode None before) = false ->
  wordAfter after = false ->
  test re text = true ->
  test re (before ++ text ++ after) = true.
Proof.
  intros Hb Ha Ht. unfold test in *.
  destruct (search_split re text None Ht) as (s1 & s2 & -> & Hm).
  rewrite <- app_assoc, app_assoc.
  apply search_found. rewrite lastCode_app.
  apply matchHere_extend; [exact Ha |].
  destruct s1 as [| c s1].
  - simpl in *. rewrite (matchHere_prev re _ None); [exact Hm | exact Hb].
  - rewrite (lastCode_nonempty _ None). exact Hm.
Qed.

Lemma anyPatternMatches_embedded (patterns : list RegExp.t)
    (before text after : jsstring) :
  wordBefore (lastCode None before) = false ->
  wordAfter after = false ->
  anyPatternMatches patterns text = true ->
  anyPatternMatches patterns (before ++ text ++ after) = true.
Proof.
  intros Hb Ha. unfold anyPatternMatches. rewrite !existsb_exists.
  intros (re & Hin & Ht). exists re. split; [exact Hin |].
  now apply test_embedded.
Qed.

(** *** Literal words and runs of whitespace *)

Lemma matchHere_chars (word word' : jsstring) (re : RegExp.t) :
  sameUpToCase word word' ->
  forall prev s,
    matchHere (map Char word ++ re) prev (word' ++ s)
    = matchHere re (lastCode prev word') s.
Proof.
  unfold sameUpToCase. revert word'.
  induction word as [| p word IH]; intros [| c word'] Hsame prev s;
    try discriminate Hsame.
  - reflexivity.
  - injection Hsame as Hc Hsame. simpl.
    unfold charMatches. rewrite Hc, N.eqb_refl. simpl.
    now apply IH.
Qed.

(** The inner loop of [matchHere] for [\s+]. *)
Fixpoint spacesThen (re : RegExp.t) (s : jsstring) : bool :=
  match s with
  | c :: s' =>
      isWhiteSpace c && (spacesThen re s' || matchHere re (Some c) s')
  | [] => false
  end.

Lemma matchHere_spacesThen (re : RegExp.t) (prev : option N) (s : jsstring) :
  matchHere (Whitespaces :: re) prev s = spacesThen re s.
Proof.
  induction s as [| c s IH]; [reflexivity |].
  simpl in *. now rewrite IH.
Qed.

Lemma matchHere_whitespaces (re : RegExp.t) (c : N) (spaces s : jsstring) :
  forallb isWhiteSpace (c :: spaces) = true ->
  matchHere re (lastCode None (c :: spaces)) s = true ->
  forall prev, matchHere (Whitespaces :: re) prev ((c :: spaces) ++ s) = true.
Proof.
  intros Hws Hm prev. rewrite matchHere_spacesThen. clear prev.
  revert c Hws Hm. induction spaces as [| d spaces IH]; intros c Hws Hm;
    cbn [forallb] in Hws; apply andb_true_iff in Hws as [Hc Hws].
  - change (spacesThen re ([c] ++ s))
      with (isWhiteSpace c && (spacesThen re s || matchHere re (Some c) s)).
    cbn [lastCode] in Hm. rewrite Hc, Hm. apply orb_true_r.
  - change (spacesThen re ((c :: d :: spaces) ++ s))
      with (isWhiteSpace c
            && (spacesThen re ((d :: spaces) ++ s)
                || matchHere re (Some c) ((d :: spaces) ++ s))).
    rewrite Hc, (IH d Hws Hm). reflexivity.
Qed.

Lemma matchHere_boundary (re : RegExp.t) (prev : option N) (s : jsstring) :
  matchHere (WordBoundary :: re) prev s
  = negb (Bool.eqb (wordBefore prev) (wordAfter s)) && matchHere re prev s.
Proof. reflexivity. Qed.

Lemma wordAfter_word (word word' rest : jsstring) :
  sameUpToCase word word' ->
  word <> [] ->
  wordAfter (word' ++ rest) = wordAfter word.
Proof.
  unfold sameUpToCase.
  destruct word as [| p word], word' as [| c word']; intros Hsame Hne;
    try discriminate Hsame; [contradiction |].
  injection Hsame as Hc _. simpl. symmetry. now apply isWordChar_canon.
Qed.

Lemma wordBefore_word (word word' : jsstring) (prev : option N) :
  sameUpToCase word word' ->
  word <> [] ->
  wordBefore (lastCode prev word') = wordBefore (lastCode None word).
Proof.
  unfold sameUpToCase. revert word' prev.
  induction word as [| p word IH]; intros [| c word'] prev Hsame Hne;
    try discriminate Hsame; [contradiction |].
  injection Hsame as Hc Hsame.
  destruct word as [| q word].
  - destruct word'; [| discriminate Hsame].
    simpl. symmetry. now apply isWordChar_canon.
  - cbn [lastCode]. rewrite (IH word' (Some c) Hsame); [| discriminate].
    reflexivity.
Qed.

Section Classify.
Variable AgentConfig : Type.
Implicit Types (task : TaskMessage) (agents : Registry AgentConfig).

Lemma classifyAction_value task agents :
  classifyAction task agents
  = if anyPatternMatches DANGEROUS_PATTERNS (prompt (task_payload task))
    then lit "dangerous"
    else if has SIGNIFICANT_AGENTS (agent_id (task_payload task))
              || anyPatternMatches SIGNIFICANT_PATTERNS
                   (prompt (task_payload task))
         then lit "significant"
         else lit "routine".
Proof.
  unfold classifyAction.
  destruct (anyPatternMatches DANGEROUS_PATTERNS _); [reflexivity |].
  change (has DANGEROUS_AGENTS (agent_id (task_payload task))) with false.
  cbv iota.
  destruct (has SIGNIFICANT_AGENTS _); [reflexivity |].
  destruct (anyPatternMatches SIGNIFICANT_PATTERNS _); [reflexivity |].
  now destruct (has ROUTINE_AGENTS _).
Qed.

(** X10.  The classification is one of the three values, and each is
    reached in exactly one way: dangerous by dangerous wording alone (no
    agent is dangerous by default), significant by a significant-set agent
    or significant wording when no dangerous wording is present, routine by
    neither. *)
Theorem classifyAction_exactly task agents :
  (classifyAction task agents = lit "dangerous"
   <-> anyPatternMatches DANGEROUS_PATTERNS (prompt (task_payload task)) = true)
  /\ (classifyAction task agents = lit "significant"
      <-> anyPatternMatches DANGEROUS_PATTERNS (prompt (task_payload task)) = false
          /\ (In (agent_id (task_payload task))
                 [lit "coder"; lit "tester"; lit "document-writer";
                  lit "strategist"]
              \/ anyPatternMatches SIGNIFICANT_PATTERNS
                   (prompt (task_payload task)) = true))
  /\ (classifyAction task agents = lit "routine"
      <-> anyPatternMatches DANGEROUS_PATTERNS (prompt (task_payload task)) = false
          /\ ~ In (agent_id (task_payload task))
                  [lit "coder"; lit "tester"; lit "document-writer";
                   lit "strategist"]
          /\ anyPatternMatches SIGNIFICANT_PATTERNS
               (prompt (task_payload task)) = false)
  /\ In (classifyAction task agents)
        [lit "routine"; lit "significant"; lit "dangerous"].
Proof.
  rewrite classifyAction_value.
  change [lit "coder"; lit "tester"; lit "document-writer"; lit "strategist"]
    with SIGNIFICANT_AGENTS.
  rewrite <- (has_In SIGNIFICANT_AGENTS).
  destruct (anyPatternMatches DANGEROUS_PATTERNS _).
  - repeat split; try discriminate; try tauto;
      try (intros [E _]; discriminate E). simpl; auto.
  - destruct (has SIGNIFICANT_AGENTS _); cbn [orb].
    + repeat split; try discriminate; try tauto;
        try (intros (_ & E & _); now elim E). simpl; auto.
    + destruct (anyPatternMatches SIGNIFICANT_PATTERNS _).
      * repeat split; try discriminate; try tauto;
          try (intros (_ & _ & E); discriminate E). simpl; auto.
      * repeat split; try discriminate; try tauto;
          try (intros (_ & [E | E]); discriminate E). simpl; auto.
Qed.

(** X11.  Quoting a prompt inside a longer text never lowers its
    classification: when the text before does not end with a word character
    and the text after does not start with one, the longer prompt is
    classified at least as high, for the same target agent. *)
Theorem classifyAction_embedded task task' agents (before after : jsstring) :
  agent_id (task_payload task') = agent_id (task_payload task) ->
  prompt (task_payload task') = before ++ prompt (task_payload task) ++ after ->
  wordBefore (lastCode None before) = false ->
  wordAfter after = false ->
  (classRank (classifyAction task agents)
   <= classRank (classifyAction task' agents))%nat.
Proof.
  intros Hid Hp Hb Ha. rewrite !classifyAction_value, Hid, Hp.
  pose proof (anyPatternMatches_embedded DANGEROUS_PATTERNS before
                (prompt (task_payload task)) after Hb Ha) as Hd.
  pose proof (anyPatternMatches_embedded SIGNIFICANT_PATTERNS before
                (prompt (task_payload task)) after Hb Ha) as Hs.
  destruct (anyPatternMatches DANGEROUS_PATTERNS (prompt (task_payload task))).
  - rewrite Hd by reflexivity. apply le_n.
  - destruct (anyPatternMatches DANGEROUS_PATTERNS
                (before ++ prompt (task_payload task) ++ after)).
    + destruct (_ || _); vm_compute; lia.
    + destruct (has SIGNIFICANT_AGENTS _); cbn [orb]; [apply le_n |].
      destruct (anyPatternMatches SIGNIFICANT_PATTERNS
                  (prompt (task_payload task))).
      * rewrite Hs by reflexivity. apply le_n.
      * destruct (anyPatternMatches SIGNIFICANT_PATTERNS _); vm_compute; lia.
Qed.

(** The two-word dangerous idioms of DANGEROUS_PATTERNS. *)
Definition dangerousIdioms : list (string * string) :=
  [("remove", "all"); ("rm", "-rf"); ("force", "push"); ("reset", "--hard")]%string.

(** X12.  Each two-word dangerous idiom (remove all, rm -rf, force push,
    reset --hard) is recognised in any letter case and with any non-empty
    run of whitespace between its words, wherever it stands in the prompt
    between non-word characters: the task is classified dangerous for every
    agent. *)
Theorem classifyAction_idioms task agents (first second : string)
    (first' second' spaces before after : jsstring) :
  In (first, second) dangerousIdioms ->
  sameUpToCase (lit first) first' ->
  sameUpToCase (lit second) second' ->
  spaces <> [] ->
  forallb isWhiteSpace spaces = true ->
  wordBefore (lastCode None before) = false ->
  wordAfter after = false ->
  prompt (task_payload task) = before ++ first' ++ spaces ++ second' ++ after ->
  classifyAction task agents = lit "dangerous".
Proof.
  intros Hin Hf Hs Hne Hws Hb Ha Hp.
  rewrite classifyAction_value, Hp.
  replace (anyPatternMatches DANGEROUS_PATTERNS _) with true; [reflexivity |].
  symmetry.
  assert (Hwords : lit first <> [] /\ lit second <> []
                   /\ wordAfter (lit first) = true
                   /\ wordBefore (lastCode None (lit second)) = true).
  { simpl in Hin.
    destruct Hin as [E | [E | [E | [E | []]]]]; injection E as <- <-;
      repeat split; discriminate. }
  destruct Hwords as (Hfne & Hsne & Hfw & Hsw).
  apply anyPatternMatches_found
    with (re := WordBoundary :: chars first ++ Whitespaces :: chars second
                  ++ [WordBoundary]).
  - simpl in Hin.
    destruct Hin as [E | [E | [E | [E | []]]]]; injection E as <- <-;
      simpl; tauto.
  - destruct spaces as [| c spaces]; [contradiction |].
    rewrite matchHere_boundary, Hb.
    rewrite (wordAfter_word _ _ _ Hf Hfne), Hfw. cbn [Bool.eqb negb andb].
    unfold chars. rewrite (matchHere_chars _ _ _ Hf).
    apply matchHere_whitespaces; [exact Hws |].
    rewrite (matchHere_chars _ _ _ Hs), matchHere_boundary.
    rewrite (wordBefore_word _ _ _ Hs Hsne), Hsw, Ha. reflexivity.
Qed.

End Classify.

(** X13.  Without an autonomy setting the resolved level is supervised,
    the retry budget is 2 whatever the settings say, and determineGate lets
    an action proceed only when the settings name assisted or autonomous. *)
Theorem resolveAutonomyConfig_default (OrcaSettings : Type)
    (autonomy : OrcaSettings -> option jsstring) :
  resolveAutonomyConfig autonomy None = DEFAULT_AUTONOMY_CONFIG
  /\ (forall settings,
        autonomy settings = None ->
        resolveAutonomyConfig autonomy (Some settings) = DEFAULT_AUTONOMY_CONFIG)
  /\ (forall settings,
        maxRetries (resolveAutonomyConfig autonomy settings) = 2%Z)
  /\ (forall settings classification,
        determineGate (level (resolveAutonomyConfig autonomy settings))
                      classification
        = lit "proceed" ->
        exists s,
          settings = Some s
          /\ (autonomy s = Some (lit "assisted")
              \/ autonomy s = Some (lit "autonomous"))).
Proof.
  split; [reflexivity |].
  split; [intros settings Hnone; unfold resolveAutonomyConfig,
            resolveAutonomyLevel; now rewrite Hnone |].
  split; [reflexivity |].
  intros settings classification Hgate.
  assert (Hlevel : level (resolveAutonomyConfig autonomy settings)
                   = lit "assisted"
                   \/ level (resolveAutonomyConfig autonomy settings)
                      = lit "autonomous").
  { destruct (GateMore.determineGate_cases
                (level (resolveAutonomyConfig autonomy settings)) classification)
      as [[_ [(Hl & _) | (Hl & _)]] | [[Hd _] | (Hd & _)]];
      [now left | now right
      | rewrite Hd in Hgate; discriminate Hgate
      | rewrite Hd in Hgate; discriminate Hgate]. }
  cbn [level resolveAutonomyConfig] in Hlevel.
  unfold resolveAutonomyLevel in Hlevel.
  destruct settings as [s |];
    [| destruct Hlevel as [Hl | Hl]; discriminate Hl].
  exists s. split; [reflexivity |].
  destruct (autonomy s) as [configured |];
    [| destruct Hlevel as [Hl | Hl]; discriminate Hl].
  destruct Hlevel as [-> | ->]; auto.
Qed.

Import Fixtures.

Lemma resolveAutonomyConfig_default_witness :
  resolveAutonomyConfig (fun settings : option jsstring => settings)
                        (Some None)
  = DEFAULT_AUTONOMY_CONFIG.
Proof.
  apply (proj1 (proj2 (resolveAutonomyConfig_default
                         (option jsstring) (fun settings => settings)))).
  reflexivity.
Defined.

Lemma classifyAction_embedded_witness :
  (classRank
     (classifyAction
        (createTaskMessage (lit "researcher") (lit "Delete all files"))
        testAgents)
   <= classRank
        (classifyAction
           (createTaskMessage (lit "researcher")
              (lit "Summarise this note: " ++ lit "Delete all files"
               ++ lit ". Thanks"))
           testAgents))%nat.
Proof.
  apply (classifyAction_embedded unit
           (createTaskMessage (lit "researcher") (lit "Delete all files"))
           (createTaskMessage (lit "researcher")
              (lit "Summarise this note: " ++ lit "Delete all files"
               ++ lit ". Thanks"))
           testAgents (lit "Summarise this note: ") (lit ". Thanks"));
    reflexivity.
Defined.

Lemma classifyAction_idioms_witness :
  classifyAction
    (createTaskMessage (lit "researcher")
       (lit "please " ++ lit "RM" ++ [9; 32] ++ lit "-Rf" ++ lit " ./build"))
    testAgents
  = lit "dangerous".
Proof.
  apply (classifyAction_idioms unit _ testAgents "rm" "-rf"
           (lit "RM") (lit "-Rf") [9; 32] (lit "please ") (lit " ./build"));
    try reflexivity.
  - simpl; tauto.
  - discriminate.
Defined.

End AutonomyMore.

(** ** Classification by wording *)

(** The wording that [DANGEROUS_PATTERNS] and [SIGNIFICANT_PATTERNS] look
    for, described on the prompt itself: where the words stand and what
    surrounds them. *)

Module Wording.
Import RegExp Autonomy AutonomyFacts.

(** The four forms of the patterns of autonomy.ts. *)
Inductive Idiom :=
| Word (word : string)             (* /\bword\b/i *)
| Phrase (first second : string)   (* /\bfirst\s+second\b/i *)
| Ending (text : string)           (* /text\b/i *)
| Beginning (text : string).       (* /\btext/i *)

(** [s] is [text] up to the case of its letters. *)
Definition reads (text : string) (s : jsstring) : Prop :=
  sameUpToCase (lit text) s.

(** The text [before] a position does not end with a word character. *)
Definition notInWord (before : jsstring) : Prop :=
  wordBefore (lastCode None before) = false.

(** The text [after] a position does not start with a word character. *)
Definition wordEnds (after : jsstring) : Prop :=
  wordAfter after = false.

(** The idiom stands somewhere in the prompt. *)
Definition occurs (idiom : Idiom) (prompt : jsstring) : Prop :=
  match idiom with
  | Word word =>
      exists before w after,
        prompt = before ++ w ++ after
        /\ reads word w /\ notInWord before /\ wordEnds after
  | Phrase first second =>
      exists before a spaces b after,
        prompt = before ++ a ++ spaces ++ b ++ after
        /\ reads first a /\ reads second b
        /\ spaces <> [] /\ forallb isWhiteSpace spaces = true
        /\ notInWord before /\ wordEnds after
  | Ending text =>
      exists before w after,
        prompt = before ++ w ++ after /\ reads text w /\ wordEnds after
  | Beginning text =>
      exists before w after,
        prompt = before ++ w ++ after /\ reads text w /\ notInWord before
  end.

Definition worded (idioms : list Idiom) (prompt : jsstring) : Prop :=
  exists idiom, In idiom idioms /\ occurs idiom prompt.

(** The dangerous wording: the words delete, drop, truncate, wipe and
    destroy, the phrases remove all, rm -rf, force push and reset --hard,
    and the flag --force. *)
Definition dangerousWording : list Idiom := [
  Word "delete"; Word "drop"; Phrase "remove" "all"; Word "truncate";
  Word "wipe"; Word "destroy"; Phrase "rm" "-rf"; Phrase "force" "push";
  Ending "--force"; Phrase "reset" "--hard"
].

(** The significant wording: the words modify, update, change, create,
    write, implement, refactor, fix, add and install, and the words that
    begin with migrat or deploy. *)
Definition significantWording : list Idiom := [
  Word "modify"; Word "update"; Word "change"; Word "create"; Word "write";
  Word "implement"; Word "refactor"; Word "fix"; Word "add";
  Beginning "migrat"; Beginning "deploy"; Word "install"
].

End Wording.

Module WordingFacts.
Import RegExp Autonomy AutonomyFacts AutonomyMore Wording.

(** The regular expression of an idiom. *)
Definition regexOf (idiom : Idiom) : RegExp.t :=
  match idiom with
  | Word word => WordBoundary :: chars word ++ [WordBoundary]
  | Phrase first second =>
      WordBoundary :: chars first ++ Whitespaces :: chars second
      ++ [WordBoundary]
  | Ending text => chars text ++ [WordBoundary]
  | Beginning text => WordBoundary :: chars text
  end.

Definition startsAsWord (text : string) : bool := wordAfter (lit text).

Definition endsAsWord (text : string) : bool :=
  match lit text with
  | [] => false
  | c :: rest => wordBefore (lastCode None (c :: rest))
  end.

(** The idiom begins and ends with a word character where it meets a word
    boundary of its regular expression. *)
Definition shaped (idiom : Idiom) : bool :=
  match idiom with
  | Word word => startsAsWord word && endsAsWord word
  | Phrase first second => startsAsWord first && endsAsWord second
  | Ending text => endsAsWord text
  | Beginning text => startsAsWord text
  end.

Lemma startsAsWord_spec (text : string) (w rest : jsstring) :
  startsAsWord text = true ->
  reads text w ->
  wordAfter (w ++ rest) = true.
Proof.
  unfold startsAsWord, reads. intros Hs Hr.
  rewrite (wordAfter_word (lit text) w rest Hr); [exact Hs |].
  intros E. rewrite E in Hs. discriminate Hs.
Qed.

Lemma endsAsWord_spec (text : string) (w : jsstring) (prev : option N) :
  endsAsWord text = true ->
  reads text w ->
  wordBefore (lastCode prev w) = true.
Proof.
  unfold endsAsWord, reads. intros He Hr.
  destruct (lit text) as [| c rest] eqn:E; [discriminate He |].
  rewrite (wordBefore_word (c :: rest) w prev Hr); [exact He | discriminate].
Qed.

(** *** What a match tells about the string *)

Lemma matchHere_chars_inv (word : jsstring) (re : RegExp.t) :
  forall prev s,
    matchHere (map Char word ++ re) prev s = true ->
    exists w rest,
      s = w ++ rest /\ sameUpToCase word w
      /\ matchHere re (lastCode prev w) rest = true.
Proof.
  induction word as [| p word IH]; intros prev s Hm.
  - exists [], s. repeat split. exact Hm.
  - destruct s as [| c s]; [discriminate Hm |].
    cbn [map app matchHere] in Hm. apply andb_true_iff in Hm as [Hc Hm].
    destruct (IH _ _ Hm) as (w & rest & -> & Hsame & Hrest).
    exists (c :: w), rest. split; [reflexivity |]. split; [| exact Hrest].
    unfold sameUpToCase in *. cbn [map]. f_equal; [| exact Hsame].
    unfold charMatches in Hc. now apply N.eqb_eq in Hc.
Qed.

Lemma spacesThen_inv (re : RegExp.t) (s : jsstring) :
  spacesThen re s = true ->
  exists c spaces rest,
    s = (c :: spaces) ++ rest
    /\ forallb isWhiteSpace (c :: spaces) = true
    /\ matchHere re (lastCode None (c :: spaces)) rest = true.
Proof.
  induction s as [| c s IH]; [discriminate |].
  cbn [spacesThen]. intros Hm. apply andb_true_iff in Hm as [Hc Hm].
  apply orb_true_iff in Hm as [Hm | Hm].
  - destruct (IH Hm) as (d & spaces & rest & -> & Hws & Hrest).
    exists c, (d :: spaces), rest. split; [reflexivity |].
    split; [| exact Hrest].
    change (forallb isWhiteSpace (c :: d :: spaces))
      with (isWhiteSpace c && forallb isWhiteSpace (d :: spaces)).
    now rewrite Hc, Hws.
  - exists c, [], s. split; [reflexivity |]. split; [| exact Hm].
    cbn [forallb]. now rewrite Hc.
Qed.

Lemma boundary_after_word (prev : option N) (s : jsstring) :
  wordBefore prev = true ->
  matchHere [WordBoundary] prev s = negb (wordAfter s).
Proof.
  intros Hp. cbn [matchHere]. rewrite Hp, andb_true_r.
  now destruct (wordAfter s).
Qed.

Lemma boundary_before_word (re : RegExp.t) (prev : option N) (s : jsstring) :
  wordAfter s = true ->
  matchHere (WordBoundary :: re) prev s
  = negb (wordBefore prev) && matchHere re prev s.
Proof.
  intros Hs. cbn [matchHere]. rewrite Hs.
  now destruct (wordBefore prev).
Qed.

Lemma test_iff (re : RegExp.t) (prompt : jsstring) :
  test re prompt = true
  <-> exists before s,
        prompt = before ++ s /\ matchHere re (lastCode None before) s = true.
Proof.
  unfold test. split.
  - apply search_split.
  - intros (before & s & -> & Hm). now apply search_found.
Qed.

(** *** A pattern matches exactly where its idiom occurs *)

Lemma test_word (word : string) (prompt : jsstring) :
  shaped (Word word) = true ->
  test (regexOf (Word word)) prompt = true <-> occurs (Word word) prompt.
Proof.
  cbn [shaped regexOf occurs]. intros Hshape.
  apply andb_true_iff in Hshape as [Hstart Hend].
  rewrite test_iff. split.
  - intros (before & s & -> & Hm).
    change (WordBoundary :: chars word ++ [WordBoundary])
      with (WordBoundary :: map Char (lit word) ++ [WordBoundary]) in Hm.
    assert (Hchars : matchHere (map Char (lit word) ++ [WordBoundary])
                       (lastCode None before) s = true)
      by (cbn [matchHere] in Hm; now apply andb_true_iff in Hm as [_ Hm]).
    destruct (matchHere_chars_inv _ _ _ _ Hchars)
      as (w & after & -> & Hsame & Hafter).
    rewrite boundary_before_word in Hm
      by exact (startsAsWord_spec word w after Hstart Hsame).
    apply andb_true_iff in Hm as [Hbefore _].
    rewrite boundary_after_word in Hafter
      by exact (endsAsWord_spec word w _ Hend Hsame).
    exists before, w, after. split; [reflexivity |]. split; [exact Hsame |].
    split; [unfold notInWord | unfold wordEnds].
    + now destruct (wordBefore (lastCode None before)).
    + now destruct (wordAfter after).
  - intros (before & w & after & -> & Hsame & Hbefore & Hafter).
    exists before, (w ++ after). split; [reflexivity |].
    rewrite boundary_before_word
      by exact (startsAsWord_spec word w after Hstart Hsame).
    unfold notInWord in Hbefore. rewrite Hbefore. cbn [negb andb].
    unfold chars. rewrite (matchHere_chars _ _ _ Hsame).
    rewrite boundary_after_word
      by exact (endsAsWord_spec word w _ Hend Hsame).
    unfold wordEnds in Hafter. now rewrite Hafter.
Qed.

Lemma test_ending (text : string) (prompt : jsstring) :
  shaped (Ending text) = true ->
  test (regexOf (Ending text)) prompt = true <-> occurs (Ending text) prompt.
Proof.
  cbn [shaped regexOf occurs]. intros Hend.
  rewrite test_iff. unfold chars. split.
  - intros (before & s & -> & Hm).
    destruct (matchHere_chars_inv _ _ _ _ Hm)
      as (w & after & -> & Hsame & Hafter).
    rewrite boundary_after_word in Hafter
      by exact (endsAsWord_spec text w _ Hend Hsame).
    exists before, w, after. split; [reflexivity |]. split; [exact Hsame |].
    unfold wordEnds. now destruct (wordAfter after).
  - intros (before & w & after & -> & Hsame & Hafter).
    exists before, (w ++ after). split; [reflexivity |].
    rewrite (matchHere_chars _ _ _ Hsame).
    rewrite boundary_after_word
      by exact (endsAsWord_spec text w _ Hend Hsame).
    unfold wordEnds in Hafter. now rewrite Hafter.
Qed.

Lemma test_beginning (text : string) (prompt : jsstring) :
  shaped (Beginning text) = true ->
  test (regexOf (Beginning text)) prompt = true
  <-> occurs (Beginning text) prompt.
Proof.
  cbn [shaped regexOf occurs]. intros Hstart.
  rewrite test_iff. split.
  - intros (before & s & -> & Hm).
    assert (Hchars : matchHere (map Char (lit text) ++ [])
                       (lastCode None before) s = true).
    { rewrite app_nil_r. cbn [matchHere] in Hm.
      now apply andb_true_iff in Hm as [_ Hm]. }
    destruct (matchHere_chars_inv _ _ _ _ Hchars)
      as (w & after & -> & Hsame & _).
    rewrite boundary_before_word in Hm
      by exact (startsAsWord_spec text w after Hstart Hsame).
    apply andb_true_iff in Hm as [Hbefore _].
    exists before, w, after. split; [reflexivity |]. split; [exact Hsame |].
    unfold notInWord. now destruct (wordBefore (lastCode None before)).
  - intros (before & w & after & -> & Hsame & Hbefore).
    exists before, (w ++ after). split; [reflexivity |].
    rewrite boundary_before_word
      by exact (startsAsWord_spec text w after Hstart Hsame).
    unfold notInWord in Hbefore. rewrite Hbefore. cbn [negb andb].
    unfold chars. rewrite <- (app_nil_r (map Char (lit text))).
    now rewrite (matchHere_chars _ _ _ Hsame).
Qed.

Lemma test_phrase (first second : string) (prompt : jsstring) :
  shaped (Phrase first second) = true ->
  test (regexOf (Phrase first second)) prompt = true
  <-> occurs (Phrase first second) prompt.
Proof.
  cbn [shaped regexOf occurs]. intros Hshape.
  apply andb_true_iff in Hshape as [Hstart Hend].
  rewrite test_iff. unfold chars. split.
  - intros (before & s & -> & Hm).
    assert (Hchars : matchHere
                       (map Char (lit first)
                        ++ Whitespaces :: map Char (lit second)
                        ++ [WordBoundary])
                       (lastCode None before) s = true)
      by (cbn [matchHere] in Hm; now apply andb_true_iff in Hm as [_ Hm]).
    destruct (matchHere_chars_inv _ _ _ _ Hchars)
      as (a & rest & -> & Hfirst & Hrest).
    rewrite boundary_before_word in Hm
      by exact (startsAsWord_spec first a rest Hstart Hfirst).
    apply andb_true_iff in Hm as [Hbefore _].
    rewrite matchHere_spacesThen in Hrest.
    destruct (spacesThen_inv _ _ Hrest)
      as (c & spaces & rest' & -> & Hws & Hsecond).
    destruct (matchHere_chars_inv _ _ _ _ Hsecond)
      as (b & after & -> & Hsame & Hafter).
    rewrite boundary_after_word in Hafter
      by exact (endsAsWord_spec second b _ Hend Hsame).
    exists before, a, (c :: spaces), b, after.
    split; [reflexivity |]. split; [exact Hfirst |]. split; [exact Hsame |].
    split; [discriminate |]. split; [exact Hws |].
    split; [unfold notInWord | unfold wordEnds].
    + now destruct (wordBefore (lastCode None before)).
    + now destruct (wordAfter after).
  - intros (before & a & spaces & b & after & -> & Hfirst & Hsecond
            & Hne & Hws & Hbefore & Hafter).
    exists before, (a ++ spaces ++ b ++ after). split; [reflexivity |].
    rewrite boundary_before_word
      by exact (startsAsWord_spec first a _ Hstart Hfirst).
    unfold notInWord in Hbefore. rewrite Hbefore. cbn [negb andb].
    rewrite (matchHere_chars _ _ _ Hfirst).
    destruct spaces as [| c spaces]; [now elim Hne |].
    apply matchHere_whitespaces; [exact Hws |].
    rewrite (matchHere_chars _ _ _ Hsecond).
    rewrite boundary_after_word
      by exact (endsAsWord_spec second b _ Hend Hsecond).
    unfold wordEnds in Hafter. now rewrite Hafter.
Qed.

Lemma test_occurs (idiom : Idiom) (prompt : jsstring) :
  shaped idiom = true ->
  test (regexOf idiom) prompt = true <-> occurs idiom prompt.
Proof.
  destruct idiom;
    [apply test_word | apply test_phrase | apply test_ending
     | apply test_beginning].
Qed.

Lemma anyPatternMatches_worded (idioms : list Idiom) (prompt : jsstring) :
  forallb shaped idioms = true ->
  anyPatternMatches (map regexOf idioms) prompt = true
  <-> worded idioms prompt.
Proof.
  intros Hshape. unfold anyPatternMatches, worded.
  rewrite existsb_exists. rewrite forallb_forall in Hshape. split.
  - intros (re & Hin & Htest). apply in_map_iff in Hin as (idiom & <- & Hin).
    exists idiom. split; [exact Hin |].
    now apply test_occurs; [apply Hshape |].
  - intros (idiom & Hin & Hocc). exists (regexOf idiom).
    split; [now apply in_map |].
    now apply test_occurs; [apply Hshape |].
Qed.

(** The patterns of autonomy.ts are those of the wording above. *)
Lemma dangerous_worded (prompt : jsstring) :
  anyPatternMatches DANGEROUS_PATTERNS prompt = true
  <-> worded dangerousWording prompt.
Proof.
  change DANGEROUS_PATTERNS with (map regexOf dangerousWording).
  now apply anyPatternMatches_worded.
Qed.

Lemma significant_worded (prompt : jsstring) :
  anyPatternMatches SIGNIFICANT_PATTERNS prompt = true
  <-> worded significantWording prompt.
Proof.
  change SIGNIFICANT_PATTERNS with (map regexOf significantWording).
  now apply anyPatternMatches_worded.
Qed.

Lemma not_worded (idioms : list Idiom) (patterns : list RegExp.t)
    (prompt : jsstring) :
  (anyPatternMatches patterns prompt = true <-> worded idioms prompt) ->
  anyPatternMatches patterns prompt = false <-> ~ worded idioms prompt.
Proof.
  intros Hiff. rewrite <- Hiff.
  destruct (anyPatternMatches patterns prompt); split; congruence.
Qed.

Section Classify.
Variable AgentConfig : Type.
Implicit Types (task : TaskMessage) (agents : Registry AgentConfig).

(** C2, as the code has it.  classifyAction follows the priority order for
    every task.  Dangerous wording in the prompt, and nothing else (no
    agent is dangerous by itself), gives dangerous, whatever the target
    agent.  Otherwise the agents coder, tester, document-writer and
    strategist give significant; otherwise significant wording gives
    significant; otherwise the task is routine, for researcher and
    reviewer as for an unknown agent.  The wording is read without regard
    to the case of letters and at word boundaries: the prompts that hold
    Delete all the old files not preceded by a word character, or
    git push --force not followed by one, are dangerous for every agent. *)
Theorem classifyAction_priority :
  (forall task agents,
      classifyAction task agents = lit "dangerous"
      <-> worded dangerousWording (prompt (task_payload task)))
  /\ (forall task agents,
        ~ worded dangerousWording (prompt (task_payload task)) ->
        In (agent_id (task_payload task))
           [lit "coder"; lit "tester"; lit "document-writer";
            lit "strategist"] ->
        classifyAction task agents = lit "significant")
  /\ (forall task agents,
        ~ worded dangerousWording (prompt (task_payload task)) ->
        worded significantWording (prompt (task_payload task)) ->
        classifyAction task agents = lit "significant")
  /\ (forall task agents,
        ~ worded dangerousWording (prompt (task_payload task)) ->
        ~ worded significantWording (prompt (task_payload task)) ->
        ~ In (agent_id (task_payload task))
             [lit "coder"; lit "tester"; lit "document-writer";
              lit "strategist"] ->
        classifyAction task agents = lit "routine")
  /\ (forall task task' agents,
        agent_id (task_payload task) = agent_id (task_payload task') ->
        sameUpToCase (prompt (task_payload task)) (prompt (task_payload task')) ->
        classifyAction task agents = classifyAction task' agents)
  /\ (forall task agents before after,
        notInWord before ->
        prompt (task_payload task)
        = before ++ lit "Delete all the old files" ++ after ->
        classifyAction task agents = lit "dangerous")
  /\ (forall task agents before after,
        wordEnds after ->
        prompt (task_payload task) = before ++ lit "git push --force" ++ after ->
        classifyAction task agents = lit "dangerous").
Proof.
  assert (Hdanger : forall task agents,
             classifyAction task agents = lit "dangerous"
             <-> worded dangerousWording (prompt (task_payload task))).
  { intros task agents. rewrite <- dangerous_worded, classifyAction_value.
    destruct (anyPatternMatches DANGEROUS_PATTERNS _); [tauto |].
    destruct (_ || _); split; discriminate. }
  assert (Hfour : forall id,
             has SIGNIFICANT_AGENTS id = true
             <-> In id [lit "coder"; lit "tester"; lit "document-writer";
                        lit "strategist"])
    by (intros id; apply (has_In SIGNIFICANT_AGENTS)).
  split; [exact Hdanger |].
  split; [| split; [| split; [| split; [| split]]]].
  - intros task agents Hno Hagent. rewrite classifyAction_value.
    apply (not_worded _ _ _ (dangerous_worded _)) in Hno. rewrite Hno.
    apply Hfour in Hagent. now rewrite Hagent.
  - intros task agents Hno Hsig. rewrite classifyAction_value.
    apply (not_worded _ _ _ (dangerous_worded _)) in Hno. rewrite Hno.
    apply significant_worded in Hsig. rewrite Hsig. now rewrite orb_true_r.
  - intros task agents Hno Hnosig Hagent. rewrite classifyAction_value.
    apply (not_worded _ _ _ (dangerous_worded _)) in Hno. rewrite Hno.
    apply (not_worded _ _ _ (significant_worded _)) in Hnosig. rewrite Hnosig.
    destruct (has SIGNIFICANT_AGENTS _) eqn:E; [| reflexivity].
    apply Hfour in E. contradiction.
  - intros task task' agents Hid Hp. rewrite !classifyAction_value.
    now rewrite Hid, (anyPatternMatches_canon DANGEROUS_PATTERNS _ _ Hp),
      (anyPatternMatches_canon SIGNIFICANT_PATTERNS _ _ Hp).
  - intros task agents before after Hbefore Hp. apply Hdanger. rewrite Hp.
    exists (Word "delete"). split; [simpl; auto |].
    exists before, (lit "Delete"), (lit " all the old files" ++ after).
    split; [reflexivity |]. split; [reflexivity |].
    split; [exact Hbefore | reflexivity].
  - intros task agents before after Hafter Hp. apply Hdanger. rewrite Hp.
    exists (Ending "--force"). split; [simpl; tauto |].
    exists (before ++ lit "git push "), (lit "--force"), after.
    split; [rewrite <- app_assoc; reflexivity |].
    split; [reflexivity | exact Hafter].
Qed.

End Classify.

Import Fixtures.

(** The claim read to the letter fails: a prompt can hold the words of a
    dangerous pattern and be routine, when a word character is glued to
    them. *)
Lemma glued_wording_is_routine :
  includes (lit "xDelete all the old files") (lit "Delete all the old files")
  /\ classifyAction
       (createTaskMessage (lit "researcher") (lit "xDelete all the old files"))
       testAgents
     = lit "routine"
  /\ includes (lit "Run git push --forced") (lit "git push --force")
  /\ classifyAction
       (createTaskMessage (lit "researcher") (lit "Run git push --forced"))
       testAgents
     = lit "routine".
Proof.
  split; [exists (lit "x"), []; reflexivity |].
  split; [vm_compute; reflexivity |].
  split; [exists (lit "Run "), (lit "d"); reflexivity |].
  vm_compute; reflexivity.
Qed.

(** Four cases of autonomy.test.ts: 'detects delete pattern as dangerous',
    'classifies coder as significant', 'detects update pattern as
    significant for routine agent' and 'classifies unknown agent as routine
    by default'. *)
Lemma classifyAction_priority_witness :
  classifyAction
    (createTaskMessage (lit "researcher") (lit "Delete all the old files"))
    testAgents
  = lit "dangerous"
  /\ classifyAction
       (createTaskMessage (lit "coder") (lit "Do something")) testAgents
     = lit "significant"
  /\ classifyAction
       (createTaskMessage (lit "reviewer") (lit "Update the documentation"))
       testAgents
     = lit "significant"
  /\ classifyAction
       (createTaskMessage (lit "custom-agent") (lit "Do something generic"))
       testAgents
     = lit "routine".
Proof.
  destruct (classifyAction_priority unit)
    as (_ & Hagent & Hwording & Hroutine & _ & Hdelete & _).
  split; [| split; [| split]].
  - apply (Hdelete _ _ [] []); reflexivity.
  - apply Hagent.
    + now apply (not_worded _ _ _ (dangerous_worded _)).
    + simpl. auto.
  - apply Hwording.
    + now apply (not_worded _ _ _ (dangerous_worded _)).
    + exists (Word "update"). split; [simpl; auto |].
      exists [], (lit "Update"), (lit " the documentation").
      repeat split.
  - apply Hroutine.
    + now apply (not_worded _ _ _ (dangerous_worded _)).
    + now apply (not_worded _ _ _ (significant_worded _)).
    + simpl. intros [E | [E | [E | [E | []]]]]; discriminate E.
Defined.

End WordingFacts.

(** ** plugin/dispatch.ts *)

Module DispatchMore.
Import Autonomy Gates Validation Dispatch.
Import ValidationFacts DispatchFacts RetryMore GateMore.

(** The texts [extractTextFromParts] joins: those of the text parts. *)
Definition textsOf (parts : list Part) : list jsstring :=
  map (fun part => match part_text part with Some t => t | None => [] end)
      (filter isTextPart parts).

Lemma join_cons (sep p : jsstring) (q : jsstring) (rest : list jsstring) :
  join sep (p :: q :: rest) = p ++ sep ++ join sep (q :: rest).
Proof. reflexivity. Qed.

Lemma join_app (sep : jsstring) (xs ys : list jsstring) :
  xs <> [] -> ys <> [] ->
  join sep (xs ++ ys) = join sep xs ++ sep ++ join sep ys.
Proof.
  intros Hx Hy. destruct ys as [| y ys]; [contradiction |]. clear Hy.
  induction xs as [| p xs IH]; [contradiction |].
  destruct xs as [| q xs].
  - reflexivity.
  - change ((p :: q :: xs) ++ y :: ys) with (p :: q :: (xs ++ y :: ys)).
    rewrite !join_cons.
    change (q :: xs ++ y :: ys) with ((q :: xs) ++ y :: ys).
    rewrite IH by discriminate. now rewrite <- !app_assoc.
Qed.

Lemma textsOf_app (a b : list Part) : textsOf (a ++ b) = textsOf a ++ textsOf b.
Proof. unfold textsOf. now rewrite filter_app, map_app. Qed.

(** X14.  extractTextFromParts reads text parts only, and the text of two
    lists of parts put together is the two texts joined by a line break,
    unless one list has no text part, in which case it is the text of the
    other. *)
Theorem extractTextFromParts_app (a b : list Part) :
  extractTextFromParts (filter isTextPart a) = extractTextFromParts a
  /\ extractTextFromParts (a ++ b)
     = match textsOf a, textsOf b with
       | [], _ => extractTextFromParts b
       | _, [] => extractTextFromParts a
       | _, _ => extractTextFromParts a ++ nl ++ extractTextFromParts b
       end.
Proof.
  split.
  - unfold extractTextFromParts. f_equal. f_equal.
    induction a as [| part a IH]; [reflexivity |]. simpl.
    destruct (isTextPart part) eqn:Ht; simpl; [rewrite Ht, IH |]; auto.
  - change (extractTextFromParts (a ++ b)) with (join nl (textsOf (a ++ b))).
    change (extractTextFromParts a) with (join nl (textsOf a)).
    change (extractTextFromParts b) with (join nl (textsOf b)).
    rewrite textsOf_app.
    destruct (textsOf a) as [| x xs] eqn:Ha; [reflexivity |].
    destruct (textsOf b) as [| y ys] eqn:Hb; [now rewrite app_nil_r |].
    apply join_app; discriminate.
Qed.

(** X15.  The text is empty exactly when no text part was returned or the
    only text part has an empty text: two text parts, even both empty, give
    a text that holds the line break between them. *)
Theorem extractTextFromParts_empty (parts : list Part) :
  extractTextFromParts parts = []
  <-> textsOf parts = [] \/ textsOf parts = [[]].
Proof.
  change (extractTextFromParts parts) with (join nl (textsOf parts)).
  destruct (textsOf parts) as [| p [| q rest]].
  - simpl. tauto.
  - simpl. split; [intros ->; auto | intros [E | E]; [discriminate E |]].
    now injection E.
  - rewrite join_cons. split.
    + intros E. apply app_eq_nil in E as [_ E]. discriminate E.
    + intros [E | E]; discriminate E.
Qed.

Section WithHost.
Context `{Host}.
Variable AgentConfig : Type.
Implicit Types (ctx : DispatchContext AgentConfig) (c : Cell)
         (task : TaskMessage).

(** The gate context [dispatchToAgent] builds for a task. *)
Definition gateOf ctx task : GateContext :=
  policyContext task (level (configOf AgentConfig ctx))
                (classifyAction task (agents ctx)).

Lemma dispatch_known ctx task (messageJson : jsstring) c :
  parseTaskMessage messageJson = Some task ->
  registryHas (agents ctx) (agent_id (task_payload task)) = true ->
  dispatchToAgent messageJson ctx c
  = match enforcePreDispatchGate (gateOf ctx task) c with
    | (Returned Allowed, c1) =>
        tryCatch (executionPhase task ctx (configOf AgentConfig ctx)
                                 (classifyAction task (agents ctx)))
                 (executionFailed ctx) c1
    | (Returned (Denied response), c1) =>
        (Returned (JSON_stringify response), c1)
    | (Threw e, c1) => (Threw e, c1)
    end.
Proof.
  intros Hparse Hreg. unfold dispatchToAgent. fold (configOf AgentConfig ctx).
  rewrite Hparse, Hreg. cbn [negb]. unfold bind at 1.
  fold (policyContext task (level (configOf AgentConfig ctx))
          (classifyAction task (agents ctx))).
  fold (gateOf ctx task).
  destruct (enforcePreDispatchGate (gateOf ctx task) c) as [[[| response] | e] c1];
    reflexivity.
Qed.

(** What the gate answers when it does not let the dispatch proceed. *)
Lemma gate_denies (gate : GateContext) c :
  decision gate <> lit "proceed" ->
  exists response c',
    enforcePreDispatchGate gate c = (Returned (Denied response), c')
    /\ calls c' = calls c
    /\ ((decision gate = lit "block"
         /\ msg_type response = lit "failure"
         /\ payloadCode response = Some ErrorCode.AUTONOMY_BLOCKED)
        \/ (decision gate <> lit "block"
            /\ msg_type response = lit "escalation")).
Proof.
  intros Hp.
  destruct (Js.eqb (decision gate) (lit "block")) eqn:Hb;
    [apply eqb_eq in Hb | apply eqb_neq in Hb].
  - eexists _, _. split; [apply enforce_block_run; exact Hb |].
    split; [reflexivity |]. left. repeat split. exact Hb.
  - destruct (enforce_escalate_run gate c Hp Hb) as (response & Hrun & Ht).
    exists response, c. split; [exact Hrun |].
    split; [reflexivity |]. right. split; assumption.
Qed.

Lemma failure_call_free (code message : jsstring) (cause : option jsstring) c :
  calls (snd (bind (createFailureMessage code message cause)
                   (fun failure => ret (JSON_stringify failure)) c))
  = calls c.
Proof.
  destruct (serialized_failure code message cause c) as (m & c' & Hrun & _).
  destruct (createFailureMessage_run code message cause c) as (m' & Hrun' & _).
  unfold bind in *. rewrite Hrun' in *. reflexivity.
Qed.

(** X16.  A dispatch that is rejected before execution has no side effect
    on the client: when the message is not a valid task, when the agent is
    not in the registry, or when the gate decision is not proceed, the
    call log is left as it was. *)
Theorem dispatchToAgent_rejects_quietly (messageJson : jsstring) ctx c :
  parseTaskMessage messageJson = None
  \/ (exists task,
        parseTaskMessage messageJson = Some task
        /\ (registryHas (agents ctx) (agent_id (task_payload task)) = false
            \/ determineGate (level (configOf AgentConfig ctx))
                             (classifyAction task (agents ctx))
               <> lit "proceed")) ->
  calls (snd (dispatchToAgent messageJson ctx c)) = calls c.
Proof.
  intros [Hparse | (task & Hparse & Hwhy)].
  - unfold dispatchToAgent. rewrite Hparse. apply failure_call_free.
  - destruct (registryHas (agents ctx) (agent_id (task_payload task))) eqn:Hreg.
    + destruct Hwhy as [Hwhy | Hgate]; [discriminate Hwhy |].
      rewrite (dispatch_known ctx task _ c Hparse Hreg).
      destruct (gate_denies (gateOf ctx task) c Hgate)
        as (response & c' & -> & Hcalls & _).
      exact Hcalls.
    + unfold dispatchToAgent. rewrite Hparse, Hreg. cbn [negb].
      apply failure_call_free.
Qed.

(** X17.  Under supervised autonomy, which is also the level in force when
    the context carries no autonomy configuration, and under any level that
    is neither assisted nor autonomous, a valid task for a registered agent
    is never executed: the answer is the gate's escalation, or its
    AUTONOMY_BLOCKED failure for a dangerous task under supervised
    autonomy, and the client is not called. *)
Theorem dispatchToAgent_gated (messageJson : jsstring) ctx c task :
  parseTaskMessage messageJson = Some task ->
  registryHas (agents ctx) (agent_id (task_payload task)) = true ->
  ~ retryingLevel (level (configOf AgentConfig ctx)) ->
  exists response c',
    dispatchToAgent messageJson ctx c = (Returned (JSON_stringify response), c')
    /\ calls c' = calls c
    /\ ((msg_type response = lit "failure"
         /\ payloadCode response = Some ErrorCode.AUTONOMY_BLOCKED
         /\ level (configOf AgentConfig ctx) = lit "supervised"
         /\ classifyAction task (agents ctx) = lit "dangerous")
        \/ msg_type response = lit "escalation").
Proof.
  intros Hparse Hreg Hlevel.
  rewrite (dispatch_known ctx task _ c Hparse Hreg).
  destruct (determineGate_cases (level (configOf AgentConfig ctx))
              (classifyAction task (agents ctx)))
    as [[Hd Hwhen] | [[Hd Hwhen] | (Hd & _)]].
  - exfalso. apply Hlevel. destruct Hwhen as [(Hl & _) | (Hl & _)];
      [now left | now right].
  - assert (Hp : decision (gateOf ctx task) <> lit "proceed")
      by (cbn [decision gateOf policyContext]; rewrite Hd; discriminate).
    destruct (gate_denies (gateOf ctx task) c Hp)
      as (response & c' & -> & Hcalls & Hkind).
    exists response, c'. split; [reflexivity |]. split; [exact Hcalls |].
    destruct Hkind as [(_ & Ht & Hcode) | (Hb & _)].
    + left. repeat split; try assumption.
      * destruct Hwhen as [_ [Hl | Hl]]; [exact Hl |].
        exfalso. apply Hlevel. now left.
      * apply Hwhen.
    + exfalso. apply Hb. exact Hd.
  - assert (Hp : decision (gateOf ctx task) <> lit "proceed")
      by (cbn [decision gateOf policyContext]; rewrite Hd; discriminate).
    destruct (gate_denies (gateOf ctx task) c Hp)
      as (response & c' & -> & Hcalls & Hkind).
    exists response, c'. split; [reflexivity |]. split; [exact Hcalls |].
    destruct Hkind as [(Hb & _) | (_ & Ht)]; [| now right].
    cbn [decision gateOf policyContext] in Hb. rewrite Hd in Hb.
    discriminate Hb.
Qed.

Lemma invoke_run {A} (tag : Call) (f : External A) (r : Outcome A)
    (w' : World) c :
  f (world c) = (r, w') ->
  invoke tag f c = (r, {| world := w'; calls := calls c ++ [tag] |}).
Proof. unfold invoke. now intros ->. Qed.

Lemma failureWith_code (code : jsstring) (cause : option jsstring)
    (m : MessageEnvelope) :
  failureWith code cause m ->
  msg_type m = lit "failure" /\ payloadCode m = Some code.
Proof.
  intros (Ht & agent & message & Hp). split; [exact Ht |].
  unfold payloadCode. now rewrite Hp.
Qed.

Lemma gate_allows ctx task c :
  determineGate (level (configOf AgentConfig ctx))
                (classifyAction task (agents ctx)) = lit "proceed" ->
  enforcePreDispatchGate (gateOf ctx task) c = (Returned Allowed, c).
Proof. intros Hgate. now apply gate_proceeds. Qed.

(** X18.  When no parent session is given and session creation returns no
    id, the dispatch answers SESSION_NOT_FOUND after that one call: the
    agent is not prompted and, the code being non-retryable, nothing is
    retried, whatever the autonomy level and the budget. *)
Theorem dispatchToAgent_session_failure (messageJson : jsstring) ctx c task
    (created : option jsstring) (w' : World) :
  parseTaskMessage messageJson = Some task ->
  registryHas (agents ctx) (agent_id (task_payload task)) = true ->
  determineGate (level (configOf AgentConfig ctx))
                (classifyAction task (agents ctx)) = lit "proceed" ->
  truthy (parent_session_id (task_payload task)) = None ->
  session_create (client ctx) (world c) = (Returned created, w') ->
  truthy created = None ->
  exists m,
    dispatchToAgent messageJson ctx c
    = (Returned (JSON_stringify m),
       afterUUID {| world := w'; calls := calls c ++ [CallSessionCreate] |})
    /\ failureWith ErrorCode.SESSION_NOT_FOUND
         (Some (lit "Session creation returned no ID")) m.
Proof.
  intros Hparse Hreg Hgate Hparent Hcreate Hid.
  rewrite (dispatch_known ctx task _ c Hparse Hreg), (gate_allows _ _ _ Hgate).
  destruct (createFailureMessage_run ErrorCode.SESSION_NOT_FOUND
              (lit "Failed to create session")
              (Some (lit "Session creation returned no ID"))
              {| world := w'; calls := calls c ++ [CallSessionCreate] |})
    as (m & Hfail & Hm).
  assert (Hexec : executeDispatch task ctx c
                  = (Returned m,
                     afterUUID {| world := w';
                                  calls := calls c ++ [CallSessionCreate] |})).
  { unfold executeDispatch. rewrite Hparent. unfold bind at 1.
    rewrite (invoke_run CallSessionCreate _ _ _ _ Hcreate), Hid.
    exact Hfail. }
  destruct (failureWith_code _ _ _ Hm) as [Htype Hcode].
  exists m. split; [| exact Hm].
  unfold tryCatch, executionPhase. unfold bind at 1. rewrite Hexec.
  unfold bind at 1. rewrite Htype, eqb_refl.
  unfold Retry.executeWithRetry.
  rewrite retryLoop_stops.
  - reflexivity.
  - apply RetryFacts.shouldAutoRetry_stops. left.
    exists ErrorCode.SESSION_NOT_FOUND. split; [exact Hcode | simpl; auto].
Qed.

(** *** The calls a computation may add to the log *)

(** [m] only ever adds calls that satisfy [P] to the call log, whether it
    returns or throws. *)
Definition AddsOnly {A} (P : Call -> Prop) (m : M A) : Prop :=
  forall c, exists more, calls (snd (m c)) = calls c ++ more /\ Forall P more.

Lemma addsOnly_ret {A} (P : Call -> Prop) (a : A) : AddsOnly P (ret a).
Proof. intros c. exists []. split; [now rewrite app_nil_r | constructor]. Qed.

Lemma addsOnly_bind {A B} (P : Call -> Prop) (m : M A) (k : A -> M B) :
  AddsOnly P m -> (forall a, AddsOnly P (k a)) -> AddsOnly P (bind m k).
Proof.
  intros Hm Hk c. unfold bind.
  destruct (Hm c) as (more & Hcalls & HP).
  destruct (m c) as [[a | e] c1]; cbn [snd] in Hcalls.
  - destruct (Hk a c1) as (more' & Hcalls' & HP').
    exists (more ++ more'). split.
    + now rewrite Hcalls', Hcalls, app_assoc.
    + apply Forall_app. split; assumption.
  - exists more. split; assumption.
Qed.

Lemma addsOnly_tryCatch {A} (P : Call -> Prop) (m : M A)
    (handler : Thrown -> M A) :
  AddsOnly P m -> (forall e, AddsOnly P (handler e)) ->
  AddsOnly P (tryCatch m handler).
Proof.
  intros Hm Hh c. unfold tryCatch.
  destruct (Hm c) as (more & Hcalls & HP).
  destruct (m c) as [[a | e] c1]; cbn [snd] in Hcalls.
  - exists more. split; assumption.
  - destruct (Hh e c1) as (more' & Hcalls' & HP').
    exists (more ++ more'). split.
    + now rewrite Hcalls', Hcalls, app_assoc.
    + apply Forall_app. split; assumption.
Qed.

Lemma addsOnly_invoke {A} (P : Call -> Prop) (tag : Call) (f : External A) :
  P tag -> AddsOnly P (invoke tag f).
Proof.
  intros Htag c. unfold invoke. destruct (f (world c)) as [r w'].
  exists [tag]. split; [reflexivity | now constructor].
Qed.

Lemma addsOnly_randomUUID (P : Call -> Prop) : AddsOnly P randomUUID.
Proof.
  intros c. unfold randomUUID. destruct (host_randomUUID (world c)).
  exists []. split; [now rewrite app_nil_r | constructor].
Qed.

Lemma addsOnly_nowTimestamp (P : Call -> Prop) : AddsOnly P nowTimestamp.
Proof. intros c. exists []. split; [now rewrite app_nil_r | constructor]. Qed.

Lemma addsOnly_observe {A} (P : Call -> Prop) (f : World -> A) :
  AddsOnly P (observe f).
Proof. intros c. exists []. split; [now rewrite app_nil_r | constructor]. Qed.

Lemma addsOnly_createFailureMessage (P : Call -> Prop) (code message : jsstring)
    (cause : option jsstring) :
  AddsOnly P (createFailureMessage code message cause).
Proof.
  unfold createFailureMessage.
  apply addsOnly_bind; [apply addsOnly_randomUUID | intros uuid].
  apply addsOnly_bind; [apply addsOnly_nowTimestamp | intros now].
  apply addsOnly_ret.
Qed.

Lemma addsOnly_validationFailure (P : Call -> Prop) (agentId error : jsstring) :
  AddsOnly P (validationFailure agentId error).
Proof.
  unfold validationFailure.
  apply addsOnly_bind; [apply addsOnly_randomUUID | intros uuid].
  apply addsOnly_bind; [apply addsOnly_nowTimestamp | intros now].
  apply addsOnly_ret.
Qed.

Lemma addsOnly_wrapAsResultMessage (P : Call -> Prop) (text agentId : jsstring) :
  AddsOnly P (wrapAsResultMessage text agentId).
Proof.
  unfold wrapAsResultMessage.
  apply addsOnly_bind; [apply addsOnly_randomUUID | intros uuid].
  apply addsOnly_bind; [apply addsOnly_nowTimestamp | intros now].
  apply addsOnly_ret.
Qed.

Lemma addsOnly_validateWithRetry (P : Call -> Prop) (raw agentId : jsstring)
    (config : ValidationConfig) (sender : jsstring -> M jsstring) :
  (forall correction, AddsOnly P (sender correction)) ->
  AddsOnly P (validateWithRetry raw agentId config (Some sender)).
Proof.
  intros Hsender. unfold validateWithRetry.
  destruct (validateMessage raw) as [message | error retryable];
    [apply addsOnly_ret |].
  destruct (wrapPlainText config && isPlainText raw);
    [apply addsOnly_wrapAsResultMessage |].
  destruct (maxRetries config <=? 0)%Z; [apply addsOnly_validationFailure |].
  generalize (Z.to_nat (maxRetries config)) as remaining.
  intros remaining. revert error.
  induction remaining as [| remaining IH]; intros error; cbn [correctionLoop].
  - apply addsOnly_validationFailure.
  - apply addsOnly_bind; [apply Hsender | intros corrected].
    destruct (validateMessage corrected); [apply addsOnly_ret | apply IH].
Qed.

Lemma addsOnly_retryLoop (P : Call -> Prop) (level : jsstring)
    (maxRetries : Z) (executor : M MessageEnvelope) :
  AddsOnly P executor ->
  forall fuel current attempts,
    AddsOnly P (Retry.retryLoop fuel level maxRetries executor current attempts).
Proof.
  intros Hexec. induction fuel as [| fuel IH]; intros current attempts;
    cbn [Retry.retryLoop]; [apply addsOnly_ret |].
  destruct (attempts <? maxRetries)%Z; [| apply addsOnly_ret].
  destruct (negb _); [apply addsOnly_ret |].
  apply addsOnly_bind; [exact Hexec | intros result].
  destruct (negb _); [apply addsOnly_ret | apply IH].
Qed.

(** A prompt of the given agent on the given session. *)
Definition promptOn (sessionId agent : jsstring) (k : Call) : Prop :=
  exists text, k = CallSessionPrompt sessionId agent text.

Lemma addsOnly_promptSession ctx (sessionId agent text : jsstring) :
  AddsOnly (promptOn sessionId agent) (promptSession ctx sessionId agent text).
Proof.
  unfold promptSession.
  apply addsOnly_bind; [| intros result; apply addsOnly_ret].
  apply addsOnly_invoke. now exists text.
Qed.

Lemma addsOnly_dispatchInSession ctx task (sessionId : jsstring) :
  AddsOnly (promptOn sessionId (agent_id (task_payload task)))
           (dispatchInSession task ctx sessionId).
Proof.
  unfold dispatchInSession.
  apply addsOnly_bind; [apply addsOnly_promptSession | intros text].
  destruct text as [| ch text]; [apply addsOnly_createFailureMessage |].
  apply addsOnly_validateWithRetry. intros correction.
  apply addsOnly_promptSession.
Qed.

(** X19.  With a parent session in the task, session.create is never
    called: every call the dispatch makes, retries and correction prompts
    included, is a prompt of the target agent on the parent session. *)
Theorem dispatchToAgent_reuses_parent (messageJson : jsstring) ctx c task
    (sessionId : jsstring) :
  parseTaskMessage messageJson = Some task ->
  truthy (parent_session_id (task_payload task)) = Some sessionId ->
  exists more,
    calls (snd (dispatchToAgent messageJson ctx c)) = calls c ++ more
    /\ Forall (promptOn sessionId (agent_id (task_payload task))) more.
Proof.
  intros Hparse Hparent.
  set (P := promptOn sessionId (agent_id (task_payload task))).
  assert (Hexec : AddsOnly P (executeDispatch task ctx)).
  { unfold executeDispatch. rewrite Hparent.
    apply addsOnly_dispatchInSession. }
  assert (Hfail : forall code message cause,
             AddsOnly P (bind (createFailureMessage code message cause)
                              (fun failure => ret (JSON_stringify failure)))).
  { intros. apply addsOnly_bind; [apply addsOnly_createFailureMessage |].
    intros failure. apply addsOnly_ret. }
  destruct (registryHas (agents ctx) (agent_id (task_payload task))) eqn:Hreg.
  - rewrite (dispatch_known ctx task _ c Hparse Hreg).
    destruct (Js.eqb (decision (gateOf ctx task)) (lit "proceed")) eqn:Hd;
      [apply eqb_eq in Hd | apply eqb_neq in Hd].
    + rewrite (gate_proceeds _ c Hd).
      apply addsOnly_tryCatch.
      * unfold executionPhase.
        apply addsOnly_bind; [exact Hexec | intros result].
        apply addsOnly_bind; [| intros result'; apply addsOnly_ret].
        destruct (Js.eqb (msg_type result) (lit "failure"));
          [| apply addsOnly_ret].
        unfold Retry.executeWithRetry. now apply addsOnly_retryLoop.
      * intros e. unfold executionFailed.
        apply addsOnly_bind; [apply addsOnly_observe | intros aborted].
        destruct aborted; [apply Hfail |].
        destruct (errorText e) as [cause | raised]; [apply Hfail |].
        intros c0. exists []. split; [now rewrite app_nil_r | constructor].
    + destruct (gate_denies (gateOf ctx task) c Hd)
        as (response & c' & -> & Hcalls & _).
      exists []. cbn [snd]. split; [now rewrite app_nil_r | constructor].
  - unfold dispatchToAgent. rewrite Hparse, Hreg. cbn [negb]. apply Hfail.
Qed.

(** *** A client that never returns text *)

Definition isCreateCall (k : Call) : bool :=
  match k with CallSessionCreate => true | _ => false end.

Definition isPromptCall (k : Call) : bool :=
  match k with CallSessionPrompt _ _ _ => true | _ => false end.

(** Session creation always yields an id, and no prompt yields any text. *)
Definition silentClient (client : OpencodeClient) : Prop :=
  (forall w, exists id w',
      session_create client w = (Returned (Some id), w') /\ id <> [])
  /\ (forall sessionId agent text w, exists parts w',
         session_prompt client sessionId agent text w = (Returned parts, w')
         /\ extractTextFromParts
              (match parts with Some ps => ps | None => [] end) = []).

(** The failure [executeDispatch] builds for an empty response. *)
Definition emptyResponse (agent : jsstring) (m : MessageEnvelope) : Prop :=
  failureWith ErrorCode.AGENT_ERROR
    (Some (lit "Agent " ++ agent ++ lit " produced no text output")) m.

Lemma emptyResponse_retryable (agent : jsstring) (m : MessageEnvelope) :
  emptyResponse agent m -> RetryFacts.retryableFailure m.
Proof.
  intros Hm. destruct (failureWith_code _ _ _ Hm) as [Ht Hc].
  split; [exact Ht |]. exists ErrorCode.AGENT_ERROR.
  split; [exact Hc | simpl; auto].
Qed.

Lemma executeDispatch_silent ctx task c :
  silentClient (client ctx) ->
  truthy (parent_session_id (task_payload task)) = None ->
  exists m c',
    executeDispatch task ctx c = (Returned m, c')
    /\ emptyResponse (agent_id (task_payload task)) m
    /\ countCalls isCreateCall c' = (countCalls isCreateCall c + 1)%nat
    /\ countCalls isPromptCall c' = (countCalls isPromptCall c + 1)%nat.
Proof.
  intros [Hcreate Hprompt] Hparent.
  destruct (Hcreate (world c)) as (id & w1 & Hc & Hid).
  destruct (Hprompt id (agent_id (task_payload task))
              (prompt (task_payload task)) w1)
    as (parts & w2 & Hp & Hempty).
  destruct (createFailureMessage_run ErrorCode.AGENT_ERROR
              (lit "Agent returned empty response")
              (Some (lit "Agent " ++ agent_id (task_payload task)
                     ++ lit " produced no text output"))
              {| world := w2;
                 calls := (calls c ++ [CallSessionCreate])
                          ++ [CallSessionPrompt id
                                (agent_id (task_payload task))
                                (prompt (task_payload task))] |})
    as (m & Hfail & Hm).
  exists m. eexists. split; [| split; [exact Hm |]].
  - unfold executeDispatch. rewrite Hparent. unfold bind at 1.
    rewrite (invoke_run CallSessionCreate _ _ _ _ Hc).
    replace (truthy (Some id)) with (Some id)
      by (destruct id; [contradiction | reflexivity]).
    unfold dispatchInSession, promptSession. unfold bind at 1. unfold bind at 1.
    rewrite (invoke_run (CallSessionPrompt id _ _) _ _ _
               {| world := w1; calls := calls c ++ [CallSessionCreate] |} Hp).
    unfold ret at 1. rewrite Hempty. exact Hfail.
  - unfold afterUUID, countCalls. cbn [calls].
    rewrite !filter_app, !length_app. simpl. split; lia.
Qed.

Lemma retryLoop_always_failing (executor : M MessageEnvelope)
    (Good : MessageEnvelope -> Prop) (measure : Cell -> nat)
    (level : jsstring) (maxRetries : Z) :
  retryingLevel level ->
  (forall m, Good m -> RetryFacts.retryableFailure m) ->
  (forall c, exists m c',
      executor c = (Returned m, c') /\ Good m
      /\ measure c' = (measure c + 1)%nat) ->
  forall fuel current attempts c,
    Good current ->
    (Z.to_nat (maxRetries - attempts) < fuel)%nat ->
    exists m c',
      Retry.retryLoop fuel level maxRetries executor current attempts c
      = (Returned m, c')
      /\ Good m
      /\ measure c' = (measure c + Z.to_nat (maxRetries - attempts))%nat.
Proof.
  intros Hlevel Hgood Hexec.
  induction fuel as [| fuel IH]; intros current attempts c Hcur Hfuel;
    [lia |].
  cbn [Retry.retryLoop].
  destruct (attempts <? maxRetries)%Z eqn:Hlt.
  - apply Z.ltb_lt in Hlt.
    rewrite shouldAutoRetry_true_intro;
      [ | exact Hlt
        | apply retryableFailure_hasCode, Hgood, Hcur
        | exact Hlevel ].
    cbn [negb]. unfold bind.
    destruct (Hexec c) as (m & c1 & -> & Hm & Hmeasure).
    rewrite (proj1 (Hgood m Hm)), eqb_refl. cbn [negb].
    destruct (IH m (attempts + 1)%Z c1 Hm ltac:(lia))
      as (m' & c' & Hrun & Hm' & Hmeasure').
    exists m', c'. split; [exact Hrun |]. split; [exact Hm' |].
    rewrite Hmeasure', Hmeasure. lia.
  - apply Z.ltb_ge in Hlt.
    exists current, c. split; [reflexivity |]. split; [exact Hcur |]. lia.
Qed.

(** X20.  When the client never returns text and the gate lets the task
    proceed, every attempt ends in the AGENT_ERROR failure for an empty
    response, which is retried until the budget is used up: the agent is
    prompted 1 + maxRetries times and, no parent session being given, a
    session is created for each of these attempts. *)
Theorem dispatchToAgent_silent_agent (messageJson : jsstring) ctx c task :
  parseTaskMessage messageJson = Some task ->
  registryHas (agents ctx) (agent_id (task_payload task)) = true ->
  determineGate (level (configOf AgentConfig ctx))
                (classifyAction task (agents ctx)) = lit "proceed" ->
  truthy (parent_session_id (task_payload task)) = None ->
  silentClient (client ctx) ->
  exists m c',
    dispatchToAgent messageJson ctx c = (Returned (JSON_stringify m), c')
    /\ emptyResponse (agent_id (task_payload task)) m
    /\ countCalls isPromptCall c'
       = (countCalls isPromptCall c + 1
          + Z.to_nat (Autonomy.maxRetries (configOf AgentConfig ctx)))%nat
    /\ countCalls isCreateCall c'
       = (countCalls isCreateCall c + 1
          + Z.to_nat (Autonomy.maxRetries (configOf AgentConfig ctx)))%nat.
Proof.
  intros Hparse Hreg Hgate Hparent Hsilent.
  assert (Hlevel : retryingLevel (level (configOf AgentConfig ctx))).
  { destruct (determineGate_cases (level (configOf AgentConfig ctx))
                (classifyAction task (agents ctx)))
      as [[_ [(Hl & _) | (Hl & _)]] | [[Hd _] | (Hd & _)]];
      [now left | now right
      | rewrite Hd in Hgate; discriminate Hgate
      | rewrite Hd in Hgate; discriminate Hgate]. }
  rewrite (dispatch_known ctx task _ c Hparse Hreg), (gate_allows _ _ _ Hgate).
  destruct (executeDispatch_silent ctx task c Hsilent Hparent)
    as (m0 & c0 & Hfirst & Hm0 & Hcreate0 & Hprompt0).
  set (agent := agent_id (task_payload task)) in *.
  set (budget := Autonomy.maxRetries (configOf AgentConfig ctx)).
  destruct (retryLoop_always_failing (executeDispatch task ctx)
              (emptyResponse agent) (countCalls isPromptCall)
              (level (configOf AgentConfig ctx)) budget Hlevel
              (emptyResponse_retryable agent)
              (fun c1 =>
                 match executeDispatch_silent ctx task c1 Hsilent Hparent with
                 | ex_intro _ m (ex_intro _ c' (conj Hr (conj Hm (conj _ Hp)))) =>
                     ex_intro _ m (ex_intro _ c' (conj Hr (conj Hm Hp)))
                 end)
              (S (Z.to_nat budget)) m0 0%Z c0 Hm0 ltac:(lia))
    as (m & c' & Hloop & Hm & Hprompts).
  destruct (retryLoop_always_failing (executeDispatch task ctx)
              (emptyResponse agent) (countCalls isCreateCall)
              (level (configOf AgentConfig ctx)) budget Hlevel
              (emptyResponse_retryable agent)
              (fun c1 =>
                 match executeDispatch_silent ctx task c1 Hsilent Hparent with
                 | ex_intro _ m (ex_intro _ c' (conj Hr (conj Hm (conj Hc _)))) =>
                     ex_intro _ m (ex_intro _ c' (conj Hr (conj Hm Hc)))
                 end)
              (S (Z.to_nat budget)) m0 0%Z c0 Hm0 ltac:(lia))
    as (m' & c'' & Hloop' & _ & Hcreates).
  rewrite Hloop in Hloop'. injection Hloop' as <- <-.
  exists m, c'. split; [| split; [exact Hm |]].
  - unfold tryCatch, executionPhase. unfold bind at 1. rewrite Hfirst.
    unfold bind at 1.
    rewrite (proj1 (failureWith_code _ _ _ Hm0)), eqb_refl.
    unfold Retry.executeWithRetry. fold budget. rewrite Hloop. reflexivity.
  - rewrite Z.sub_0_r in Hprompts, Hcreates. split; lia.
Qed.

(** X21.  The registry check is a property lookup on an object: it rejects
    an agent id exactly when the id is neither a key of the registry nor
    the name of a member of Object.prototype.  A task for such a name
    (constructor, toString, ...) is therefore not answered with
    UNKNOWN_AGENT even when no such agent is registered; under a level that
    is neither assisted nor autonomous the answer is the gate's. *)
Theorem registryHas_inherits :
  (forall (registry : Registry AgentConfig) (id : jsstring),
      registryHas registry id = false
      <-> ~ In id (map fst registry) /\ ~ In id objectPrototypeKeys)
  /\ (forall (messageJson : jsstring) ctx c task,
        parseTaskMessage messageJson = Some task ->
        In (agent_id (task_payload task)) objectPrototypeKeys ->
        ~ retryingLevel (level (configOf AgentConfig ctx)) ->
        exists response c',
          enforcePreDispatchGate (gateOf ctx task) c
          = (Returned (Denied response), c')
          /\ dispatchToAgent messageJson ctx c
             = (Returned (JSON_stringify response), c')).
Proof.
  assert (Hhas : forall (registry : Registry AgentConfig) id,
             registryHas registry id = true
             <-> In id (map fst registry) \/ In id objectPrototypeKeys).
  { intros registry id. unfold registryHas.
    rewrite orb_true_iff, has_In, existsb_exists, in_map_iff.
    split; (intros [Hown | Hproto]; [left | now right]).
    - destruct Hown as (entry & Hin & E). apply eqb_eq in E.
      exists entry. split; [exact E | exact Hin].
    - destruct Hown as (entry & E & Hin). exists entry.
      split; [exact Hin | now apply eqb_eq]. }
  split.
  - intros registry id. rewrite <- not_true_iff_false, Hhas. tauto.
  - intros messageJson ctx c task Hparse Hproto Hlevel.
    assert (Hreg : registryHas (agents ctx) (agent_id (task_payload task)) = true)
      by (apply Hhas; now right).
    rewrite (dispatch_known ctx task _ c Hparse Hreg).
    assert (Hd : decision (gateOf ctx task) <> lit "proceed").
    { cbn [decision gateOf policyContext]. intros Hd.
      destruct (determineGate_cases (level (configOf AgentConfig ctx))
                  (classifyAction task (agents ctx)))
        as [[_ [(Hl & _) | (Hl & _)]] | [[Hb _] | (Hb & _)]];
        [ apply Hlevel; now left | apply Hlevel; now right
        | rewrite Hb in Hd; discriminate Hd
        | rewrite Hb in Hd; discriminate Hd ]. }
    destruct (gate_denies (gateOf ctx task) c Hd)
      as (response & c' & Hrun & _).
    exists response, c'. split; [exact Hrun |]. now rewrite Hrun.
Qed.

End WithHost.

(** *** Test doubles for the dispatch properties *)

Import Fixtures.

(** The stand-in runtime of the tests, with the document ["{task}"] parsing
    to the given task. *)
Definition hostFor (task : TaskMessage) : Host := {|
  World := TestWorld;
  host_randomUUID := host_randomUUID (Host := testHost);
  host_now := host_now (Host := testHost);
  JSON_stringify := JSON_stringify (Host := testHost);
  JSON_parse := JSON_parse (Host := testHost);
  TaskMessageSchema_safeParse := fun parsed =>
    match parsed with
    | JStr s => if Js.eqb s (lit "task") then Some task else None
    | _ => None
    end;
  MessageEnvelopeSchema_safeParse :=
    MessageEnvelopeSchema_safeParse (Host := testHost);
  correctionPromptFor := correctionPromptFor (Host := testHost);
  validationFailureText := validationFailureText (Host := testHost)
|}.

(** dispatch.test.ts: a client whose prompts return no parts; session
    creation returns [created]. *)
Definition quietClient (task : TaskMessage) (created : option jsstring)
    : OpencodeClient (H := hostFor task) :=
  {| session_create := fun w => (Returned created, w);
     session_prompt := fun _ _ _ w => (Returned (Some []), w) |}.

Definition contextFor (task : TaskMessage) (created : option jsstring)
    (level : option jsstring) (registry : Registry unit)
    : DispatchContext (H := hostFor task) unit :=
  {| client := quietClient task created;
     agents := registry;
     validationConfig := {| maxRetries := 2; wrapPlainText := true |};
     autonomyConfig :=
       match level with
       | Some l => Some {| level := l; Autonomy.maxRetries := 2 |}
       | None => None
       end;
     abort := None |}.

Definition startCell (task : TaskMessage) : Cell (H := hostFor task) :=
  Build_Cell (H := hostFor task) freshWorld [].

Definition coderTask : TaskMessage :=
  createTaskMessage (lit "coder") (lit "Write a function").

Definition followUpTask : TaskMessage :=
  {| task_session_id := testSessionId;
     task_timestamp := testTimestamp;
     task_payload := {| agent_id := lit "researcher";
                        prompt := lit "Find information about X";
                        context := None;
                        parent_session_id := Some testSessionId |} |}.

Definition toStringTask : TaskMessage :=
  createTaskMessage (lit "toString") (lit "Find information about X").

Lemma dispatchToAgent_rejects_quietly_witness :
  calls (snd (dispatchToAgent (H := hostFor coderTask) (lit "not valid json")
                (contextFor coderTask (Some (lit "test-session-id"))
                            (Some (lit "autonomous")) testAgents)
                (startCell coderTask)))
  = [].
Proof.
  apply (dispatchToAgent_rejects_quietly (H := hostFor coderTask) unit).
  left. reflexivity.
Defined.

Lemma dispatchToAgent_gated_witness :
  exists response c',
    dispatchToAgent (H := hostFor coderTask) (lit "{task}")
      (contextFor coderTask (Some (lit "test-session-id")) None testAgents)
      (startCell coderTask)
    = (Returned (JSON_stringify (Host := hostFor coderTask) response), c')
    /\ calls c' = [].
Proof.
  destruct (dispatchToAgent_gated (H := hostFor coderTask) unit (lit "{task}")
              (contextFor coderTask (Some (lit "test-session-id")) None
                          testAgents)
              (startCell coderTask) coderTask eq_refl eq_refl)
    as (response & c' & Hrun & Hcalls & _).
  - intros [Hl | Hl]; discriminate Hl.
  - exists response, c'. split; [exact Hrun | exact Hcalls].
Defined.

Lemma dispatchToAgent_session_failure_witness :
  exists m,
    dispatchToAgent (H := hostFor coderTask) (lit "{task}")
      (contextFor coderTask None (Some (lit "autonomous")) testAgents)
      (startCell coderTask)
    = (Returned (JSON_stringify (Host := hostFor coderTask) m),
       Build_Cell (H := hostFor coderTask)
         {| callCount := 0; uuidCounter := 1; abortedFlag := false |}
         [CallSessionCreate])
    /\ payloadCode m = Some ErrorCode.SESSION_NOT_FOUND.
Proof.
  destruct (dispatchToAgent_session_failure (H := hostFor coderTask) unit
              (lit "{task}")
              (contextFor coderTask None (Some (lit "autonomous")) testAgents)
              (startCell coderTask) coderTask None freshWorld
              eq_refl eq_refl eq_refl eq_refl eq_refl eq_refl)
    as (m & Hrun & Hm).
  exists m. split; [exact Hrun |].
  exact (proj2 (failureWith_code _ _ _ Hm)).
Defined.

Lemma dispatchToAgent_reuses_parent_witness :
  exists more,
    calls (snd (dispatchToAgent (H := hostFor followUpTask) (lit "{task}")
                  (contextFor followUpTask (Some (lit "test-session-id"))
                              (Some (lit "autonomous")) testAgents)
                  (startCell followUpTask)))
    = [] ++ more
    /\ Forall (promptOn testSessionId (lit "researcher")) more.
Proof.
  apply (dispatchToAgent_reuses_parent (H := hostFor followUpTask) unit
           (lit "{task}")
           (contextFor followUpTask (Some (lit "test-session-id"))
                       (Some (lit "autonomous")) testAgents)
           (startCell followUpTask) followUpTask testSessionId);
    reflexivity.
Defined.

Lemma dispatchToAgent_silent_agent_witness :
  exists m c',
    dispatchToAgent (H := hostFor coderTask) (lit "{task}")
      (contextFor coderTask (Some (lit "test-session-id"))
                  (Some (lit "autonomous")) testAgents)
      (startCell coderTask)
    = (Returned (JSON_stringify (Host := hostFor coderTask) m), c')
    /\ countCalls isPromptCall c' = 3%nat
    /\ countCalls isCreateCall c' = 3%nat.
Proof.
  destruct (dispatchToAgent_silent_agent (H := hostFor coderTask) unit
              (lit "{task}")
              (contextFor coderTask (Some (lit "test-session-id"))
                          (Some (lit "autonomous")) testAgents)
              (startCell coderTask) coderTask
              eq_refl eq_refl eq_refl eq_refl)
    as (m & c' & Hrun & _ & Hprompts & Hcreates).
  - split.
    + intros w. exists (lit "test-session-id"), w.
      split; [reflexivity | discriminate].
    + intros sessionId agent text w. exists (Some []), w.
      split; reflexivity.
  - exists m, c'. split; [exact Hrun |]. split; assumption.
Defined.

Lemma registryHas_inherits_witness :
  exists response c',
    dispatchToAgent (H := hostFor toStringTask) (lit "{task}")
      (contextFor toStringTask (Some (lit "test-session-id")) None [])
      (startCell toStringTask)
    = (Returned (JSON_stringify (Host := hostFor toStringTask) response), c').
Proof.
  destruct (proj2 (registryHas_inherits (H := hostFor toStringTask) unit)
              (lit "{task}")
              (contextFor toStringTask (Some (lit "test-session-id")) None [])
              (startCell toStringTask) toStringTask eq_refl)
    as (response & c' & _ & Hrun).
  - simpl. tauto.
  - intros [Hl | Hl]; discriminate Hl.
  - exists response, c'. exact Hrun.
Defined.

End DispatchMore.

(** ** plugin/agents.ts *)

(** *** Objects

    The agent configurations are loose objects: beside the declared fields
    any key may occur, so they are modelled as objects rather than as
    records.  An object is given by its own enumerable string-keyed
    properties, listed in property order (the order of [Object.entries]);
    the keys of such a list are distinct. *)

Module Objects.

Fixpoint lookup {A : Type} (key : jsstring) (entries : list (jsstring * A))
    : option A :=
  match entries with
  | [] => None
  | (k, v) :: rest => if Js.eqb k key then Some v else lookup key rest
  end.

(** [Object.hasOwn(o, key)] *)
Definition hasOwn {A : Type} (key : jsstring) (entries : list (jsstring * A))
    : bool :=
  match lookup key entries with Some _ => true | None => false end.

Definition keys {A : Type} (entries : list (jsstring * A)) : list jsstring :=
  map fst entries.

(** The value of a run of decimal digits. *)
Fixpoint digitsValue (acc : N) (s : jsstring) : option N :=
  match s with
  | [] => Some acc
  | c :: rest =>
      if (48 <=? c) && (c <=? 57) then digitsValue (10 * acc + (c - 48)) rest
      else None
  end.

(** The array index a property key denotes, if any: the key is the
    canonical decimal form of an integer below 2^32 - 1.  In the property
    order of an object these keys come first, in ascending order, and the
    other keys follow in the order of their creation. *)
Definition arrayIndex (key : jsstring) : option N :=
  match key with
  | [] => None
  | c :: rest =>
      if (c =? 48) && negb (match rest with [] => true | _ => false end)
      then None
      else match digitsValue 0 key with
           | Some n => if n <? 4294967295 then Some n else None
           | None => None
           end
  end.

Fixpoint update {A : Type} (key : jsstring) (v : A)
    (entries : list (jsstring * A)) : list (jsstring * A) :=
  match entries with
  | [] => []
  | (k, x) :: rest =>
      if Js.eqb k key then (k, v) :: rest else (k, x) :: update key v rest
  end.

Fixpoint insertIndex {A : Type} (i : N) (key : jsstring) (v : A)
    (entries : list (jsstring * A)) : list (jsstring * A) :=
  match entries with
  | [] => [(key, v)]
  | (k, x) :: rest =>
      match arrayIndex k with
      | Some j =>
          if j <? i then (k, x) :: insertIndex i key v rest
          else (key, v) :: entries
      | None => (key, v) :: entries
      end
  end.

(** CreateDataProperty: the value of an existing own property is replaced
    where it stands, a new property takes its place in the property
    order. *)
Definition define {A : Type} (key : jsstring) (v : A)
    (entries : list (jsstring * A)) : list (jsstring * A) :=
  if hasOwn key entries then update key v entries
  else match arrayIndex key with
       | Some i => insertIndex i key v entries
       | None => entries ++ [(key, v)]
       end.

(** [{ ...a, ...b }] *)
Definition spread {A : Type} (a b : list (jsstring * A))
    : list (jsstring * A) :=
  fold_left (fun acc entry => define (fst entry) (snd entry) acc) b a.

End Objects.

Module Agents.
Import Objects.
Import Dispatch.

Section Values.

(** The numbers of JavaScript, with [ToBoolean] on them (false for 0, -0
    and NaN). *)
Variable JsNumber : Type.
Variable numberTruthy : JsNumber -> bool.

(** The values of a configuration: what JSON and the object literals of
    agents/*.ts hold, and [undefined]. *)
Inductive Value :=
| VUndefined
| VNull
| VBool (b : bool)
| VNum (n : JsNumber)
| VStr (s : jsstring)
| VArr (items : list Value)
| VObj (props : list (jsstring * Value)).

(** The own properties of a plain object, one created by an object literal
    or by [JSON.parse]: its prototype is [Object.prototype].  The
    arguments of the functions below are such objects; a key [__proto__]
    in the list is an own property (as [JSON.parse] creates it). *)
Definition Props := list (jsstring * Value).

(** What the prototype of an object can become through an assignment to
    [__proto__]. *)
Inductive Prototype :=
| ObjectPrototype                       (* Object.prototype *)
| NullPrototype                         (* null *)
| PlainPrototype (props : Props)        (* a plain object *)
| ArrayPrototype (items : list Value).  (* an array *)

(** An object the functions below build. *)
Record Obj := {
  proto : Prototype;
  own : Props
}.

Definition plain (props : Props) : Obj :=
  {| proto := ObjectPrototype; own := props |}.

(** ToBoolean *)
Definition toBoolean (v : Value) : bool :=
  match v with
  | VUndefined | VNull => false
  | VBool b => b
  | VNum n => numberTruthy n
  | VStr s => negb (match s with [] => true | _ => false end)
  | VArr _ | VObj _ => true
  end.

(** Whether an assignment to [__proto__], on an object that has no own
    property of this name, finds the accessor of [Object.prototype] along
    the prototype chain (an own data property [__proto__] of the
    prototype hides it; arrays have no such property). *)
Definition reachesProtoSetter (p : Prototype) : bool :=
  match p with
  | ObjectPrototype => true
  | NullPrototype => false
  | PlainPrototype props => negb (hasOwn (lit "__proto__") props)
  | ArrayPrototype _ => true
  end.

(** The [__proto__] setter: an object or null becomes the prototype,
    another value is ignored. *)
Definition setPrototypeOf (v : Value) (o : Obj) : Obj :=
  match v with
  | VNull => {| proto := NullPrototype; own := own o |}
  | VObj props => {| proto := PlainPrototype props; own := own o |}
  | VArr items => {| proto := ArrayPrototype items; own := own o |}
  | _ => o
  end.

(** [o[key] = v].  The only accessor on the prototype chains in play is
    [__proto__] of [Object.prototype]; for every other key, and for an own
    [__proto__], the assignment writes an own data property. *)
Definition assign (key : jsstring) (v : Value) (o : Obj) : Obj :=
  if negb (hasOwn key (own o)) && Js.eqb key (lit "__proto__")
     && reachesProtoSetter (proto o)
  then setPrototypeOf v o
  else {| proto := proto o; own := define key v (own o) |}.

(** [config.disable], read along the prototype chain.  No member of
    [Object.prototype] or [Array.prototype] and no property of an array
    has this name. *)
Definition disableOf (o : Obj) : Value :=
  match lookup (lit "disable") (own o) with
  | Some v => v
  | None =>
      match proto o with
      | PlainPrototype props =>
          match lookup (lit "disable") props with
          | Some v => v
          | None => VUndefined
          end
      | _ => VUndefined
      end
  end.

(** [config.key] on a plain object, for a key that [Object.prototype] does
    not have. *)
Definition field (key : jsstring) (config : Props) : Value :=
  match lookup key config with Some v => v | None => VUndefined end.

Definition PROTECTED_AGENTS : list jsstring := [lit "orca"; lit "strategist"].

(** [base[key]] when it passes
    [typeof baseValue === 'object' && baseValue !== null &&
     !Array.isArray(baseValue)], with its own enumerable properties.  When
    [base] has no own property [key], the value read is inherited:
    [Object.prototype] itself for [__proto__] (an object without enumerable
    properties), a function for the other members of [Object.prototype],
    [undefined] for every other key. *)
Definition mergeableBase (base : Props) (key : jsstring) : option Props :=
  match lookup key base with
  | Some (VObj props) => Some props
  | Some _ => None
  | None => if Js.eqb key (lit "__proto__") then Some [] else None
  end.

(** One turn of the loop of [mergeAgentConfig]. *)
Definition mergeEntry (base : Props) (result : Obj)
    (entry : jsstring * Value) : Obj :=
  let (key, value) := entry in
  match value with
  | VUndefined => result
  | VObj props =>
      match mergeableBase base key with
      | Some baseProps => assign key (VObj (spread baseProps props)) result
      | None => assign key value result
      end
  | _ => assign key value result
  end.

Definition mergeAgentConfig (base override : Props) : Obj :=
  fold_left (mergeEntry base) override (plain base).

(** The record of agents that [mergeAgentConfigs] builds: its own entries
    and, once an agent id [__proto__] was assigned, the configuration that
    became its prototype. *)
Record AgentRecord := {
  record_proto : option Obj;
  record_own : list (jsstring * Obj)
}.

(** [result[agentId] = config] *)
Definition setAgent (agentId : jsstring) (config : Obj)
    (result : AgentRecord) : AgentRecord :=
  if negb (hasOwn agentId (record_own result))
     && Js.eqb agentId (lit "__proto__")
     && match record_proto result with
        | None => true
        | Some p => negb (hasOwn (lit "__proto__") (own p))
                    && reachesProtoSetter (proto p)
        end
  then {| record_proto := Some config; record_own := record_own result |}
  else {| record_proto := record_proto result;
          record_own := define agentId config (record_own result) |}.

(** [userAgents?.[agentId]] as a condition, with the own enumerable
    properties of the value when it holds.  The own values of [userAgents]
    are configurations, which are objects; a member of [Object.prototype]
    read through the prototype chain is a function, or [Object.prototype]
    itself for [__proto__]: truthy, without enumerable properties. *)
Definition userOverrideOf (userAgents : option (list (jsstring * Props)))
    (agentId : jsstring) : option Props :=
  match userAgents with
  | None => None
  | Some agents =>
      match lookup agentId agents with
      | Some config => Some config
      | None => if has objectPrototypeKeys agentId then Some [] else None
      end
  end.

(** One turn of the first loop of [mergeAgentConfigs]. *)
Definition mergeDefault (userAgents : option (list (jsstring * Props)))
    (result : AgentRecord) (entry : jsstring * Props) : AgentRecord :=
  let (agentId, defaultConfig) := entry in
  match userOverrideOf userAgents agentId with
  | Some userOverride =>
      let merged := mergeAgentConfig defaultConfig userOverride in
      if toBoolean (disableOf merged) then result
      else
        let merged :=
          if has PROTECTED_AGENTS agentId
          then assign (lit "responseTypes")
                      (field (lit "responseTypes") defaultConfig) merged
          else merged in
        setAgent agentId merged result
  | None => setAgent agentId (plain defaultConfig) result
  end.

(** One turn of the second loop; [agentId in defaults] holds for the own
    keys of [defaults] and for the members of [Object.prototype]. *)
Definition addUserAgent (defaults : list (jsstring * Props))
    (result : AgentRecord) (entry : jsstring * Props) : AgentRecord :=
  let (agentId, userConfig) := entry in
  if hasOwn agentId defaults || has objectPrototypeKeys agentId then result
  else if toBoolean (field (lit "disable") userConfig) then result
  else setAgent agentId (plain userConfig) result.

Definition mergeAgentConfigs (defaults : list (jsstring * Props))
    (userAgents : option (list (jsstring * Props))) : AgentRecord :=
  let result :=
    fold_left (mergeDefault userAgents) defaults
              {| record_proto := None; record_own := [] |} in
  match userAgents with
  | Some agents => fold_left (addUserAgent defaults) agents result
  | None => result
  end.

End Values.

Arguments VUndefined {JsNumber}.
Arguments VNull {JsNumber}.
Arguments VBool {JsNumber} b.
Arguments VNum {JsNumber} n.
Arguments VStr {JsNumber} s.
Arguments VArr {JsNumber} items.
Arguments VObj {JsNumber} props.
Arguments ObjectPrototype {JsNumber}.
Arguments NullPrototype {JsNumber}.
Arguments PlainPrototype {JsNumber} props.
Arguments ArrayPrototype {JsNumber} items.
Arguments Build_Obj {JsNumber} proto own.
Arguments proto {JsNumber} o.
Arguments own {JsNumber} o.
Arguments plain {JsNumber} props.
Arguments toBoolean {JsNumber} numberTruthy v.
Arguments reachesProtoSetter {JsNumber} p.
Arguments setPrototypeOf {JsNumber} v o.
Arguments assign {JsNumber} key v o.
Arguments disableOf {JsNumber} o.
Arguments field {JsNumber} key config.
Arguments mergeableBase {JsNumber} base key.
Arguments mergeEntry {JsNumber} base result entry.
Arguments mergeAgentConfig {JsNumber} base override.
Arguments Build_AgentRecord {JsNumber} record_proto record_own.
Arguments record_proto {JsNumber} a.
Arguments record_own {JsNumber} a.
Arguments setAgent {JsNumber} agentId config result.
Arguments userOverrideOf {JsNumber} userAgents agentId.
Arguments mergeDefault {JsNumber} numberTruthy userAgents result entry.
Arguments addUserAgent {JsNumber} numberTruthy defaults result entry.
Arguments mergeAgentConfigs {JsNumber} numberTruthy defaults userAgents.

End Agents.

(** ** Merging agent configurations *)

Module AgentsFacts.
Import Objects Agents Dispatch.

(** *** Own properties *)

Section Entries.
Context {A : Type}.
Implicit Types (entries : list (jsstring * A)) (key k : jsstring).

Lemma lookup_none key entries :
  lookup key entries = None <-> ~ In key (keys entries).
Proof.
  induction entries as [| [k0 x] rest IH]; simpl; [tauto |].
  destruct (Js.eqb k0 key) eqn:E;
    [apply eqb_eq in E | apply eqb_neq in E].
  - split; [discriminate | intros Hno; exfalso; apply Hno; now left].
  - rewrite IH. tauto.
Qed.

Lemma lookup_some key entries v :
  lookup key entries = Some v -> In key (keys entries).
Proof.
  intros Hl. destruct (in_dec (list_eq_dec N.eq_dec) key (keys entries))
    as [Hin | Hno]; [exact Hin |].
  apply lookup_none in Hno. congruence.
Qed.

Lemma hasOwn_false key entries :
  hasOwn key entries = false <-> ~ In key (keys entries).
Proof.
  unfold hasOwn. rewrite <- lookup_none.
  destruct (lookup key entries); split; congruence.
Qed.

Lemma hasOwn_cons key k0 (x : A) rest :
  hasOwn key ((k0, x) :: rest) = Js.eqb k0 key || hasOwn key rest.
Proof. unfold hasOwn. simpl. now destruct (Js.eqb k0 key). Qed.

Lemma lookup_update key k (v : A) entries :
  lookup k (update key v entries)
  = if Js.eqb key k
    then (if hasOwn key entries then Some v else None)
    else lookup k entries.
Proof.
  induction entries as [| [k0 x] rest IH].
  - simpl. now destruct (Js.eqb key k).
  - rewrite hasOwn_cons. simpl.
    destruct (Js.eqb k0 key) eqn:E0;
      [apply eqb_eq in E0; subst k0 | ]; simpl.
    + now destruct (Js.eqb key k).
    + rewrite IH.
      destruct (Js.eqb k0 k) eqn:E1; [| reflexivity].
      apply eqb_eq in E1; subst k0.
      assert (E : Js.eqb key k = false).
      { apply eqb_neq. apply eqb_neq in E0. congruence. }
      now rewrite E.
Qed.

Lemma lookup_insertIndex i key k (v : A) entries :
  hasOwn key entries = false ->
  lookup k (insertIndex i key v entries)
  = if Js.eqb key k then Some v else lookup k entries.
Proof.
  induction entries as [| [k0 x] rest IH]; intros Hno.
  - reflexivity.
  - rewrite hasOwn_cons in Hno. apply orb_false_iff in Hno as [E0 Hno].
    cbn [insertIndex].
    destruct (arrayIndex k0) as [j |]; [destruct (j <? i) |];
      try reflexivity.
    cbn [lookup]. rewrite (IH Hno).
    destruct (Js.eqb k0 k) eqn:E1; [| reflexivity].
    apply eqb_eq in E1; subst k0.
    assert (E : Js.eqb key k = false).
    { apply eqb_neq. apply eqb_neq in E0. congruence. }
    now rewrite E.
Qed.

Lemma lookup_snoc key k (v : A) entries :
  hasOwn key entries = false ->
  lookup k (entries ++ [(key, v)])
  = if Js.eqb key k then Some v else lookup k entries.
Proof.
  induction entries as [| [k0 x] rest IH]; intros Hno.
  - reflexivity.
  - rewrite hasOwn_cons in Hno. apply orb_false_iff in Hno as [E0 Hno].
    simpl. rewrite (IH Hno).
    destruct (Js.eqb k0 k) eqn:E1; [| reflexivity].
    apply eqb_eq in E1; subst k0.
    assert (E : Js.eqb key k = false).
    { apply eqb_neq. apply eqb_neq in E0. congruence. }
    now rewrite E.
Qed.

(** Writing a property changes what is read under its key, and nothing
    else. *)
Lemma lookup_define key k (v : A) entries :
  lookup k (define key v entries)
  = if Js.eqb key k then Some v else lookup k entries.
Proof.
  unfold define. destruct (hasOwn key entries) eqn:Hown.
  - now rewrite lookup_update, Hown.
  - destruct (arrayIndex key).
    + now apply lookup_insertIndex.
    + now apply lookup_snoc.
Qed.

(** Distinct keys, decided. *)
Fixpoint distinctb (l : list jsstring) : bool :=
  match l with
  | [] => true
  | x :: rest => negb (has rest x) && distinctb rest
  end.

Lemma distinctb_NoDup (l : list jsstring) : distinctb l = true -> NoDup l.
Proof.
  induction l as [| x rest IH]; intros Hd; [constructor |].
  cbn [distinctb] in Hd. apply andb_true_iff in Hd as [Hx Hrest].
  constructor; [| now apply IH].
  intros Hin. apply has_In in Hin. rewrite Hin in Hx. discriminate Hx.
Qed.

Lemma lookup_spread k (a b : list (jsstring * A)) :
  NoDup (keys b) ->
  lookup k (spread a b)
  = match lookup k b with Some v => Some v | None => lookup k a end.
Proof.
  unfold spread. revert a.
  induction b as [| [k0 v0] rest IH]; intros a Hnd; [reflexivity |].
  inversion Hnd as [| ? ? Hno Hnd']; subst.
  cbn [fold_left fst snd lookup]. rewrite (IH _ Hnd'), lookup_define.
  destruct (Js.eqb k0 k) eqn:E; [| reflexivity].
  apply eqb_eq in E; subst k0.
  apply lookup_none in Hno. now rewrite Hno.
Qed.

End Entries.

Section Merging.
Variable JsNumber : Type.
Variable numberTruthy : JsNumber -> bool.

Local Abbreviation Value := (Value JsNumber).
Local Abbreviation Props := (Props JsNumber).
Local Abbreviation Obj := (Obj JsNumber).
Local Abbreviation AgentRecord := (AgentRecord JsNumber).
Local Abbreviation toBoolean := (toBoolean numberTruthy).
Local Abbreviation mergeAgentConfigs := (mergeAgentConfigs numberTruthy).

Implicit Types (base override config : Props) (key id : jsstring)
  (defaults agents : list (jsstring * Props)).

(** *** mergeAgentConfig *)

(** What one entry of the override writes under its key, if anything. *)
Definition written base key (value : Value) : option Value :=
  match value with
  | VUndefined => None
  | VObj props =>
      match mergeableBase base key with
      | Some baseProps => Some (VObj (spread baseProps props))
      | None => Some value
      end
  | _ => Some value
  end.

Lemma mergeEntry_written base (result : Obj) key value :
  mergeEntry base result (key, value)
  = match written base key value with
    | Some v => assign key v result
    | None => result
    end.
Proof.
  unfold mergeEntry, written.
  destruct value; try reflexivity. now destruct (mergeableBase base key).
Qed.

Lemma own_setPrototypeOf (v : Value) (o : Obj) :
  own (setPrototypeOf v o) = own o.
Proof. now destruct v. Qed.

(** An assignment changes the own property of its key, and no other; the
    key [__proto__] may change the prototype instead. *)
Lemma lookup_assign key k (v : Value) (o : Obj) :
  k <> lit "__proto__" ->
  lookup k (own (assign key v o))
  = if Js.eqb key k then Some v else lookup k (own o).
Proof.
  intros Hk. unfold assign.
  destruct (negb _ && Js.eqb key (lit "__proto__") && _) eqn:Hset.
  - apply andb_true_iff in Hset as [Hset _].
    apply andb_true_iff in Hset as [_ Hset]. apply eqb_eq in Hset. subst key.
    rewrite own_setPrototypeOf.
    assert (E : Js.eqb (lit "__proto__") k = false)
      by (apply eqb_neq; congruence).
    now rewrite E.
  - cbn [own]. apply lookup_define.
Qed.

Lemma assign_plainly key (v : Value) (o : Obj) :
  key <> lit "__proto__" ->
  assign key v o = {| proto := proto o; own := define key v (own o) |}.
Proof.
  intros Hk. unfold assign. apply eqb_neq in Hk. rewrite Hk.
  now rewrite andb_false_r.
Qed.

Lemma fold_mergeEntry_lookup base override (result : Obj) k :
  NoDup (keys override) ->
  k <> lit "__proto__" ->
  lookup k (own (fold_left (mergeEntry base) override result))
  = match lookup k override with
    | Some value =>
        match written base k value with
        | Some v => Some v
        | None => lookup k (own result)
        end
    | None => lookup k (own result)
    end.
Proof.
  intros Hnd Hk. revert result.
  induction override as [| [key value] rest IH]; intros result;
    [reflexivity |].
  inversion Hnd as [| ? ? Hno Hnd']; subst.
  cbn [fold_left lookup]. rewrite (IH Hnd'), mergeEntry_written.
  destruct (Js.eqb key k) eqn:E; [apply eqb_eq in E; subst key |].
  - apply lookup_none in Hno. rewrite Hno.
    destruct (written base k value) as [v |]; [| reflexivity].
    now rewrite (lookup_assign _ _ _ _ Hk), eqb_refl.
  - destruct (written base key value) as [v |]; [| reflexivity].
    now rewrite (lookup_assign _ _ _ _ Hk), E.
Qed.

(** Entries whose keys are not [__proto__] leave the prototype alone. *)
Lemma fold_mergeEntry_proto base override (result : Obj) :
  ~ In (lit "__proto__") (keys override) ->
  proto (fold_left (mergeEntry base) override result) = proto result.
Proof.
  revert result.
  induction override as [| [key value] rest IH]; intros result Hno;
    [reflexivity |].
  cbn [fold_left]. rewrite IH by (intros Hin; apply Hno; now right).
  rewrite mergeEntry_written.
  destruct (written base key value) as [v |]; [| reflexivity].
  rewrite assign_plainly; [reflexivity |].
  intros ->. apply Hno. now left.
Qed.

Lemma written_elsewhere base key (value : Value) :
  key <> lit "__proto__" ->
  written base key value
  = match value with
    | VUndefined => None
    | VObj props =>
        match lookup key base with
        | Some (VObj baseProps) => Some (VObj (spread baseProps props))
        | _ => Some (VObj props)
        end
    | _ => Some value
    end.
Proof.
  intros Hk. unfold written, mergeableBase. apply eqb_neq in Hk. rewrite Hk.
  destruct value; try reflexivity.
  destruct (lookup key base) as [[] |]; reflexivity.
Qed.

(** X22.  mergeAgentConfig, key by key: a key the override does not have,
    or has with the value undefined, keeps the value of the base; when
    both values are objects (not null, not arrays) the result holds their
    spread; in every other case (primitives, null, arrays, an object over
    a value that is not an object) the value of the override replaces that
    of the base. *)
Theorem mergeAgentConfig_keywise base override key :
  NoDup (keys override) ->
  key <> lit "__proto__" ->
  lookup key (own (mergeAgentConfig base override))
  = match lookup key override with
    | None | Some VUndefined => lookup key base
    | Some (VObj props) =>
        match lookup key base with
        | Some (VObj baseProps) => Some (VObj (spread baseProps props))
        | _ => Some (VObj props)
        end
    | Some value => Some value
    end.
Proof.
  intros Hnd Hk. unfold mergeAgentConfig.
  rewrite (fold_mergeEntry_lookup _ _ _ _ Hnd Hk). cbn [own plain].
  destruct (lookup key override) as [value |]; [| reflexivity].
  rewrite (written_elsewhere _ _ _ Hk).
  destruct value; try reflexivity.
  destruct (lookup key base) as [[] |]; reflexivity.
Qed.

(** X23.  The merge of nested objects (tools, permission) is one level
    deep: under each key of the nested object the value of the override,
    if the override has the key, replaces that of the base whatever the two
    values are (a nested undefined included, and nested objects are not
    merged further); the other keys of the base are kept. *)
Theorem mergeAgentConfig_nested base override key
    (baseProps props : Props) :
  NoDup (keys override) ->
  NoDup (keys props) ->
  key <> lit "__proto__" ->
  lookup key base = Some (VObj baseProps) ->
  lookup key override = Some (VObj props) ->
  exists merged,
    lookup key (own (mergeAgentConfig base override)) = Some (VObj merged)
    /\ forall k,
         lookup k merged
         = match lookup k props with
           | Some v => Some v
           | None => lookup k baseProps
           end.
Proof.
  intros Hnd Hnd' Hk Hbase Hover.
  exists (spread baseProps props). split.
  - unfold mergeAgentConfig.
    rewrite (fold_mergeEntry_lookup _ _ _ _ Hnd Hk), Hover.
    now rewrite (written_elsewhere _ _ _ Hk), Hbase.
  - intros k. now apply lookup_spread.
Qed.

(** *** The prototype of the merged configuration *)

Lemma fold_mergeEntry_unkeyed base override (result : Obj) k :
  ~ In k (keys override) ->
  ~ In (lit "__proto__") (keys override) ->
  lookup k (own (fold_left (mergeEntry base) override result))
  = lookup k (own result).
Proof.
  revert result.
  induction override as [| [key value] rest IH]; intros result Hk Hno;
    [reflexivity |].
  cbn [fold_left].
  rewrite IH
    by (intros Hin; first [now (apply Hk; right) | now (apply Hno; right)]).
  rewrite mergeEntry_written.
  destruct (written base key value) as [v |]; [| reflexivity].
  rewrite assign_plainly by (intros ->; apply Hno; now left).
  cbn [own]. rewrite lookup_define.
  assert (E : Js.eqb key k = false)
    by (apply eqb_neq; intros ->; apply Hk; now left).
  now rewrite E.
Qed.

Lemma lookup_split {A : Type} key (entries : list (jsstring * A)) (v : A) :
  lookup key entries = Some v ->
  exists before after,
    entries = before ++ (key, v) :: after /\ ~ In key (keys before).
Proof.
  induction entries as [| [k0 x] rest IH]; [discriminate |]. simpl.
  destruct (Js.eqb k0 key) eqn:E;
    [apply eqb_eq in E; subst k0 | apply eqb_neq in E].
  - intros [= ->]. exists [], rest. split; [reflexivity | intros []].
  - intros Hl. destruct (IH Hl) as (before & after & -> & Hno).
    exists ((k0, x) :: before), after. split; [reflexivity |].
    intros [E' | Hin]; [now apply E | now apply Hno].
Qed.

Lemma keys_app {A : Type} (a b : list (jsstring * A)) :
  keys (a ++ b) = keys a ++ keys b.
Proof. apply map_app. Qed.

(** X24.  The key __proto__ of an override is not copied.  Without it the
    merged configuration keeps Object.prototype as its prototype.  With it,
    on a base that has no own property of that name, an object value
    becomes the prototype of the merged configuration (as a fresh copy of
    its own properties) and no own property __proto__ is written. *)
Theorem mergeAgentConfig_prototype base override :
  (~ In (lit "__proto__") (keys override) ->
   proto (mergeAgentConfig base override) = ObjectPrototype)
  /\ (forall props : Props,
        NoDup (keys override) ->
        lookup (lit "__proto__") override = Some (VObj props) ->
        lookup (lit "__proto__") base = None ->
        proto (mergeAgentConfig base override)
        = PlainPrototype (spread [] props)
        /\ lookup (lit "__proto__") (own (mergeAgentConfig base override))
           = None).
Proof.
  split.
  - intros Hno. unfold mergeAgentConfig.
    now rewrite fold_mergeEntry_proto.
  - intros props Hnd Hover Hbase.
    destruct (lookup_split _ _ _ Hover) as (before & after & -> & Hbefore).
    assert (Hafter : ~ In (lit "__proto__") (keys after)).
    { rewrite keys_app in Hnd. apply NoDup_remove_2 in Hnd.
      intros Hin. apply Hnd. apply in_or_app. now right. }
    unfold mergeAgentConfig. rewrite fold_left_app. cbn [fold_left].
    set (result := fold_left (mergeEntry base) before (plain base)).
    assert (Hproto : proto result = ObjectPrototype)
      by (unfold result; now rewrite fold_mergeEntry_proto).
    assert (Hown : lookup (lit "__proto__") (own result) = None)
      by (unfold result; now rewrite fold_mergeEntry_unkeyed).
    assert (Hstep : mergeEntry base result (lit "__proto__", VObj props)
                    = {| proto := PlainPrototype (spread [] props);
                         own := own result |}).
    { rewrite mergeEntry_written. unfold written, mergeableBase.
      rewrite Hbase, eqb_refl. unfold assign, hasOwn.
      now rewrite Hown, Hproto, eqb_refl. }
    rewrite Hstep. split.
    + now rewrite fold_mergeEntry_proto.
    + now rewrite fold_mergeEntry_unkeyed.
Qed.

(** *** mergeAgentConfigs *)

(** What the first loop stores for a default agent, if anything. *)
Definition outcome (userAgents : option (list (jsstring * Props))) id
    (defaultConfig : Props) : option Obj :=
  match userOverrideOf userAgents id with
  | Some userOverride =>
      let merged := mergeAgentConfig defaultConfig userOverride in
      if toBoolean (disableOf merged) then None
      else Some (if has PROTECTED_AGENTS id
                 then assign (lit "responseTypes")
                             (field (lit "responseTypes") defaultConfig) merged
                 else merged)
  | None => Some (plain defaultConfig)
  end.

Lemma mergeDefault_outcome userAgents (result : AgentRecord) id
    (defaultConfig : Props) :
  mergeDefault numberTruthy userAgents result (id, defaultConfig)
  = match outcome userAgents id defaultConfig with
    | Some merged => setAgent id merged result
    | None => result
    end.
Proof.
  unfold mergeDefault, outcome.
  destruct (userOverrideOf userAgents id); [| reflexivity].
  now destruct (toBoolean _).
Qed.

Lemma lookup_setAgent id k (config : Obj) (result : AgentRecord) :
  id <> lit "__proto__" \/ k <> lit "__proto__" ->
  lookup id (record_own (setAgent k config result))
  = if Js.eqb k id then Some config else lookup id (record_own result).
Proof.
  intros Hk. unfold setAgent.
  destruct (negb _ && Js.eqb k (lit "__proto__") && _) eqn:Hset.
  - apply andb_true_iff in Hset as [Hset _].
    apply andb_true_iff in Hset as [_ Hset]. apply eqb_eq in Hset. subst k.
    destruct Hk as [Hk | Hk]; [| now elim Hk].
    assert (E : Js.eqb (lit "__proto__") id = false)
      by (apply eqb_neq; congruence).
    now rewrite E.
  - cbn [record_own]. apply lookup_define.
Qed.

(** The first loop, agent by agent. *)
Lemma fold_mergeDefault_lookup userAgents defaults (result : AgentRecord) id :
  NoDup (keys defaults) ->
  id <> lit "__proto__" \/ ~ In (lit "__proto__") (keys defaults) ->
  lookup id (record_own (fold_left (mergeDefault numberTruthy userAgents)
                                   defaults result))
  = match lookup id defaults with
    | Some defaultConfig =>
        match outcome userAgents id defaultConfig with
        | Some merged => Some merged
        | None => lookup id (record_own result)
        end
    | None => lookup id (record_own result)
    end.
Proof.
  intros Hnd Hsafe. revert result.
  induction defaults as [| [k d] rest IH]; intros result; [reflexivity |].
  inversion Hnd as [| ? ? Hno Hnd']; subst.
  assert (Hsafe' : id <> lit "__proto__"
                   \/ ~ In (lit "__proto__") (keys rest)).
  { destruct Hsafe as [Hid | Hkeys]; [now left | right].
    intros Hin. apply Hkeys. now right. }
  assert (Hset : id <> lit "__proto__" \/ k <> lit "__proto__").
  { destruct Hsafe as [Hid | Hkeys]; [now left | right].
    intros ->. apply Hkeys. now left. }
  cbn [fold_left lookup]. rewrite (IH Hnd' Hsafe'), mergeDefault_outcome.
  destruct (Js.eqb k id) eqn:E; [apply eqb_eq in E; subst k |].
  - apply lookup_none in Hno. rewrite Hno.
    destruct (outcome userAgents id d) as [merged |]; [| reflexivity].
    now rewrite (lookup_setAgent _ _ _ _ Hset), eqb_refl.
  - assert (Hsame :
      lookup id (record_own match outcome userAgents k d with
                            | Some merged => setAgent k merged result
                            | None => result
                            end)
      = lookup id (record_own result)).
    { destruct (outcome userAgents k d) as [merged |]; [| reflexivity].
      now rewrite (lookup_setAgent _ _ _ _ Hset), E. }
    now rewrite Hsame.
Qed.

(** What the second loop stores for an agent of the user, if anything. *)
Definition added defaults id (userConfig : Props) : option Obj :=
  if hasOwn id defaults || has objectPrototypeKeys id then None
  else if toBoolean (field (lit "disable") userConfig) then None
  else Some (plain userConfig).

Lemma addUserAgent_added defaults (result : AgentRecord) id
    (userConfig : Props) :
  addUserAgent numberTruthy defaults result (id, userConfig)
  = match added defaults id userConfig with
    | Some config => setAgent id config result
    | None => result
    end.
Proof.
  unfold addUserAgent, added.
  destruct (hasOwn id defaults || has objectPrototypeKeys id);
    [reflexivity |].
  now destruct (toBoolean _).
Qed.

Lemma added_not_proto defaults k (userConfig : Props) (config : Obj) :
  added defaults k userConfig = Some config -> k <> lit "__proto__".
Proof.
  unfold added. intros Hadd ->.
  replace (has objectPrototypeKeys (lit "__proto__")) with true in Hadd
    by reflexivity.
  rewrite orb_true_r in Hadd. discriminate Hadd.
Qed.

(** The second loop, agent by agent. *)
Lemma fold_addUserAgent_lookup defaults agents (result : AgentRecord) id :
  NoDup (keys agents) ->
  lookup id (record_own (fold_left (addUserAgent numberTruthy defaults)
                                   agents result))
  = match lookup id agents with
    | Some userConfig =>
        match added defaults id userConfig with
        | Some config => Some config
        | None => lookup id (record_own result)
        end
    | None => lookup id (record_own result)
    end.
Proof.
  intros Hnd. revert result.
  induction agents as [| [k u] rest IH]; intros result; [reflexivity |].
  inversion Hnd as [| ? ? Hno Hnd']; subst.
  cbn [fold_left lookup]. rewrite (IH Hnd'), addUserAgent_added.
  destruct (Js.eqb k id) eqn:E; [apply eqb_eq in E; subst k |].
  - apply lookup_none in Hno. rewrite Hno.
    destruct (added defaults id u) as [config |] eqn:Hadd; [| reflexivity].
    rewrite lookup_setAgent, eqb_refl; [reflexivity |].
    right. exact (added_not_proto _ _ _ _ Hadd).
  - assert (Hsame :
      lookup id (record_own match added defaults k u with
                            | Some config => setAgent k config result
                            | None => result
                            end)
      = lookup id (record_own result)).
    { destruct (added defaults k u) as [config |] eqn:Hadd; [| reflexivity].
      rewrite lookup_setAgent, E; [reflexivity |].
      right. exact (added_not_proto _ _ _ _ Hadd). }
    now rewrite Hsame.
Qed.

(** The keys of the user's agents are distinct. *)
Definition distinctUserKeys (userAgents : option (list (jsstring * Props)))
    : Prop :=
  match userAgents with
  | Some agents => NoDup (keys agents)
  | None => True
  end.

(** The result of [mergeAgentConfigs], agent by agent. *)
Lemma mergeAgentConfigs_lookup defaults userAgents id :
  NoDup (keys defaults) ->
  distinctUserKeys userAgents ->
  id <> lit "__proto__" \/ ~ In (lit "__proto__") (keys defaults) ->
  lookup id (record_own (mergeAgentConfigs defaults userAgents))
  = match lookup id defaults with
    | Some defaultConfig => outcome userAgents id defaultConfig
    | None =>
        match userAgents with
        | Some agents =>
            match lookup id agents with
            | Some userConfig => added defaults id userConfig
            | None => None
            end
        | None => None
        end
    end.
Proof.
  intros Hnd Hnd' Hsafe. unfold mergeAgentConfigs.
  assert (Hfirst :
    lookup id (record_own
                 (fold_left (mergeDefault numberTruthy userAgents) defaults
                            {| record_proto := None; record_own := [] |}))
    = match lookup id defaults with
      | Some defaultConfig => outcome userAgents id defaultConfig
      | None => None
      end).
  { rewrite (fold_mergeDefault_lookup _ _ _ _ Hnd Hsafe). cbn [record_own lookup].
    destruct (lookup id defaults) as [d |]; [| reflexivity].
    now destruct (outcome userAgents id d). }
  destruct userAgents as [agents |].
  - rewrite (fold_addUserAgent_lookup _ _ _ _ Hnd'), Hfirst.
    destruct (lookup id agents) as [u |] eqn:Hu.
    + destruct (lookup id defaults) as [d |] eqn:Hd.
      * unfold added, hasOwn. now rewrite Hd.
      * now destruct (added defaults id u).
    + reflexivity.
  - exact Hfirst.
Qed.

Lemma has_objectPrototypeKeys id :
  has objectPrototypeKeys id = false <-> ~ In id objectPrototypeKeys.
Proof. rewrite <- not_true_iff_false, has_In. tauto. Qed.

Lemma userOverrideOf_none userAgents id :
  (forall agents,
      userAgents = Some agents ->
      ~ In id (keys agents) /\ ~ In id objectPrototypeKeys) ->
  userOverrideOf userAgents id = None.
Proof.
  intros Hun. unfold userOverrideOf.
  destruct userAgents as [agents |]; [| reflexivity].
  destruct (Hun agents eq_refl) as [Hown Hinherited].
  apply lookup_none in Hown. apply has_objectPrototypeKeys in Hinherited.
  now rewrite Hown, Hinherited.
Qed.

(** X25.  A default agent that the user configuration does not mention
    (there is no user configuration, or it has no property of that name,
    own or inherited from Object.prototype) is in the result with its
    default configuration unchanged, whatever its own disable field says;
    an id that is in neither configuration is not in the result. *)
Theorem mergeAgentConfigs_unmentioned defaults userAgents id :
  NoDup (keys defaults) ->
  distinctUserKeys userAgents ->
  id <> lit "__proto__" ->
  (forall agents,
      userAgents = Some agents ->
      ~ In id (keys agents) /\ ~ In id objectPrototypeKeys) ->
  lookup id (record_own (mergeAgentConfigs defaults userAgents))
  = option_map plain (lookup id defaults).
Proof.
  intros Hnd Hnd' Hid Hun.
  rewrite mergeAgentConfigs_lookup by (try assumption; now left).
  unfold outcome. rewrite (userOverrideOf_none _ _ Hun).
  destruct (lookup id defaults) as [d |]; [reflexivity |].
  destruct userAgents as [agents |]; [| reflexivity].
  destruct (Hun agents eq_refl) as [Hown _].
  apply lookup_none in Hown. now rewrite Hown.
Qed.

(** Reading [disable] on the merge with an override that sets it. *)
Lemma disableOf_overridden base override (v : Value) :
  NoDup (keys override) ->
  lookup (lit "disable") override = Some v ->
  v <> VUndefined ->
  toBoolean (disableOf (mergeAgentConfig base override)) = toBoolean v.
Proof.
  intros Hnd Hv Hdef. unfold disableOf, mergeAgentConfig.
  rewrite (fold_mergeEntry_lookup _ _ _ _ Hnd) by discriminate.
  rewrite Hv, written_elsewhere by discriminate.
  destruct v; try reflexivity; [now elim Hdef |].
  now destruct (lookup (lit "disable") base) as [[] |].
Qed.

Lemma field_truthy key config :
  toBoolean (field key config) = true ->
  exists v, lookup key config = Some v /\ v <> VUndefined
            /\ toBoolean v = true.
Proof.
  unfold field. destruct (lookup key config) as [v |]; [| discriminate].
  intros Hv. exists v. split; [reflexivity |]. split; [| exact Hv].
  intros ->. discriminate Hv.
Qed.

(** X26.  The disable field of the user's configuration decides: when it
    is truthy the agent is not in the result, be it a default agent or one
    of the user's own; when it is present, falsy and not undefined, a
    default agent is in the result even if its default configuration says
    disable: true. *)
Theorem mergeAgentConfigs_disable defaults agents id (userConfig : Props) :
  NoDup (keys defaults) ->
  NoDup (keys agents) ->
  NoDup (keys userConfig) ->
  id <> lit "__proto__" ->
  lookup id agents = Some userConfig ->
  (toBoolean (field (lit "disable") userConfig) = true ->
   lookup id (record_own (mergeAgentConfigs defaults (Some agents))) = None)
  /\ (forall v,
        In id (keys defaults) ->
        lookup (lit "disable") userConfig = Some v ->
        v <> VUndefined ->
        toBoolean v = false ->
        exists merged,
          lookup id (record_own (mergeAgentConfigs defaults (Some agents)))
          = Some merged).
Proof.
  intros Hnd Hnd' Hndc Hid Huser.
  rewrite mergeAgentConfigs_lookup by (try assumption; now left).
  rewrite Huser. unfold outcome, userOverrideOf. rewrite Huser. cbv zeta.
  split.
  - intros Hdis.
    destruct (lookup id defaults) as [d |].
    + destruct (field_truthy _ _ Hdis) as (v & Hv & Hdef & Htrue).
      now rewrite (disableOf_overridden d userConfig v Hndc Hv Hdef), Htrue.
    + unfold added. rewrite Hdis. now destruct (_ || _).
  - intros v Hin Hv Hdef Hfalse.
    destruct (lookup id defaults) as [d |] eqn:Hd;
      [| apply lookup_none in Hd; contradiction].
    rewrite (disableOf_overridden d userConfig v Hndc Hv Hdef), Hfalse.
    eexists. reflexivity.
Qed.

(** X27.  For the protected agents, orca and strategist, the result has
    the responseTypes of the default configuration whatever the user
    configuration holds; for every other default agent an array given as
    responseTypes by the user replaces the default one. *)
Theorem mergeAgentConfigs_protected defaults userAgents id
    (defaultConfig : Props) (merged : Obj) :
  NoDup (keys defaults) ->
  distinctUserKeys userAgents ->
  id <> lit "__proto__" ->
  lookup id defaults = Some defaultConfig ->
  lookup id (record_own (mergeAgentConfigs defaults userAgents))
  = Some merged ->
  (In id PROTECTED_AGENTS ->
   field (lit "responseTypes") (own merged)
   = field (lit "responseTypes") defaultConfig)
  /\ (forall agents (userConfig : Props) (items : list Value),
        ~ In id PROTECTED_AGENTS ->
        userAgents = Some agents ->
        lookup id agents = Some userConfig ->
        NoDup (keys userConfig) ->
        lookup (lit "responseTypes") userConfig = Some (VArr items) ->
        field (lit "responseTypes") (own merged) = VArr items).
Proof.
  intros Hnd Hnd' Hid Hd Hresult.
  rewrite mergeAgentConfigs_lookup in Hresult by (try assumption; now left).
  rewrite Hd in Hresult. unfold outcome in Hresult. split.
  - intros Hprot. apply has_In in Hprot. rewrite Hprot in Hresult.
    destruct (userOverrideOf userAgents id) as [userOverride |].
    + cbv zeta in Hresult. destruct (toBoolean _); [discriminate Hresult |].
      injection Hresult as <-. unfold field at 1.
      now rewrite lookup_assign, eqb_refl by discriminate.
    + now injection Hresult as <-.
  - intros agents userConfig items Hprot -> Huser Hndc Htypes.
    assert (Hno : has PROTECTED_AGENTS id = false)
      by (rewrite <- not_true_iff_false, has_In; exact Hprot).
    rewrite Hno in Hresult. unfold userOverrideOf in Hresult.
    rewrite Huser in Hresult. cbv zeta in Hresult.
    destruct (toBoolean _); [discriminate Hresult |].
    injection Hresult as <-. unfold field, mergeAgentConfig.
    rewrite (fold_mergeEntry_lookup _ _ _ _ Hndc) by discriminate.
    now rewrite Htypes.
Qed.

(** X28.  An agent of the user that is not among the defaults is added as
    it is, without any merge, unless its disable field is truthy or its id
    is the name of a member of Object.prototype (constructor, toString,
    ...): such an id passes the test [agentId in defaults] and the agent is
    left out. *)
Theorem mergeAgentConfigs_new_agent defaults agents id (userConfig : Props) :
  NoDup (keys defaults) ->
  NoDup (keys agents) ->
  ~ In id (keys defaults) ->
  lookup id agents = Some userConfig ->
  lookup id (record_own (mergeAgentConfigs defaults (Some agents)))
  = if has objectPrototypeKeys id
       || toBoolean (field (lit "disable") userConfig)
    then None
    else Some (plain userConfig).
Proof.
  intros Hnd Hnd' Hnew Huser.
  assert (Hsafe : id <> lit "__proto__"
                  \/ ~ In (lit "__proto__") (keys defaults)).
  { destruct (Js.eqb id (lit "__proto__")) eqn:E;
      [apply eqb_eq in E; subst id; now right | apply eqb_neq in E; now left]. }
  rewrite (mergeAgentConfigs_lookup defaults (Some agents) id Hnd Hnd' Hsafe).
  pose proof Hnew as Hown. apply lookup_none in Hnew.
  apply hasOwn_false in Hown.
  rewrite Hnew, Huser. unfold added. rewrite Hown. cbn [orb].
  destruct (has objectPrototypeKeys id); [reflexivity |]. cbn [orb].
  now destruct (toBoolean _).
Qed.

(** X29.  The disable field is read along the prototype chain of the
    merged configuration: an own property __proto__ of the user's
    configuration (as JSON.parse creates it) whose value is an object with
    a truthy disable removes a default agent from the result, though
    neither the default nor the user's configuration has a disable field
    of its own. *)
Theorem mergeAgentConfigs_inherited_disable defaults agents id
    (defaultConfig userConfig props : Props) :
  NoDup (keys defaults) ->
  NoDup (keys agents) ->
  NoDup (keys userConfig) ->
  NoDup (keys props) ->
  id <> lit "__proto__" ->
  lookup id defaults = Some defaultConfig ->
  lookup id agents = Some userConfig ->
  lookup (lit "__proto__") userConfig = Some (VObj props) ->
  lookup (lit "__proto__") defaultConfig = None ->
  lookup (lit "disable") defaultConfig = None ->
  lookup (lit "disable") userConfig = None ->
  toBoolean (field (lit "disable") props) = true ->
  lookup id (record_own (mergeAgentConfigs defaults (Some agents))) = None.
Proof.
  intros Hnd Hnd' Hndc Hndp Hid Hd Huser Hproto Hbase Hdd Hdu Hdis.
  rewrite mergeAgentConfigs_lookup by (try assumption; now left).
  rewrite Hd. unfold outcome, userOverrideOf. rewrite Huser. cbv zeta.
  replace (toBoolean (disableOf (mergeAgentConfig defaultConfig userConfig)))
    with true; [reflexivity |].
  symmetry. unfold disableOf.
  assert (Hown : lookup (lit "disable")
                   (own (mergeAgentConfig defaultConfig userConfig)) = None).
  { unfold mergeAgentConfig.
    rewrite (fold_mergeEntry_lookup _ _ _ _ Hndc) by discriminate.
    now rewrite Hdu. }
  rewrite Hown.
  destruct (lookup_split _ _ _ Hproto) as (before & after & E & Hbefore).
  assert (Hafter : ~ In (lit "__proto__") (keys after)).
  { rewrite E, keys_app in Hndc. apply NoDup_remove_2 in Hndc.
    intros Hin. apply Hndc. apply in_or_app. now right. }
  assert (Hp : proto (mergeAgentConfig defaultConfig userConfig)
               = PlainPrototype (spread [] props)).
  { unfold mergeAgentConfig. rewrite E, fold_left_app. cbn [fold_left].
    rewrite fold_mergeEntry_proto by exact Hafter.
    set (result := fold_left (mergeEntry defaultConfig) before
                             (plain defaultConfig)).
    assert (Hrp : proto result = ObjectPrototype)
      by (unfold result; now rewrite fold_mergeEntry_proto).
    assert (Hro : lookup (lit "__proto__") (own result) = None)
      by (unfold result; now rewrite fold_mergeEntry_unkeyed).
    rewrite mergeEntry_written. unfold written, mergeableBase.
    rewrite Hbase, eqb_refl. unfold assign, hasOwn.
    now rewrite Hro, Hrp, eqb_refl. }
  rewrite Hp, (lookup_spread _ _ _ Hndp).
  unfold field in Hdis.
  destruct (lookup (lit "disable") props) as [v |]; [exact Hdis |].
  discriminate Hdis.
Qed.

(** *** The order of the agents in the result *)

Lemma define_append {A : Type} key (v : A) (entries : list (jsstring * A)) :
  ~ In key (keys entries) ->
  arrayIndex key = None ->
  define key v entries = entries ++ [(key, v)].
Proof.
  intros Hno Hindex. unfold define.
  apply hasOwn_false in Hno. now rewrite Hno, Hindex.
Qed.

Lemma setAgent_append k (config : Obj) (result : AgentRecord) :
  k <> lit "__proto__" ->
  ~ In k (keys (record_own result)) ->
  arrayIndex k = None ->
  setAgent k config result
  = {| record_proto := record_proto result;
       record_own := record_own result ++ [(k, config)] |}.
Proof.
  intros Hk Hno Hindex. unfold setAgent.
  apply eqb_neq in Hk. rewrite Hk, andb_false_r. cbn [andb].
  now rewrite define_append.
Qed.

(** The entry the first loop appends for a default agent. *)
Definition kept (userAgents : option (list (jsstring * Props)))
    (entry : jsstring * Props) : list (jsstring * Obj) :=
  match outcome userAgents (fst entry) (snd entry) with
  | Some merged => [(fst entry, merged)]
  | None => []
  end.

(** The entry the second loop appends for an agent of the user. *)
Definition appended defaults (entry : jsstring * Props)
    : list (jsstring * Obj) :=
  match added defaults (fst entry) (snd entry) with
  | Some config => [(fst entry, config)]
  | None => []
  end.

Lemma keys_flat_map_subset {A B : Type} (f : jsstring * A -> list (jsstring * B))
    (entries : list (jsstring * A)) id :
  (forall entry k, In k (keys (f entry)) -> k = fst entry) ->
  In id (keys (flat_map f entries)) -> In id (keys entries).
Proof.
  intros Hf. induction entries as [| entry rest IH]; [intros [] |].
  cbn [flat_map]. rewrite keys_app, in_app_iff. simpl.
  intros [Hin | Hin]; [left; symmetry; now apply (Hf entry) | right; auto].
Qed.

Lemma kept_key userAgents entry k :
  In k (keys (kept userAgents entry)) -> k = fst entry.
Proof.
  unfold kept. destruct (outcome _ _ _); simpl; [| intros []].
  now intros [<- | []].
Qed.

Lemma appended_key defaults entry k :
  In k (keys (appended defaults entry)) -> k = fst entry.
Proof.
  unfold appended. destruct (added _ _ _); simpl; [| intros []].
  now intros [<- | []].
Qed.

Lemma fold_mergeDefault_entries userAgents defaults (result : AgentRecord) :
  NoDup (keys defaults) ->
  ~ In (lit "__proto__") (keys defaults) ->
  (forall id, In id (keys defaults) -> arrayIndex id = None) ->
  (forall id, In id (keys defaults) -> ~ In id (keys (record_own result))) ->
  fold_left (mergeDefault numberTruthy userAgents) defaults result
  = {| record_proto := record_proto result;
       record_own := record_own result
                     ++ flat_map (kept userAgents) defaults |}.
Proof.
  revert result.
  induction defaults as [| [k d] rest IH];
    intros result Hnd Hproto Hindex Hfresh.
  - simpl. rewrite app_nil_r. now destruct result.
  - inversion Hnd as [| ? ? Hno Hnd']; subst.
    cbn [fold_left flat_map]. rewrite mergeDefault_outcome.
    unfold kept at 1. cbn [fst snd].
    assert (Hk : k <> lit "__proto__")
      by (intros ->; apply Hproto; now left).
    assert (Hrest : ~ In (lit "__proto__") (keys rest))
      by (intros Hin; apply Hproto; now right).
    destruct (outcome userAgents k d) as [merged |].
    + rewrite setAgent_append;
        [| exact Hk | apply Hfresh; now left | apply Hindex; now left].
      rewrite IH; cbn [record_proto record_own];
        [ now rewrite <- app_assoc
        | exact Hnd' | exact Hrest
        | intros id Hin; apply Hindex; now right | ].
      intros id Hin. rewrite keys_app, in_app_iff.
      intros [Hold | [<- | []]];
        [apply (Hfresh id); [now right | exact Hold] | now apply Hno].
    + rewrite IH; [reflexivity | exact Hnd' | exact Hrest
                   | intros id Hin; apply Hindex; now right | ].
      intros id Hin. apply Hfresh. now right.
Qed.

Lemma fold_addUserAgent_entries defaults agents (result : AgentRecord) :
  NoDup (keys agents) ->
  (forall id, In id (keys agents) -> arrayIndex id = None) ->
  (forall id, In id (keys agents) ->
              In id (keys (record_own result)) -> In id (keys defaults)) ->
  fold_left (addUserAgent numberTruthy defaults) agents result
  = {| record_proto := record_proto result;
       record_own := record_own result
                     ++ flat_map (appended defaults) agents |}.
Proof.
  revert result.
  induction agents as [| [k u] rest IH]; intros result Hnd Hindex Hfresh.
  - simpl. rewrite app_nil_r. now destruct result.
  - inversion Hnd as [| ? ? Hno Hnd']; subst.
    cbn [fold_left flat_map]. rewrite addUserAgent_added.
    unfold appended at 1. cbn [fst snd].
    destruct (added defaults k u) as [config |] eqn:Hadd.
    + assert (Hnew : ~ In k (keys defaults)).
      { unfold added in Hadd.
        destruct (hasOwn k defaults) eqn:Hown; [discriminate Hadd |].
        now apply hasOwn_false. }
      rewrite setAgent_append;
        [ | exact (added_not_proto _ _ _ _ Hadd)
          | intros Hin; apply Hnew, (Hfresh k); [now left | exact Hin]
          | apply Hindex; now left ].
      rewrite IH; cbn [record_proto record_own];
        [ now rewrite <- app_assoc
        | exact Hnd'
        | intros id Hin; apply Hindex; now right | ].
      intros id Hin. rewrite keys_app, in_app_iff.
      intros [Hold | [<- | []]];
        [apply (Hfresh id); [now right | exact Hold] | contradiction].
    + rewrite IH; [reflexivity | exact Hnd'
                   | intros id Hin; apply Hindex; now right | ].
      intros id Hin. apply Hfresh. now right.
Qed.

Lemma lookup_in {A : Type} (entries : list (jsstring * A)) k (v : A) :
  NoDup (keys entries) -> In (k, v) entries -> lookup k entries = Some v.
Proof.
  induction entries as [| [k0 x] rest IH]; intros Hnd Hin; [destruct Hin |].
  inversion Hnd as [| ? ? Hno Hnd']; subst. simpl.
  destruct Hin as [[= -> ->] | Hin].
  - now rewrite eqb_refl.
  - destruct (Js.eqb k0 k) eqn:E; [| now apply IH].
    apply eqb_eq in E; subst k0. exfalso. apply Hno.
    change k with (fst (k, v)). now apply in_map.
Qed.

Lemma keys_flat_map_filter {A B : Type}
    (f : jsstring * A -> option B) (p : jsstring -> bool)
    (entries : list (jsstring * A)) :
  (forall entry, In entry entries ->
                 p (fst entry) = match f entry with
                                 | Some _ => true
                                 | None => false
                                 end) ->
  keys (flat_map (fun entry => match f entry with
                               | Some v => [(fst entry, v)]
                               | None => []
                               end) entries)
  = filter p (keys entries).
Proof.
  induction entries as [| entry rest IH]; intros Hp; [reflexivity |].
  cbn [flat_map]. rewrite keys_app. cbn [keys map filter].
  rewrite (Hp entry) by now left.
  fold (keys rest). rewrite <- IH by (intros e He; apply Hp; now right).
  now destruct (f entry).
Qed.

(** X30.  The order of the result, when no agent id is an array index and
    the defaults have no key __proto__: first the default agents that are
    kept, in the order of the defaults, then the agents of the user that
    are added, in the order of the user configuration.  Without a user
    configuration the result is the defaults, entry by entry. *)
Theorem mergeAgentConfigs_order defaults :
  NoDup (keys defaults) ->
  ~ In (lit "__proto__") (keys defaults) ->
  (forall id, In id (keys defaults) -> arrayIndex id = None) ->
  record_own (mergeAgentConfigs defaults None)
  = map (fun entry => (fst entry, plain (snd entry))) defaults
  /\ forall agents,
       NoDup (keys agents) ->
       (forall id, In id (keys agents) -> arrayIndex id = None) ->
       let result := record_own (mergeAgentConfigs defaults (Some agents)) in
       keys result
       = filter (fun id => hasOwn id result) (keys defaults)
         ++ filter (fun id => hasOwn id result && negb (hasOwn id defaults))
                   (keys agents).
Proof.
  intros Hnd Hproto Hindex.
  assert (Hfirst : forall userAgents,
    fold_left (mergeDefault numberTruthy userAgents) defaults
              {| record_proto := None; record_own := [] |}
    = {| record_proto := None;
         record_own := flat_map (kept userAgents) defaults |}).
  { intros userAgents.
    rewrite fold_mergeDefault_entries; try assumption; [reflexivity |].
    intros id _ []. }
  split.
  - unfold mergeAgentConfigs. rewrite Hfirst. cbn [record_own].
    clear. induction defaults as [| [k d] rest IH]; [reflexivity |].
    cbn [flat_map map]. now rewrite IH.
  - intros agents Hnd' Hindex' result.
    assert (Hresult :
      result = flat_map (kept (Some agents)) defaults
               ++ flat_map (appended defaults) agents).
    { unfold result, mergeAgentConfigs. rewrite Hfirst.
      rewrite fold_addUserAgent_entries; try assumption; [reflexivity |].
      cbn [record_own]. intros id _ Hin.
      apply (keys_flat_map_subset _ _ _ (kept_key (Some agents)) Hin). }
    assert (Hlookup : forall id,
      lookup id result
      = match lookup id defaults with
        | Some defaultConfig => outcome (Some agents) id defaultConfig
        | None =>
            match lookup id agents with
            | Some userConfig => added defaults id userConfig
            | None => None
            end
        end).
    { intros id. unfold result.
      apply (mergeAgentConfigs_lookup defaults (Some agents) id Hnd Hnd').
      now right. }
    rewrite Hresult at 1. rewrite keys_app. f_equal.
    + apply (keys_flat_map_filter
               (fun entry => outcome (Some agents) (fst entry) (snd entry))).
      intros [k d] Hin. cbn [fst snd]. unfold hasOwn.
      now rewrite Hlookup, (lookup_in _ _ _ Hnd Hin).
    + apply (keys_flat_map_filter
               (fun entry => added defaults (fst entry) (snd entry))).
      intros [k u] Hin. cbn [fst snd]. unfold hasOwn at 1.
      rewrite Hlookup, (lookup_in _ _ _ Hnd' Hin).
      destruct (lookup k defaults) as [d |] eqn:Hd.
      * unfold hasOwn, added. rewrite Hd.
        cbn [negb hasOwn orb]. unfold hasOwn. rewrite Hd.
        now rewrite andb_false_r.
      * unfold hasOwn. rewrite Hd. cbn [negb]. now rewrite andb_true_r.
Qed.

End Merging.

(** *** The cases of agents.test.ts *)

Local Abbreviation distinct entries :=
  (distinctb_NoDup (keys entries) eq_refl).

(** Integers stand for the numbers in the test cases. *)
Definition zTruthy (z : Z) : bool := negb (z =? 0)%Z.

Definition str (s : string) : Value Z := VStr (lit s).

Definition coderDefault : Props Z :=
  [(lit "mode", str "subagent"); (lit "prompt", str "Default");
   (lit "color", str "#000000")].

(** 'handles undefined values in user config gracefully' *)
Definition modelOnly : Props Z :=
  [(lit "model", str "gpt-4o"); (lit "color", VUndefined)].

Lemma mergeAgentConfig_keywise_witness :
  lookup (lit "color") (own (mergeAgentConfig coderDefault modelOnly))
  = Some (str "#000000")
  /\ lookup (lit "model") (own (mergeAgentConfig coderDefault modelOnly))
     = Some (str "gpt-4o").
Proof.
  split.
  - exact (mergeAgentConfig_keywise Z coderDefault modelOnly (lit "color")
             (distinct modelOnly) ltac:(discriminate)).
  - exact (mergeAgentConfig_keywise Z coderDefault modelOnly (lit "model")
             (distinct modelOnly) ltac:(discriminate)).
Defined.

(** 'deep merges nested objects (tools)' *)
Definition defaultTools : Props Z :=
  [(lit "read", VBool true); (lit "edit", VBool true);
   (lit "bash", VBool false)].

Definition userTools : Props Z :=
  [(lit "bash", VBool true); (lit "webfetch", VBool true)].

Lemma mergeAgentConfig_nested_witness :
  exists merged,
    lookup (lit "tools")
           (own (mergeAgentConfig
                   [(lit "mode", str "subagent"); (lit "tools", VObj defaultTools)]
                   [(lit "tools", VObj userTools)]))
    = Some (VObj merged)
    /\ forall k,
         lookup k merged
         = match lookup k userTools with
           | Some v => Some v
           | None => lookup k defaultTools
           end.
Proof.
  exact (mergeAgentConfig_nested Z
           [(lit "mode", str "subagent"); (lit "tools", VObj defaultTools)]
           [(lit "tools", VObj userTools)] (lit "tools")
           defaultTools userTools
           (distinct [(lit "tools", VObj userTools)]) (distinct userTools)
           ltac:(discriminate) eq_refl eq_refl).
Defined.

(** A configuration as [JSON.parse] gives it for
    [{ "__proto__": { "disable": true } }]. *)
Definition protoDisable : Props Z :=
  [(lit "__proto__", VObj [(lit "disable", VBool true)])].

Lemma mergeAgentConfig_prototype_witness :
  proto (mergeAgentConfig coderDefault modelOnly) = ObjectPrototype
  /\ proto (mergeAgentConfig coderDefault protoDisable)
     = PlainPrototype [(lit "disable", VBool true)].
Proof.
  split.
  - apply (proj1 (mergeAgentConfig_prototype Z coderDefault modelOnly)).
    simpl. intros [E | [E | []]]; discriminate E.
  - exact (proj1 (proj2 (mergeAgentConfig_prototype Z coderDefault protoDisable)
                    [(lit "disable", VBool true)]
                    (distinct protoDisable) eq_refl eq_refl)).
Defined.

(** 'returns defaults when no user config provided' *)
Lemma mergeAgentConfigs_unmentioned_witness :
  lookup (lit "coder")
         (record_own (mergeAgentConfigs zTruthy [(lit "coder", coderDefault)] None))
  = Some (plain coderDefault).
Proof.
  apply (mergeAgentConfigs_unmentioned Z zTruthy
           [(lit "coder", coderDefault)] None (lit "coder")).
  - exact (distinct [(lit "coder", coderDefault)]).
  - exact I.
  - discriminate.
  - intros agents E. discriminate E.
Defined.

(** 'excludes disabled agents' *)
Definition twoDefaults : list (jsstring * Props Z) :=
  [(lit "coder", [(lit "mode", str "subagent"); (lit "prompt", str "Coder")]);
   (lit "tester", [(lit "mode", str "subagent"); (lit "prompt", str "Tester")])].

Lemma mergeAgentConfigs_disable_witness :
  lookup (lit "coder")
         (record_own
            (mergeAgentConfigs zTruthy twoDefaults
               (Some [(lit "coder", [(lit "disable", VBool true)])])))
  = None.
Proof.
  apply (proj1 (mergeAgentConfigs_disable Z zTruthy twoDefaults
                  [(lit "coder", [(lit "disable", VBool true)])]
                  (lit "coder") [(lit "disable", VBool true)]
                  (distinct twoDefaults)
                  (distinct [(lit "coder", [(lit "disable", VBool true)])])
                  (distinct [(lit "disable", VBool true)])
                  ltac:(discriminate) eq_refl)).
  reflexivity.
Defined.

(** 'orca responseTypes cannot be overridden' *)
Definition orcaDefault : Props Z :=
  [(lit "mode", str "primary"); (lit "responseTypes", VArr [])].

Definition orcaUser : Props Z :=
  [(lit "responseTypes", VArr [str "answer"])].

Lemma mergeAgentConfigs_protected_witness :
  exists merged,
    lookup (lit "orca")
           (record_own (mergeAgentConfigs zTruthy [(lit "orca", orcaDefault)]
                          (Some [(lit "orca", orcaUser)])))
    = Some merged
    /\ field (lit "responseTypes") (own merged) = VArr [].
Proof.
  eexists. split; [reflexivity |].
  apply (proj1 (mergeAgentConfigs_protected Z zTruthy
                  [(lit "orca", orcaDefault)] (Some [(lit "orca", orcaUser)])
                  (lit "orca") orcaDefault _
                  (distinct [(lit "orca", orcaDefault)])
                  (distinct [(lit "orca", orcaUser)])
                  ltac:(discriminate) eq_refl eq_refl)).
  simpl. now left.
Defined.

(** 'adds new custom agents from user config' *)
Definition specialist : Props Z :=
  [(lit "mode", str "subagent"); (lit "prompt", str "Custom specialist");
   (lit "color", str "#FF0000")].

Lemma mergeAgentConfigs_new_agent_witness :
  lookup (lit "my-specialist")
         (record_own (mergeAgentConfigs zTruthy [(lit "coder", coderDefault)]
                        (Some [(lit "my-specialist", specialist)])))
  = Some (plain specialist).
Proof.
  apply (mergeAgentConfigs_new_agent Z zTruthy [(lit "coder", coderDefault)]
           [(lit "my-specialist", specialist)] (lit "my-specialist")
           specialist
           (distinct [(lit "coder", coderDefault)])
           (distinct [(lit "my-specialist", specialist)])).
  - simpl. intros [E | []]. discriminate E.
  - reflexivity.
Defined.

(** 'excludes disabled agents' and 'adds new custom agents from user
    config', together. *)
Definition coderOffPlusSpecialist : list (jsstring * Props Z) :=
  [(lit "my-specialist", specialist);
   (lit "coder", [(lit "disable", VBool true)])].

Lemma mergeAgentConfigs_order_witness :
  keys (record_own (mergeAgentConfigs zTruthy twoDefaults
                      (Some coderOffPlusSpecialist)))
  = [lit "tester"; lit "my-specialist"].
Proof.
  refine (proj2 (mergeAgentConfigs_order Z zTruthy twoDefaults
                   (distinct twoDefaults) _ _)
                coderOffPlusSpecialist (distinct coderOffPlusSpecialist) _).
  - simpl. intros [E | [E | []]]; discriminate E.
  - simpl. intros id [<- | [<- | []]]; reflexivity.
  - simpl. intros id [<- | [<- | []]]; reflexivity.
Defined.

Lemma mergeAgentConfigs_inherited_disable_witness :
  lookup (lit "coder")
         (record_own (mergeAgentConfigs zTruthy [(lit "coder", coderDefault)]
                        (Some [(lit "coder", protoDisable)])))
  = None.
Proof.
  apply (mergeAgentConfigs_inherited_disable Z zTruthy
           [(lit "coder", coderDefault)] [(lit "coder", protoDisable)]
           (lit "coder") coderDefault protoDisable
           [(lit "disable", VBool true)]
           (distinct [(lit "coder", coderDefault)])
           (distinct [(lit "coder", protoDisable)])
           (distinct protoDisable)
           (distinct [(lit "disable", VBool true)]));
    try reflexivity.
  discriminate.
Defined.

End AgentsFacts.
